(** * Color wheel of Aseprite: a shallow embedding of
      [src/app/ui/color_wheel.cpp] and the properties of its pixel/colour
      mapping, harmonies and dirty flags.

    Conventions of the embedding.
    - C++ [int] is [Z]; [/] and [%] on [int] are the truncating [Z.quot] and
      [Z.rem].  Pixel coordinates are widget-local, so the products [u*u],
      [v*v] stay far below the 32-bit limit and no wrap-around is written.
    - C++ [double] and [float] are idealised as the real numbers [R]; the
      conversion [int(x)] of a floating value is truncation toward zero
      ([trunc]), [double(i)] is [IZR].  A floating division by zero (an
      infinity or a NaN in C++) has no counterpart in [R]: the properties
      of code that divides by [umax] or by the radius are stated for a
      divisor that is not zero.
    - [std::sqrt], [std::cos], [std::sin] are the functions of the real
      library; [std::atan2] and [std::fmod] are defined below from their
      mathematical description.
    - Member functions that change the widget take the widget state and
      return the new one. *)

From Stdlib Require Import Reals Lra Lia ZArith List Bool Psatz.
From Stdlib Require String.
Import ListNotations.

Local Open Scope R_scope.

(** ** Numeric helpers of the C++ standard library *)

Module Cxx.

(** [int(x)] for a floating [x]: rounds toward zero. *)
Definition trunc (x : R) : Z :=
  if Rle_dec 0 x then Zfloor x else Zceil x.

(** [std::clamp(v, lo, hi)] is [(v < lo) ? lo : (hi < v) ? hi : v]. *)
Definition clampZ (v lo hi : Z) : Z :=
  if (v <? lo)%Z then lo else if (hi <? v)%Z then hi else v.

Definition clampR (v lo hi : R) : R :=
  if Rlt_dec v lo then lo else if Rlt_dec hi v then hi else v.

(** The comparisons [a < b] and [a <= b] of two floating values, as the
    [bool] a C++ condition tests. *)
Definition ltR (a b : R) : bool := if Rlt_dec a b then true else false.
Definition leR (a b : R) : bool := if Rle_dec a b then true else false.

(** [std::fmod(x, y)]: [x - n*y] where [n] is [x/y] with its fractional part
    removed. *)
Definition fmod (x y : R) : R := x - IZR (trunc (x / y)) * y.

(** [std::atan2(y, x)]: the angle of the point [(x, y)], in (-PI, PI]. *)
Definition atan2 (y x : R) : R :=
  if Rlt_dec 0 x then atan (y / x)
  else if Rlt_dec x 0 then
         (if Rle_dec 0 y then atan (y / x) + PI else atan (y / x) - PI)
  else if Rlt_dec 0 y then PI / 2
  else if Rlt_dec y 0 then - PI / 2
  else 0.

End Cxx.
Import Cxx.

(** ** The static harmony table (lines 35-48) *)

Record HarmonyEntry : Type := mkHarmony {
  n : Z;
  hues : list Z;
  sats : list Z
}.

Definition harmonies : list HarmonyEntry :=
  [ mkHarmony 1 [0;   0;   0;   0] [100;   0;   0;   0]   (* NONE *)
  ; mkHarmony 2 [0; 180;   0;   0] [100; 100;   0;   0]   (* COMPLEMENTARY *)
  ; mkHarmony 2 [0;   0;   0;   0] [100;  50;   0;   0]   (* MONOCHROMATIC *)
  ; mkHarmony 3 [0;  30; 330;   0] [100; 100; 100;   0]   (* ANALOGOUS *)
  ; mkHarmony 3 [0; 150; 210;   0] [100; 100; 100;   0]   (* SPLIT *)
  ; mkHarmony 3 [0; 120; 240;   0] [100; 100; 100;   0]   (* TRIADIC *)
  ; mkHarmony 4 [0; 120; 180; 300] [100; 100; 100; 100]   (* TETRADIC *)
  ; mkHarmony 4 [0;  90; 180; 270] [100; 100; 100; 100]   (* SQUARE *)
  ]%Z.

(** A C array read: [None] stands for an access outside the array. *)
Definition array_get {A : Type} (l : list A) (i : Z) : option A :=
  if (i <? 0)%Z then None else nth_error l (Z.to_nat i).

(** Modelled from the spec: the enumerations of [color_wheel.h], which is
    not part of the sources.  The spec (section 3) lists the colour models
    STANDARD, RYB, NORMAL_MAP and the eight harmony patterns in the order
    of the table above; [Harmony::LAST] is the last of them. *)
Inductive ColorModel : Type := STANDARD | RYB | NORMAL_MAP.

Definition ColorModel_eqb (a b : ColorModel) : bool :=
  match a, b with
  | STANDARD, STANDARD | RYB, RYB | NORMAL_MAP, NORMAL_MAP => true
  | _, _ => false
  end.

(** Modelled from the spec: the values of [enum class Harmony], in the
    order of the table. *)
Module Harmony.
Definition NONE : Z := 0.
Definition COMPLEMENTARY : Z := 1.
Definition MONOCHROMATIC : Z := 2.
Definition ANALOGOUS : Z := 3.
Definition SPLIT : Z := 4.
Definition TRIADIC : Z := 5.
Definition TETRADIC : Z := 6.
Definition SQUARE : Z := 7.
Definition LAST : Z := SQUARE.
End Harmony.

(** ** The colour value type *)

(** Modelled from the spec: [app::Color] (app/color.h) is not part of the
    sources.  Section 3 of the spec describes it as an immutable value
    built by factory functions from HSV or RGB components, with an alpha
    in [0,255] and a "mask" (unset) variant.  A colour remembers the
    components it was built from; reading the channels of the other colour
    space goes through the conversions [rgb_to_hsv] and [hsv_to_rgb], which
    stay parameters.  A factory called without an alpha gives an opaque
    colour (alpha 255); the mask has alpha 0 and all channels 0. *)
Inductive Color : Type :=
  | MaskColor
  | RgbColor (r g b : Z) (a : Z)
  | HsvColor (h s v : R) (a : Z).

Inductive ColorType : Type := MaskType | RgbType | HsvType.

(** Modelled from the spec: the factory functions and the accessors of
    [app::Color] that do not convert between colour spaces. *)
Module Color.
Definition fromMask : Color := MaskColor.
Definition fromRgb (r g b : Z) : Color := RgbColor r g b 255.
Definition fromHsv (h s v : R) (a : Z) : Color := HsvColor h s v a.

Definition getType (c : Color) : ColorType :=
  match c with
  | MaskColor => MaskType
  | RgbColor _ _ _ _ => RgbType
  | HsvColor _ _ _ _ => HsvType
  end.

Definition getAlpha (c : Color) : Z :=
  match c with
  | MaskColor => 0
  | RgbColor _ _ _ a => a
  | HsvColor _ _ _ a => a
  end.

Definition setAlpha (c : Color) (a : Z) : Color :=
  match c with
  | MaskColor => MaskColor
  | RgbColor r g b _ => RgbColor r g b a
  | HsvColor h s v _ => HsvColor h s v a
  end.

(** The test [c.getType() == Color::MaskType]. *)
Definition isMask (c : Color) : bool :=
  match getType c with MaskType => true | _ => false end.
End Color.

(** Modelled from the spec: [gfx::Rect] and its [contains] test (the gfx
    library is not part of the sources).  The spec speaks of a pointer
    position "within" a swatch rectangle given by its corner and size; a
    rectangle holds the points from its corner up to, not including, its
    far edges. *)
Record Rect : Type := mkRect { rx : Z; ry : Z; rw : Z; rh : Z }.

Definition Rect_contains (rc : Rect) (pos : Z * Z) : bool :=
  ((rx rc <=? fst pos) && (fst pos <? rx rc + rw rc) &&
   (ry rc <=? snd pos) && (snd pos <? ry rc + rh rc))%Z.

Definition Rect_center (rc : Rect) : Z * Z :=
  ((rx rc + rw rc ÷ 2)%Z, (ry rc + rh rc ÷ 2)%Z).

(** Modelled from the spec: the paint flags of [color_selector.h], which is
    not part of the sources: one bit per region (section 4.2 names the
    regions MAIN_AREA and BOTTOM_BAR; the base class adds the alpha bar). *)
Definition MainAreaFlag : Z := 1.
Definition BottomBarFlag : Z := 2.
Definition AlphaBarFlag : Z := 4.
Definition AllAreasFlag : Z :=
  Z.lor (Z.lor MainAreaFlag BottomBarFlag) AlphaBarFlag.

(** ** The widget state: the members of [ColorWheel] (and of its base class
    [ColorSelector]) that the functions below read or write.
    [m_wheelRadius] is a floating value (line 292 stores [r - 0.1] in it);
    [m_harmony] is kept as the [int] it is cast to before the table is
    read, since the setting comes from the preferences unchecked. *)
Record ColorWheel : Type := mkColorWheel {
  m_color : Color;
  m_discrete : bool;
  m_colorModel : ColorModel;
  m_harmony : Z;
  m_harmonyPicked : bool;
  m_wheelRadius : R;
  m_wheelBounds : Rect;
  m_paintFlags : Z;
  m_bgColor : Z;
  (* what [hasCaptureInMainArea()] of the base class answers *)
  hasCaptureInMainArea : bool
}.

Definition set_harmonyPicked (w : ColorWheel) (b : bool) : ColorWheel :=
  mkColorWheel (m_color w) (m_discrete w) (m_colorModel w) (m_harmony w) b
    (m_wheelRadius w) (m_wheelBounds w) (m_paintFlags w) (m_bgColor w)
    (hasCaptureInMainArea w).

Definition set_paintFlags (w : ColorWheel) (f : Z) : ColorWheel :=
  mkColorWheel (m_color w) (m_discrete w) (m_colorModel w) (m_harmony w)
    (m_harmonyPicked w) (m_wheelRadius w) (m_wheelBounds w) f (m_bgColor w)
    (hasCaptureInMainArea w).

Definition set_color (w : ColorWheel) (c : Color) : ColorWheel :=
  mkColorWheel c (m_discrete w) (m_colorModel w) (m_harmony w)
    (m_harmonyPicked w) (m_wheelRadius w) (m_wheelBounds w) (m_paintFlags w)
    (m_bgColor w) (hasCaptureInMainArea w).

Definition set_geometry (w : ColorWheel) (r : R) (b : Rect) : ColorWheel :=
  mkColorWheel (m_color w) (m_discrete w) (m_colorModel w) (m_harmony w)
    (m_harmonyPicked w) r b (m_paintFlags w) (m_bgColor w)
    (hasCaptureInMainArea w).

(** Reads of the static table can fail; [x <- e ; k] stops at a failed
    read. *)
Notation "x <- e ; k" :=
  (match e with Some x => k | None => None end)
  (at level 200, e at level 100, k at level 200, right associativity,
   only parsing).

(** ** [ColorWheel::convertHueAngle] (lines 528-555)

    The source takes and returns a [float]; the narrowing of the hue from
    [double] is idealised away with every other rounding. *)

Definition convertHueAngle (model : ColorModel) (h : R) (dir : Z) : R :=
  if ColorModel_eqb model RYB then
    if (dir =? 1)%Z then
      if leR 0 h && ltR h 120 then h / 2          (* from red to yellow *)
      else if ltR h 180 then h - 60               (* from yellow to green *)
      else if ltR h 240 then 120 + 2 * (h - 180)  (* from green to blue *)
      else h                                      (* from blue to red *)
    else
      if leR 0 h && ltR h 60 then 2 * h
      else if ltR h 120 then 60 + h
      else if ltR h 240 then 180 + (h - 120) / 2
      else h
  else h.

(** ** The surface painted by the background thread *)

Inductive SurfaceOp : Type :=
  | PutPixel (color : Z) (x y : Z)
  | DrawRect (rc : Rect) (color : Z).

(** The state of a painting pass: the widget, the writes made on the
    surface so far (latest first), and the number of times the shared
    [stop] flag has been read. *)
Record PaintState : Type := mkPaintState {
  widget : ColorWheel;
  surface : list SurfaceOp;
  clock : nat
}.

(** What the overlay painter asks the graphics context to draw. *)
Inductive OverlayOp : Type :=
  | ColorIndicator (pos : Z * Z) (white : bool)
  | FillRect (color : Color) (rc : Rect).

(** ** The services the wheel consumes

    The code of the colour conversions, of the base class [ColorSelector]
    and of [color_utils] is not part of the sources; the wheel is
    parameterised by them. *)
Record Services : Type := mkServices {
  (** HSV channels (hue in degrees, saturation and value in [0,1]) of a
      colour given by its RGB channels, and back. *)
  rgb_to_hsv : Z -> Z -> Z -> R * R * R;
  hsv_to_rgb : R -> R -> R -> Z * Z * Z;
  (** [ColorSelector::getCurrentAlphaForNewColor()], a function of the
      current selection. *)
  getCurrentAlphaForNewColor : Color -> Z;
  (** [color_utils::color_for_ui]. *)
  color_for_ui : Color -> Z;
  (** The macro [cs_double_diff(a, b)]: do two channel values differ? *)
  cs_double_diff : R -> R -> bool;
  (** [ColorSelector::onNeedsSurfaceRepaint(newColor)]. *)
  ColorSelector_onNeedsSurfaceRepaint : ColorWheel -> Color -> Z;
  (** [ColorSelector::onPaintSurfaceInBgThread]: paints the alpha bar. *)
  ColorSelector_onPaintSurfaceInBgThread :
    (nat -> bool) -> PaintState -> Rect -> Rect -> Rect -> PaintState
}.

(** The bits of the wheel's own two regions in a set of paint flags. *)
Definition wheelBits (flags : Z) : Z :=
  Z.land flags (Z.lor MainAreaFlag BottomBarFlag).

(** The base class, which deals with the alpha bar, reports neither the
    main-area nor the bottom-bar bit ... *)
Definition base_repaint_leaves_wheel_flags (svc : Services) : Prop :=
  forall w c, wheelBits (ColorSelector_onNeedsSurfaceRepaint svc w c) = 0%Z.

(** ... and changes neither of them when it paints. *)
Definition base_paint_leaves_wheel_flags (svc : Services) : Prop :=
  forall stop s main bottom alpha,
    wheelBits (m_paintFlags (widget
      (ColorSelector_onPaintSurfaceInBgThread svc stop s main bottom alpha)))
    = wheelBits (m_paintFlags (widget s)).

(** [cs_double_diff] tests a difference above a tolerance [eps]. *)
Definition diff_with_tolerance (svc : Services) (eps : R) : Prop :=
  forall a b, cs_double_diff svc a b = true <-> eps < Rabs (a - b).

(** An instance of the services, to run the wheel on concrete inputs: the
    textbook RGB/HSV conversions, the alpha of the current selection (255
    when there is none), a tolerance of one thousandth, and a base class
    that only deals with the alpha bar. *)
Module Sample.

Definition rgb_to_hsv (r g b : Z) : R * R * R :=
  let M := Z.max r (Z.max g b) in
  let m := Z.min r (Z.min g b) in
  let c := IZR (M - m) in
  let v := IZR M / 255 in
  let s := if (M =? 0)%Z then 0 else c / IZR M in
  let h :=
    if (M =? m)%Z then 0
    else if (M =? r)%Z then
      (if (g <? b)%Z then 60 * (IZR (g - b) / c) + 360
       else 60 * (IZR (g - b) / c))
    else if (M =? g)%Z then 60 * (2 + IZR (b - r) / c)
    else 60 * (4 + IZR (r - g) / c) in
  (h, s, v).

Definition hsv_to_rgb (h s v : R) : Z * Z * Z :=
  let c := v * s in
  let i := trunc (h / 60) in
  let f := h / 60 - IZR i in
  let p := v - c in
  let q := v - c * f in
  let t := v - c * (1 - f) in
  let '(r, g, b) :=
    match Z.rem i 6 with
    | 0%Z => (v, t, p)
    | 1%Z => (q, v, p)
    | 2%Z => (p, v, t)
    | 3%Z => (p, q, v)
    | 4%Z => (t, p, v)
    | _ => (v, p, q)
    end in
  (trunc (255 * r + 1 / 2), trunc (255 * g + 1 / 2), trunc (255 * b + 1 / 2)).

Definition getCurrentAlphaForNewColor (c : Color) : Z :=
  if Color.isMask c then 255 else Color.getAlpha c.

Definition color_for_ui (c : Color) : Z :=
  match c with
  | MaskColor => 0
  | RgbColor r g b a =>
      Z.lor (Z.lor r (Z.shiftl g 8)) (Z.lor (Z.shiftl b 16) (Z.shiftl a 24))
  | HsvColor h s v a =>
      let '(r, g, b) := hsv_to_rgb h s v in
      Z.lor (Z.lor r (Z.shiftl g 8)) (Z.lor (Z.shiftl b 16) (Z.shiftl a 24))
  end.

Definition cs_double_diff (a b : R) : bool := ltR (1 / 1000) (Rabs (a - b)).

Definition onNeedsSurfaceRepaint (w : ColorWheel) (newColor : Color) : Z :=
  if (Color.getAlpha (m_color w) =? Color.getAlpha newColor)%Z
  then 0%Z else AlphaBarFlag.

Definition onPaintSurfaceInBgThread (stop : nat -> bool) (s : PaintState)
    (main bottom alpha : Rect) : PaintState := s.

Definition services : Services :=
  mkServices rgb_to_hsv hsv_to_rgb getCurrentAlphaForNewColor color_for_ui
    cs_double_diff onNeedsSurfaceRepaint onPaintSurfaceInBgThread.

(** A wheel laid out by [onPaintMainArea] in a square area of the given
    (even) size, with an opaque red selected and all regions dirty. *)
Definition wheel (size : Z) (model : ColorModel) (discrete : bool)
    (harmony : Z) : ColorWheel :=
  mkColorWheel (HsvColor 0 1 1 255) discrete model harmony false
    (IZR size / 2 - 1 / 10) (mkRect 0 0 size size) AllAreasFlag 0 false.

(** A stop flag raised just before its [k]-th read. *)
Definition stopAt (k : nat) : nat -> bool := fun t => (k <=? t)%nat.

(** A stop flag that only its [k]-th read finds raised: it is lowered
    again during the pass. *)
Definition stopOnlyAt (k : nat) : nat -> bool := fun t => (t =? k)%nat.

End Sample.

(** ** The setters and the options menu (lines 417-442, 474-526) *)

Definition set_discrete (w : ColorWheel) (b : bool) : ColorWheel :=
  mkColorWheel (m_color w) b (m_colorModel w) (m_harmony w)
    (m_harmonyPicked w) (m_wheelRadius w) (m_wheelBounds w) (m_paintFlags w)
    (m_bgColor w) (hasCaptureInMainArea w).

Definition set_colorModel (w : ColorWheel) (m : ColorModel) : ColorWheel :=
  mkColorWheel (m_color w) (m_discrete w) m (m_harmony w)
    (m_harmonyPicked w) (m_wheelRadius w) (m_wheelBounds w) (m_paintFlags w)
    (m_bgColor w) (hasCaptureInMainArea w).

Definition set_harmony (w : ColorWheel) (h : Z) : ColorWheel :=
  mkColorWheel (m_color w) (m_discrete w) (m_colorModel w) h
    (m_harmonyPicked w) (m_wheelRadius w) (m_wheelBounds w) (m_paintFlags w)
    (m_bgColor w) (hasCaptureInMainArea w).

(** What the setters reach outside the widget: the three settings of
    [Preferences::instance().colorBar] and the repaint request that
    [invalidate()] leaves with the framework. *)
Record Host : Type := mkHost {
  pref_discreteWheel : bool;
  pref_wheelModel : Z;
  pref_harmony : Z;
  invalidated : bool
}.

(** [(int)m_colorModel]: the shader tests [iMode == 1] for RYB and
    [iMode == 2] for the normal map (lines 110, 115, 168). *)
Definition ColorModel_to_int (m : ColorModel) : Z :=
  match m with STANDARD => 0 | RYB => 1 | NORMAL_MAP => 2 end.

(** Lines 417-426. *)
Definition setDiscrete (w : ColorWheel) (h : Host) (state : bool)
  : ColorWheel * Host :=
  let w :=
    if negb (Bool.eqb (m_discrete w) state)
    then set_paintFlags w AllAreasFlag else w in
  let w := set_discrete w state in
  (w, mkHost (m_discrete w) (pref_wheelModel h) (pref_harmony h) true).

(** Lines 428-434. *)
Definition setColorModel (w : ColorWheel) (h : Host) (colorModel : ColorModel)
  : ColorWheel * Host :=
  let w := set_colorModel w colorModel in
  (w, mkHost (pref_discreteWheel h) (ColorModel_to_int (m_colorModel w))
        (pref_harmony h) true).

(** Lines 436-442. *)
Definition setHarmony (w : ColorWheel) (h : Host) (harmony : Z)
  : ColorWheel * Host :=
  let w := set_harmony w harmony in
  (w, mkHost (pref_discreteWheel h) (pref_wheelModel h) (m_harmony w) true).

Module Menu.
Import String.
Local Open Scope string_scope.

(** What the handler connected to an item's [Click] does (lines 501,
    514-521). *)
Inductive Action : Type :=
  | ToggleDiscrete            (* setDiscrete(!isDiscrete()) *)
  | SetHarmony (harmony : Z). (* setHarmony(Harmony::...) *)

(** A child of the popup menu: an item with its label, whether it is shown
    selected, and its click handler; or a separator. *)
Inductive Child : Type :=
  | Item (label : string) (selected : bool) (click : Action)
  | Separator.

(** Lines 476-522: the children of the menu, in the order they are added. *)
Definition onOptions (w : ColorWheel) : list Child :=
  Item "Discrete" (m_discrete w) ToggleDiscrete ::
  (if negb (ColorModel_eqb (m_colorModel w) NORMAL_MAP) then
     [ Separator
     ; Item "Without Harmonies" (m_harmony w =? Harmony.NONE)%Z
         (SetHarmony Harmony.NONE)
     ; Item "Complementary" (m_harmony w =? Harmony.COMPLEMENTARY)%Z
         (SetHarmony Harmony.COMPLEMENTARY)
     ; Item "Monochromatic" (m_harmony w =? Harmony.MONOCHROMATIC)%Z
         (SetHarmony Harmony.MONOCHROMATIC)
     ; Item "Analogous" (m_harmony w =? Harmony.ANALOGOUS)%Z
         (SetHarmony Harmony.ANALOGOUS)
     ; Item "Split-Complementary" (m_harmony w =? Harmony.SPLIT)%Z
         (SetHarmony Harmony.SPLIT)
     ; Item "Triadic" (m_harmony w =? Harmony.TRIADIC)%Z
         (SetHarmony Harmony.TRIADIC)
     ; Item "Tetradic" (m_harmony w =? Harmony.TETRADIC)%Z
         (SetHarmony Harmony.TETRADIC)
     ; Item "Square" (m_harmony w =? Harmony.SQUARE)%Z
         (SetHarmony Harmony.SQUARE) ]
   else []).

(** Running the handler of a clicked item. *)
Definition click (w : ColorWheel) (h : Host) (a : Action)
  : ColorWheel * Host :=
  match a with
  | ToggleDiscrete => setDiscrete w h (negb (m_discrete w))
  | SetHarmony harmony => setHarmony w h harmony
  end.

(** The click handlers of the items shown selected. *)
Definition selectedActions (l : list Child) : list Action :=
  flat_map (fun c => match c with
                     | Item _ true a => [a]
                     | _ => []
                     end) l.

(** The click handlers of all harmony items. *)
Definition harmonyActions (l : list Child) : list Z :=
  flat_map (fun c => match c with
                     | Item _ _ (SetHarmony k) => [k]
                     | _ => []
                     end) l.

End Menu.

(** ** The fragment shader of the main area (lines 83-139)

    The SkSL program that [getMainAreaShader] returns, as the function it
    computes; [half] and [float] are idealised as reals like [double].
    [hsv_to_rgb] comes from [kHSV_to_RGB_sksl] (app/util/shader_helpers.h),
    which is not part of the sources, and stays a parameter. *)
Module Shader.

(** [const half PI = 3.1415;] *)
Definition PI : R := 31415 / 10000.

Definition floor (x : R) : R := IZR (Zfloor x).

(** [mod(x, y)] is [x - y * floor(x / y)]. *)
Definition mod_ (x y : R) : R := x - y * floor (x / y).

(** [clamp(x, lo, hi)] is [min(max(x, lo), hi)]. *)
Definition clamp (x lo hi : R) : R := Rmin (Rmax x lo) hi.

(** The uniforms of lines 75-79, component by component. *)
Record Uniforms : Type := mkUniforms {
  iRes : R * R * R;
  iHsv : R * R * R * R;
  iBack : R * R * R * R;
  iDiscrete : Z;
  iMode : Z
}.

(** Lines 85-90. *)
Definition rybhue_to_rgbhue (h : R) : R :=
  if leR 0 h && ltR h 120 then h / 2          (* from red to yellow *)
  else if ltR h 180 then h - 60               (* from yellow to green *)
  else if ltR h 240 then 120 + 2 * (h - 180)  (* from green to blue *)
  else h.                                     (* from blue to red *)

(** Lines 98-113: the hue, as a fraction of the turn, at angle [a]. *)
Definition hue (u : Uniforms) (a : R) : R :=
  let hue := floor (180 * a / PI) + 180 + 180 + 30 in
  let hue := mod_ hue 360 in
  let hue :=
    if negb (iDiscrete u =? 0)%Z then
      let hue := hue + 15 in
      let hue := floor (hue / 30) in
      hue * 30
    else hue in
  let hue := if (iMode u =? 1)%Z then rybhue_to_rgbhue hue else hue in
  hue / 360.

(** Lines 124-131: the saturation at distance [r]. *)
Definition sat (u : Uniforms) (r : R) : R :=
  let sat := r / (1 / 2) in
  if negb (iDiscrete u =? 0)%Z then
    let sat := sat * 120 in
    let sat := floor (sat / 20) in
    let sat := sat * 20 in
    let sat := sat / 100 in
    clamp sat 0 1
  else sat.

(** Lines 92-139. *)
Definition main (hsv_to_rgb : R * R * R -> R * R * R) (u : Uniforms)
    (fragcoord : R * R) : R * R * R * R :=
  let '(iResx, iResy, _) := iRes u in
  let res := (Rmin iResx iResy, Rmin iResx iResy) in
  let d := ((fst fragcoord - iResx / 2) / fst res,
            (snd fragcoord - iResy / 2) / snd res) in
  let r := sqrt (fst d * fst d + snd d * snd d) in
  if leR r (1 / 2) then
    let a := atan2 (- snd d) (fst d) in
    let hue := hue u a in
    if (iMode u =? 2)%Z then
      let di := 1 / 2 * r / (1 / 2) in
      (clamp (1 / 2 + di * cos a) 0 1,
       clamp (1 / 2 + di * sin a) 0 1,
       clamp (1 - di) (1 / 2) 1,
       1)
    else
      let sat := sat u r in
      let '(_, _, iHsvz, iHsvw) := iHsv u in
      let '(cr, cg, cb) :=
        hsv_to_rgb (hue, sat, if ltR 0 iHsvw then iHsvz else 1) in
      (cr, cg, cb, 1)
  else
    if (iMode u =? 2)%Z then (1 / 2, 1 / 2, 1, 1)
    else iBack u.

End Shader.

(** ** [ColorWheel::getBottomBarShader] (lines 145-160)

    The SkSL program of the bottom bar, with its uniforms [iRes] and
    [iHsv]; [hsv_to_rgb] is the SkSL function of [kHSV_to_RGB_sksl]. *)
Module BottomShader.

(** The value that line 154 computes. *)
Definition value (iRes : R * R * R) (fragcoord : R * R) : R :=
  let '(iResx, _, _) := iRes in
  fst fragcoord / iResx.

(** Lines 153-156. *)
Definition main (hsv_to_rgb : R * R * R -> R * R * R)
    (iRes : R * R * R) (iHsv : R * R * R * R) (fragcoord : R * R)
  : R * R * R * R :=
  let v := value iRes fragcoord in
  let '(iHsvx, iHsvy, _, _) := iHsv in
  let '(cr, cg, cb) := hsv_to_rgb (iHsvx, iHsvy, v) in
  (cr, cg, cb, 1).

End BottomShader.

(** ** [ColorWheel::setShaderParams] (lines 162-170)

    The uniforms handed to the main-area shader.  [appColorHsv_to_SkV4],
    [gfxColor_to_SkV4] and the resolution, which the base class sets, are
    parameters. *)
Definition setShaderParams
    (appColorHsv_to_SkV4 : Color -> R * R * R * R)
    (gfxColor_to_SkV4 : Z -> R * R * R * R)
    (iRes : R * R * R) (w : ColorWheel) : Shader.Uniforms :=
  Shader.mkUniforms iRes
    (appColorHsv_to_SkV4 (m_color w))
    (gfxColor_to_SkV4 (m_bgColor w))
    (if m_discrete w then 1 else 0)
    (ColorModel_to_int (m_colorModel w)).

Section Wheel.

Variable svc : Services.

Definition getHsvHue (c : Color) : R :=
  match c with
  | MaskColor => 0
  | RgbColor r g b _ => fst (fst (rgb_to_hsv svc r g b))
  | HsvColor h _ _ _ => h
  end.

Definition getHsvSaturation (c : Color) : R :=
  match c with
  | MaskColor => 0
  | RgbColor r g b _ => snd (fst (rgb_to_hsv svc r g b))
  | HsvColor _ s _ _ => s
  end.

Definition getHsvValue (c : Color) : R :=
  match c with
  | MaskColor => 0
  | RgbColor r g b _ => snd (rgb_to_hsv svc r g b)
  | HsvColor _ _ v _ => v
  end.

Definition getRed (c : Color) : Z :=
  match c with
  | MaskColor => 0
  | RgbColor r _ _ _ => r
  | HsvColor h s v _ => fst (fst (hsv_to_rgb svc h s v))
  end.

Definition getGreen (c : Color) : Z :=
  match c with
  | MaskColor => 0
  | RgbColor _ g _ _ => g
  | HsvColor h s v _ => snd (fst (hsv_to_rgb svc h s v))
  end.

Definition getBlue (c : Color) : Z :=
  match c with
  | MaskColor => 0
  | RgbColor _ _ b _ => b
  | HsvColor h s v _ => snd (hsv_to_rgb svc h s v)
  end.

(** ** [ColorWheel::getHarmonies] (lines 444-448) *)

Definition getHarmonies (w : ColorWheel) : option Z :=
  let i := clampZ (m_harmony w) 0 Harmony.LAST in
  e <- array_get harmonies i ;
  Some (n e).

(** ** [ColorWheel::getColorInHarmony] (lines 450-459) *)

Definition getColorInHarmony (w : ColorWheel) (j : Z) : option Color :=
  let i := clampZ (m_harmony w) 0 Harmony.LAST in
  e <- array_get harmonies i ;
  let j := clampZ j 0 (n e - 1) in
  hj <- array_get (hues e) j ;
  sj <- array_get (sats e) j ;
  let hue :=
    convertHueAngle (m_colorModel w) (getHsvHue (m_color w)) (-1) + IZR hj in
  let sat := getHsvSaturation (m_color w) * IZR sj / 100 in
  Some (Color.fromHsv (fmod hue 360)
                      (clampR sat 0 1)
                      (getHsvValue (m_color w))
                      255).

(** ** [ColorWheel::getMainAreaColor] (lines 174-275) *)

(** The rectangle of harmony swatch [i] among [n], in an area of size
    [umax] x [vmax] (lines 191-193). *)
Definition swatchRect (umax vmax n boxsize i : Z) : Rect :=
  mkRect (umax - (n - i) * boxsize) (vmax - boxsize) boxsize boxsize.

(** The loop of lines 188-202, from index [i], with [cnt] indices left;
    [Some c] is the colour returned from inside the loop. *)
Fixpoint pickHarmony (w : ColorWheel) (pos : Z * Z) (umax vmax n boxsize : Z)
    (cnt : nat) (i : Z) : option (option Color) :=
  match cnt with
  | O => Some None
  | S cnt' =>
      color <- getColorInHarmony w i ;
      if Rect_contains (swatchRect umax vmax n boxsize i) pos then
        Some (Some (Color.fromHsv
                      (convertHueAngle (m_colorModel w) (getHsvHue color) 1)
                      (getHsvSaturation color)
                      (getHsvValue color)
                      (Color.getAlpha (m_color w))))
      else pickHarmony w pos umax vmax n boxsize cnt' (i + 1)
  end.

(** Lines 212-239: the normal-map branch, for the offset [(u, v)] at
    distance [d].  Line 214 divides doubles by the radius: for a radius of
    0 the source converts an infinity or a NaN to [int], which has no
    counterpart here, so the properties of this branch are stated for a
    positive radius (the painter sets one of 0.9 or more, line 292). *)
Definition normalMapColor (w : ColorWheel) (u v : Z) (d : R) : Color :=
  let a := atan2 (IZR (- v)) (IZR u) in
  let di := trunc (128 * d / m_wheelRadius w) in
  let '(a, di) :=
    if m_discrete w then
      let ai := (trunc (180 * a / PI) + 360)%Z in
      let ai := (ai + 15)%Z in
      let ai := (ai ÷ 30)%Z in
      let ai := (ai * 30)%Z in
      (PI * IZR ai / 180, ((di ÷ 32) * 32)%Z)
    else (a, di) in
  let r := trunc (128 + IZR di * cos a) in
  let g := trunc (128 + IZR di * sin a) in
  let b := (255 - di)%Z in
  if leR d (m_wheelRadius w) then
    Color.fromRgb (clampZ r 0 255) (clampZ g 0 255) (clampZ b 128 255)
  else
    Color.fromRgb 128 128 255.

(** Lines 245-254: the hue on the wheel at the offset [(u, v)], before the
    hue warp of the colour model. *)
Definition wheelAngleHue (w : ColorWheel) (u v : Z) : Z :=
  let a := atan2 (IZR (- v)) (IZR u) in
  let hue := (trunc (180 * a / PI) + 180 + 180 + 30)%Z in
  let hue :=
    if m_discrete w then
      let hue := (hue + 15)%Z in
      let hue := (hue ÷ 30)%Z in
      (hue * 30)%Z
    else hue in
  Z.rem hue 360.

(** Line 255: [hue = convertHueAngle(hue, 1)], stored back in an [int]. *)
Definition wheelHue (w : ColorWheel) (u v : Z) : Z :=
  trunc (convertHueAngle (m_colorModel w) (IZR (wheelAngleHue w u v)) 1).

(** Lines 257-265: the saturation, in percent, picked at distance [d]. *)
Definition wheelSat (w : ColorWheel) (d : R) : Z :=
  if m_discrete w then
    let sat := trunc (120 * d / m_wheelRadius w) in
    let sat := (sat ÷ 20)%Z in
    (sat * 20)%Z
  else
    trunc (100 * d / m_wheelRadius w).

(** Lines 205-210: the distance of the offset [(u, v)] from the centre,
    limited to the radius while the pointer is captured. *)
Definition wheelDistance (w : ColorWheel) (u v : Z) : R :=
  let d := sqrt (IZR (u * u + v * v)) in
  if hasCaptureInMainArea w && ltR (m_wheelRadius w) d
  then m_wheelRadius w else d.

(** Lines 205-274: the colour of the offset [(u, v)] when no harmony swatch
    was picked. *)
Definition wheelColor (w : ColorWheel) (u v : Z) : Color :=
  let d := wheelDistance w u v in
  if ColorModel_eqb (m_colorModel w) NORMAL_MAP then
    normalMapColor w u v d
  else if leR d (m_wheelRadius w) then
    let hue := wheelHue w u v in
    let sat := wheelSat w d in
    Color.fromHsv
      (IZR (clampZ hue 0 360))
      (clampR (IZR sat / 100) 0 1)
      (if negb (Color.isMask (m_color w)) then getHsvValue (m_color w) else 1)
      (getCurrentAlphaForNewColor svc (m_color w))
  else
    Color.fromMask.

Definition getMainAreaColor (w : ColorWheel) (_u umax _v vmax : Z)
  : option (Color * ColorWheel) :=
  let w := set_harmonyPicked w false in
  let u := (_u - umax ÷ 2)%Z in
  let v := (_v - vmax ÷ 2)%Z in
  picked <-
    (if (0 <? Color.getAlpha (m_color w))%Z then
       let pos := (_u, _v) in
       n <- getHarmonies w ;
       let boxsize := Z.min (umax ÷ 10) (vmax ÷ 10) in
       pickHarmony w pos umax vmax n boxsize (Z.to_nat n) 0
     else Some None) ;
  match picked with
  | Some color => Some (color, set_harmonyPicked w true)
  | None => Some (wheelColor w u v, w)
  end.

(** ** [ColorWheel::getBottomBarColor] (lines 277-285)

    The quotient of line 279 is a quotient of doubles: for [umax = 0] the
    source computes an infinity or a NaN, which the reals do not have, so
    the properties of this function are stated for [umax <> 0]. *)

Definition getBottomBarColor (w : ColorWheel) (u umax : Z) : Color :=
  let val := IZR u / IZR umax in
  Color.fromHsv (getHsvHue (m_color w))
                (getHsvSaturation (m_color w))
                (clampR val 0 1)
                (getCurrentAlphaForNewColor svc (m_color w)).

(** ** [ColorWheel::onPaintMainArea] (lines 287-341) *)

(** Lines 316-326: where the indicator of a harmony colour goes, as an
    offset from the centre of the wheel. *)
Definition indicatorOffset (w : ColorWheel) (color : Color) : Z * Z :=
  let angle := getHsvHue color - 30 in
  let dist := getHsvSaturation color in
  (trunc (cos (PI * angle / 180) * m_wheelRadius w * dist),
   trunc (- sin (PI * angle / 180) * m_wheelRadius w * dist)).

Definition addPoint (p q : Z * Z) : Z * Z :=
  ((fst p + fst q)%Z, (snd p + snd q)%Z).

(** The loop of lines 314-336, from index [i], with [cnt] indices left. *)
Fixpoint paintHarmonies (w : ColorWheel) (rc : Rect) (n boxsize : Z)
    (cnt : nat) (i : Z) : option (list OverlayOp) :=
  match cnt with
  | O => Some []
  | S cnt' =>
      color0 <- getColorInHarmony w i ;
      let color :=
        Color.fromHsv
          (convertHueAngle (m_colorModel w) (getHsvHue color0) 1)
          (getHsvSaturation color0)
          (getHsvValue color0)
          255 in
      let pos :=
        addPoint (Rect_center (m_wheelBounds w)) (indicatorOffset w color0) in
      rest <- paintHarmonies w rc n boxsize cnt' (i + 1) ;
      Some (ColorIndicator pos (ltR (getHsvValue color) (1 / 2))
            :: FillRect (Color.setAlpha color 255)
                 (mkRect (rx rc + rw rc - (n - i) * boxsize)
                         (ry rc + rh rc - boxsize) boxsize boxsize)
            :: rest)
  end.

Definition onPaintMainArea (w : ColorWheel) (rc : Rect)
  : option (list OverlayOp * ColorWheel) :=
  let oldHarmonyPicked := m_harmonyPicked w in
  let r := Rmax 1 (IZR (Z.min (rw rc) (rh rc)) / 2) in
  let w :=
    set_geometry w (r - 1 / 10)
      (mkRect (trunc (IZR (rx rc + rw rc ÷ 2) - r))
              (trunc (IZR (ry rc + rh rc ÷ 2) - r))
              (trunc (r * 2)) (trunc (r * 2))) in
  ops <-
    (if (0 <? Color.getAlpha (m_color w))%Z then
       if ColorModel_eqb (m_colorModel w) NORMAL_MAP then
         let angle :=
           atan2 (IZR (getGreen (m_color w) - 128))
                 (IZR (getRed (m_color w) - 128)) in
         let dist := IZR (255 - getBlue (m_color w)) / 128 in
         let dist := clampR dist 0 1 in
         let pos :=
           addPoint (Rect_center (m_wheelBounds w))
             (trunc (cos angle * m_wheelRadius w * dist),
              trunc (- sin angle * m_wheelRadius w * dist)) in
         Some [ColorIndicator pos true]
       else
         n <- getHarmonies w ;
         let boxsize := Z.min (rw rc ÷ 10) (rh rc ÷ 10) in
         paintHarmonies w rc n boxsize (Z.to_nat n) 0
     else Some []) ;
  Some (ops, set_harmonyPicked w oldHarmonyPicked).

(** Where the painter places the indicator of the colour [c] once it is
    the selection: the indicator of harmony 0 (lines 315-326), as an
    offset from the centre of the wheel. *)
Definition placeSelection (w : ColorWheel) (c : Color) : option (Z * Z) :=
  let w := set_color w c in
  color <- getColorInHarmony w 0 ;
  Some (indicatorOffset w color).

(** Picking the position [(_u, _v)] with [getMainAreaColor] (harmony
    swatches included) and placing the indicator of the picked colour. *)
Definition pickThenPlace (w : ColorWheel) (_u umax _v vmax : Z)
  : option (Z * Z) :=
  picked <- getMainAreaColor w _u umax _v vmax ;
  let '(c, w') := picked in
  placeSelection w' c.

(** ** [ColorWheel::onNeedsSurfaceRepaint] (lines 406-415) *)

Definition onNeedsSurfaceRepaint (w : ColorWheel) (newColor : Color) : Z :=
  Z.lor
    (Z.lor
       (if negb (ColorModel_eqb (m_colorModel w) NORMAL_MAP) &&
           cs_double_diff svc (getHsvValue (m_color w)) (getHsvValue newColor)
        then MainAreaFlag else 0%Z)
       (if cs_double_diff svc (getHsvHue (m_color w)) (getHsvHue newColor) ||
           cs_double_diff svc (getHsvSaturation (m_color w))
                              (getHsvSaturation newColor)
        then BottomBarFlag else 0%Z))
    (ColorSelector_onNeedsSurfaceRepaint svc w newColor).

(** ** [ColorWheel::onPaintSurfaceInBgThread] (lines 353-404)

    [stop] is shared with the thread that cancels the pass: [stop k] is
    what the [k]-th read of the flag finds. *)

Variable stop : nat -> bool.

Definition readStop (s : PaintState) : bool * PaintState :=
  (stop (clock s), mkPaintState (widget s) (surface s) (S (clock s))).

Definition draw (s : PaintState) (w : ColorWheel) (op : SurfaceOp)
  : PaintState :=
  mkPaintState w (op :: surface s) (clock s).

(** The inner loop of lines 364-379 on row [y], from column [x], with [cnt]
    columns left. *)
Fixpoint paintMainRow (main : Rect) (umax vmax y : Z) (cnt : nat) (x : Z)
    (s : PaintState) : option PaintState :=
  match cnt with
  | O => Some s
  | S cnt' =>
      let '(stopped, s) := readStop s in
      if stopped then Some s
      else
        picked <- getMainAreaColor (widget s) x umax y vmax ;
        let '(appColor, w) := picked in
        let color :=
          if negb (Color.isMask appColor)
          then color_for_ui svc (Color.setAlpha appColor 255)
          else m_bgColor w in
        paintMainRow main umax vmax y cnt' (x + 1)
          (draw s w (PutPixel color (rx main + x) (ry main + y)))
  end.

(** The outer loop of lines 363-380, from row [y], with [cnt] rows left. *)
Fixpoint paintMainRows (main : Rect) (umax vmax : Z) (cnt : nat) (y : Z)
    (s : PaintState) : option PaintState :=
  match cnt with
  | O => Some s
  | S cnt' =>
      let '(stopped, s) := readStop s in
      if stopped then Some s
      else
        s <- paintMainRow main umax vmax y (Z.to_nat (rw main)) 0 s ;
        paintMainRows main umax vmax cnt' (y + 1) s
  end.

(** The loop of lines 390-396, from column [x], with [cnt] columns left. *)
Fixpoint paintBottomColumns (bottom : Rect) (hue sat : R) (cnt : nat) (x : Z)
    (s : PaintState) : PaintState :=
  match cnt with
  | O => s
  | S cnt' =>
      let '(stopped, s) := readStop s in
      if stopped then s
      else
        let color :=
          color_for_ui svc
            (Color.fromHsv hue sat (IZR x / IZR (rw bottom)) 255) in
        paintBottomColumns bottom hue sat cnt' (x + 1)
          (draw s (widget s)
             (DrawRect (mkRect (rx bottom + x) (ry bottom) 1 (rh bottom))
                       color))
  end.

Definition hasFlag (flags flag : Z) : bool :=
  negb (Z.land flags flag =? 0)%Z.

Definition toggleFlag (s : PaintState) (flag : Z) : PaintState :=
  mkPaintState
    (set_paintFlags (widget s) (Z.lxor (m_paintFlags (widget s)) flag))
    (surface s) (clock s).

(** Lines 360-380: the two loops over the main area. *)
Definition mainPass (main : Rect) (s : PaintState) : option PaintState :=
  let umax := Z.max 1 (rw main - 1) in
  let vmax := Z.max 1 (rh main - 1) in
  paintMainRows main umax vmax (Z.to_nat (rh main)) 0 s.

(** Lines 387-396: the loop over the bottom bar. *)
Definition bottomPass (bottom : Rect) (s : PaintState) : PaintState :=
  let hue := getHsvHue (m_color (widget s)) in
  let sat := getHsvSaturation (m_color (widget s)) in
  paintBottomColumns bottom hue sat (Z.to_nat (rw bottom)) 0 s.

(** A block of the function either falls through to the next one or
    returns from the function. *)
Inductive Flow : Type :=
  | Next (s : PaintState)
  | Return (s : PaintState).

(** Lines 359-384. *)
Definition paintMainBlock (main : Rect) (s : PaintState) : option Flow :=
  if hasFlag (m_paintFlags (widget s)) MainAreaFlag then
    s <- mainPass main s ;
    let '(stopped, s) := readStop s in
    if stopped then Some (Return s)
    else Some (Next (toggleFlag s MainAreaFlag))
  else Some (Next s).

(** Lines 386-400. *)
Definition paintBottomBlock (bottom : Rect) (s : PaintState) : Flow :=
  if hasFlag (m_paintFlags (widget s)) BottomBarFlag then
    let s := bottomPass bottom s in
    let '(stopped, s) := readStop s in
    if stopped then Return s
    else Next (toggleFlag s BottomBarFlag)
  else Next s.

Definition onPaintSurfaceInBgThread (s : PaintState)
    (main bottom alpha : Rect) : option PaintState :=
  f <- paintMainBlock main s ;
  match f with
  | Return s => Some s
  | Next s =>
      match paintBottomBlock bottom s with
      | Return s => Some s
      | Next s =>
          Some (ColorSelector_onPaintSurfaceInBgThread svc stop
                  s main bottom alpha)
      end
  end.

(** The image of the step [30 * k] of the discrete wheel under the forward
    hue warp, in whole degrees. *)
Definition warpedStep (model : ColorModel) (k : Z) : Z :=
  match model with
  | RYB =>
      if (k <? 4)%Z then 15 * k
      else if (k <? 6)%Z then 30 * k - 60
      else if (k <? 8)%Z then 120 + 2 * (30 * k - 180)
      else 30 * k
  | _ => 30 * k
  end%Z.

(** The shared flag is only ever raised during a pass: once a read finds
    it set, later reads find it set. *)
Definition stop_monotone : Prop :=
  forall i j : nat, (i <= j)%nat -> stop i = true -> stop j = true.

(** The state after one more read of the flag. *)
Definition tick (s : PaintState) : PaintState := snd (readStop s).

(** What the code relies on for each entry of the harmony table. *)
Definition entry_ok (e : HarmonyEntry) : Prop :=
  (1 <= n e <= 4)%Z /\ length (hues e) = 4%nat /\ length (sats e) = 4%nat.

(** ** [ColorWheel::onPaintBottomBar] (lines 343-351) *)

Definition onPaintBottomBar (w : ColorWheel) (rc : Rect) : list OverlayOp :=
  if negb (Color.isMask (m_color w)) then
    let val := getHsvValue (m_color w) in
    let pos := ((rx rc + trunc (IZR (rw rc) * val))%Z,
                (ry rc + rh rc ÷ 2)%Z) in
    [ColorIndicator pos (ltR val (1 / 2))]
  else [].

(** ** What the properties below speak about *)

(** Lines 369-376: the surface colour of a picked colour. *)
Definition uiColor (w : ColorWheel) (appColor : Color) : Z :=
  if negb (Color.isMask appColor)
  then color_for_ui svc (Color.setAlpha appColor 255)
  else m_bgColor w.

(** The write that the main pass makes for the pixel [xy] of the area. *)
Definition paintedPixel (w : ColorWheel) (main : Rect) (op : SurfaceOp)
    (xy : Z * Z) : Prop :=
  exists appColor w',
    getMainAreaColor w (fst xy) (Z.max 1 (rw main - 1))
                       (snd xy) (Z.max 1 (rh main - 1))
      = Some (appColor, w') /\
    op = PutPixel (uiColor w appColor) (rx main + fst xy) (ry main + snd xy).

(** The columns [x, x+1, ..] ([k] of them) of row [y], and the pixels of
    [k] rows of width [width] from row [y] on, row by row. *)
Definition rowCoords (x : Z) (k : nat) (y : Z) : list (Z * Z) :=
  map (fun i => ((x + Z.of_nat i)%Z, y)) (seq 0 k).

Fixpoint areaCoords (width : nat) (k : nat) (y : Z) : list (Z * Z) :=
  match k with
  | O => []
  | S k' => rowCoords 0 width y ++ areaCoords width k' (y + 1)
  end.

(** The write that the bottom pass makes for column [x] (lines 391-395). *)
Definition bottomColumn (w : ColorWheel) (bottom : Rect) (x : Z)
  : SurfaceOp :=
  DrawRect (mkRect (rx bottom + x) (ry bottom) 1 (rh bottom))
    (color_for_ui svc
       (Color.fromHsv (getHsvHue (m_color w)) (getHsvSaturation (m_color w))
          (IZR x / IZR (rw bottom)) 255)).

(** A write that stays inside the rectangle [rc]. *)
Definition writes_inside (rc : Rect) (op : SurfaceOp) : Prop :=
  match op with
  | PutPixel _ x y =>
      (rx rc <= x < rx rc + rw rc)%Z /\ (ry rc <= y < ry rc + rh rc)%Z
  | DrawRect r _ =>
      (rx rc <= rx r)%Z /\ (rx r + rw r <= rx rc + rw rc)%Z /\
      (ry rc <= ry r)%Z /\ (ry r + rh r <= ry rc + rh rc)%Z
  end.

(** An indicator whose distance from [center] is at most [radius]. *)
Definition indicator_within (center : Z * Z) (radius : R) (op : OverlayOp)
  : Prop :=
  match op with
  | ColorIndicator pos _ =>
      IZR (fst pos - fst center) * IZR (fst pos - fst center)
      + IZR (snd pos - snd center) * IZR (snd pos - snd center)
      <= radius * radius
  | FillRect _ _ => True
  end.

(** A colour whose HSV channels are in range. *)
Definition valid_hsv (c : Color) : Prop :=
  0 <= getHsvHue c < 360 /\ 0 <= getHsvSaturation c <= 1.

(** * Properties *)

(** ** Facts about the numeric helpers *)

Lemma ltR_true (a b : R) : ltR a b = true <-> a < b.
Proof. unfold ltR; destruct (Rlt_dec a b); split; intros; auto; discriminate. Qed.

Lemma ltR_false (a b : R) : ltR a b = false <-> b <= a.
Proof.
  unfold ltR; destruct (Rlt_dec a b); split; intros; auto; try discriminate; lra.
Qed.

Lemma leR_true (a b : R) : leR a b = true <-> a <= b.
Proof. unfold leR; destruct (Rle_dec a b); split; intros; auto; discriminate. Qed.

Lemma leR_false (a b : R) : leR a b = false <-> b < a.
Proof.
  unfold leR; destruct (Rle_dec a b); split; intros; auto; try discriminate; lra.
Qed.

Lemma clampZ_bounds (v lo hi : Z) : (lo <= hi -> lo <= clampZ v lo hi <= hi)%Z.
Proof.
  intros H; unfold clampZ.
  destruct (Z.ltb_spec v lo); [lia|].
  destruct (Z.ltb_spec hi v); lia.
Qed.

Lemma clampZ_id (v lo hi : Z) : (lo <= v <= hi -> clampZ v lo hi = v)%Z.
Proof.
  intros H; unfold clampZ.
  destruct (Z.ltb_spec v lo); [lia|].
  destruct (Z.ltb_spec hi v); lia.
Qed.

Lemma clampR_bounds (v lo hi : R) : lo <= hi -> lo <= clampR v lo hi <= hi.
Proof.
  intros H; unfold clampR.
  destruct (Rlt_dec v lo); [lra|].
  destruct (Rlt_dec hi v); lra.
Qed.

Lemma clampR_id (v lo hi : R) : lo <= v <= hi -> clampR v lo hi = v.
Proof.
  intros H; unfold clampR.
  destruct (Rlt_dec v lo); [lra|].
  destruct (Rlt_dec hi v); lra.
Qed.

(** [trunc] of a non-negative value is its floor. *)
Lemma trunc_nonneg (x : R) (z : Z) :
  IZR z <= x < IZR z + 1 -> 0 <= x -> trunc x = z.
Proof.
  intros H H0; unfold trunc.
  destruct (Rle_dec 0 x); [|lra].
  now apply Zfloor_eq.
Qed.

Lemma trunc_IZR (z : Z) : trunc (IZR z) = z.
Proof.
  unfold trunc; destruct (Rle_dec 0 (IZR z)).
  - apply ZfloorZ.
  - apply Zceil_eq; lra.
Qed.

(** [trunc x] lies between [0] and [x]: it never moves away from zero, and
    it is less than one away from [x]. *)
Lemma trunc_bound_nonneg (x : R) :
  0 <= x -> 0 <= IZR (trunc x) <= x /\ x < IZR (trunc x) + 1.
Proof.
  intros H; unfold trunc; destruct (Rle_dec 0 x); [|lra].
  pose proof (Zfloor_bound x) as B.
  assert (0 <= Zfloor x)%Z by (apply Zfloor_lub; simpl; lra).
  apply IZR_le in H0; lra.
Qed.

Lemma trunc_bound_neg (x : R) :
  x < 0 -> x <= IZR (trunc x) <= 0 /\ IZR (trunc x) - 1 < x.
Proof.
  intros H; unfold trunc; destruct (Rle_dec 0 x); [lra|].
  pose proof (Zceil_bound x) as B.
  assert (Zceil x <= 0)%Z.
  { destruct (Z.le_gt_cases (Zceil x) 0) as [L|G]; [exact L|].
    assert (1 <= Zceil x)%Z by lia.
    apply IZR_le in H0; lra. }
  apply IZR_le in H0; lra.
Qed.

Lemma trunc_abs_error (x : R) : Rabs (IZR (trunc x) - x) < 1.
Proof.
  destruct (Rle_dec 0 x) as [P|N].
  - destruct (trunc_bound_nonneg x P) as [[_ B1] B2].
    apply Rabs_def1; lra.
  - destruct (trunc_bound_neg x ltac:(lra)) as [[B1 _] B2].
    apply Rabs_def1; lra.
Qed.

(** Monotonicity of [trunc] between integer bounds. *)
Lemma trunc_between (x : R) (lo hi : Z) :
  IZR lo <= x <= IZR hi -> (lo <= trunc x <= hi)%Z.
Proof.
  intros [L H].
  destruct (Rle_dec 0 x) as [P|N].
  - destruct (trunc_bound_nonneg x P) as [[B0 B1] B2].
    split; apply le_IZR.
    + destruct (Rle_dec 0 (IZR lo)).
      * assert (IZR lo < IZR (trunc x) + 1) by lra.
        rewrite <- plus_IZR in H0. apply lt_IZR in H0.
        apply IZR_le. lia.
      * lra.
    + lra.
  - destruct (trunc_bound_neg x ltac:(lra)) as [[B0 B1] B2].
    split; apply le_IZR.
    + lra.
    + destruct (Rle_dec (IZR hi) 0).
      * assert (IZR (trunc x) - 1 < IZR hi) by lra.
        rewrite <- minus_IZR in H0. apply lt_IZR in H0.
        apply IZR_le. lia.
      * lra.
Qed.

(** The angle [atan2] returns lies in [-PI, PI]. *)
Lemma atan2_bound (y x : R) : - PI <= atan2 y x <= PI.
Proof.
  pose proof PI_RGT_0 as HPI.
  unfold atan2.
  destruct (Rlt_dec 0 x) as [Hx|Hx].
  - pose proof (atan_bound (y / x)); lra.
  - destruct (Rlt_dec x 0) as [Hx'|Hx'].
    + destruct (Rle_dec 0 y) as [Hy|Hy].
      * assert (y / x <= 0).
        { pose proof (Rinv_lt_0_compat x Hx') as Hi.
          unfold Rdiv. nra. }
        pose proof (atan_bound (y / x)).
        assert (atan (y / x) <= 0).
        { destruct H as [H|H].
          - left. rewrite <- atan_0. now apply atan_increasing.
          - rewrite H, atan_0; lra. }
        lra.
      * assert (0 < y / x).
        { pose proof (Rinv_lt_0_compat x Hx') as Hi.
          unfold Rdiv. nra. }
        pose proof (atan_bound (y / x)).
        assert (0 < atan (y / x)).
        { rewrite <- atan_0. now apply atan_increasing. }
        lra.
    + destruct (Rlt_dec 0 y); [lra|].
      destruct (Rlt_dec y 0); lra.
Qed.

(** In whole degrees the angle is between -180 and 180. *)
Lemma degrees_bound (y x : R) :
  (-180 <= trunc (180 * atan2 y x / PI) <= 180)%Z.
Proof.
  pose proof PI_RGT_0 as HPI.
  pose proof (atan2_bound y x) as [L H].
  apply trunc_between.
  split.
  - apply Rmult_le_reg_r with PI; [lra|].
    unfold Rdiv. rewrite Rmult_assoc, Rinv_l by lra. lra.
  - apply Rmult_le_reg_r with PI; [lra|].
    unfold Rdiv. rewrite Rmult_assoc, Rinv_l by lra. lra.
Qed.

(** ** The hue warp *)

Ltac hue_cases :=
  unfold convertHueAngle, leR, ltR; simpl;
  repeat match goal with
         | |- context [Rle_dec ?a ?b] => destruct (Rle_dec a b); simpl
         | |- context [Rlt_dec ?a ?b] => destruct (Rlt_dec a b); simpl
         end;
  try lra.

(** Outside RYB the warp does nothing, whatever the direction. *)
Lemma convertHueAngle_identity (model : ColorModel) (h : R) (dir : Z) :
  model <> RYB -> convertHueAngle model h dir = h.
Proof.
  intros H; destruct model; try reflexivity. now destruct H.
Qed.

(** The forward direction (RYB hue to RGB hue), piece by piece. *)
Lemma convertHueAngle_forward (h : R) :
  0 <= h < 360 ->
  (h < 120 -> convertHueAngle RYB h 1 = h / 2) /\
  (120 <= h < 180 -> convertHueAngle RYB h 1 = h - 60) /\
  (180 <= h < 240 -> convertHueAngle RYB h 1 = 120 + 2 * (h - 180)) /\
  (240 <= h -> convertHueAngle RYB h 1 = h).
Proof.
  intros H; repeat split; intros; hue_cases.
Qed.

(** The backward direction (RGB hue to RYB hue), piece by piece. *)
Lemma convertHueAngle_backward (h : R) :
  0 <= h < 360 ->
  (h < 60 -> convertHueAngle RYB h (-1) = 2 * h) /\
  (60 <= h < 120 -> convertHueAngle RYB h (-1) = 60 + h) /\
  (120 <= h < 240 -> convertHueAngle RYB h (-1) = 180 + (h - 120) / 2) /\
  (240 <= h -> convertHueAngle RYB h (-1) = h).
Proof.
  intros H; repeat split; intros; hue_cases.
Qed.

(** Both directions keep a hue of [0,360) in [0,360). *)
Lemma convertHueAngle_range (model : ColorModel) (h : R) (dir : Z) :
  0 <= h < 360 -> 0 <= convertHueAngle model h dir < 360.
Proof.
  intros H. destruct model; [exact H| |exact H].
  unfold convertHueAngle; simpl.
  destruct (dir =? 1)%Z; unfold leR, ltR;
    repeat match goal with
           | |- context [Rle_dec ?a ?b] => destruct (Rle_dec a b); simpl
           | |- context [Rlt_dec ?a ?b] => destruct (Rlt_dec a b); simpl
           end; lra.
Qed.

(** C2: the two directions of [convertHueAngle] are inverse to each other on
    [0,360) under every colour model; under RYB the forward direction is the
    piecewise-linear map h/2, h-60, 120+2(h-180), h on the four segments,
    and under STANDARD and NORMAL_MAP both directions are the identity. *)
Theorem convertHueAngle_inverse (model : ColorModel) (h : R) :
  0 <= h < 360 ->
  convertHueAngle model (convertHueAngle model h (-1)) 1 = h /\
  convertHueAngle model (convertHueAngle model h 1) (-1) = h /\
  (model = RYB ->
     (h < 120 -> convertHueAngle model h 1 = h / 2) /\
     (120 <= h < 180 -> convertHueAngle model h 1 = h - 60) /\
     (180 <= h < 240 -> convertHueAngle model h 1 = 120 + 2 * (h - 180)) /\
     (240 <= h -> convertHueAngle model h 1 = h)) /\
  (model <> RYB ->
     convertHueAngle model h 1 = h /\ convertHueAngle model h (-1) = h).
Proof.
  intros H.
  split; [|split; [|split]].
  - destruct model; try reflexivity.
    destruct (convertHueAngle_backward h H) as (B1 & B2 & B3 & B4).
    destruct (Rlt_dec h 60) as [C1|C1].
    { rewrite (B1 C1).
      destruct (convertHueAngle_forward (2 * h)) as (F1 & _); [lra|].
      rewrite F1; lra. }
    destruct (Rlt_dec h 120) as [C2|C2].
    { rewrite B2 by lra.
      destruct (convertHueAngle_forward (60 + h)) as (_ & F2 & _); [lra|].
      rewrite F2; lra. }
    destruct (Rlt_dec h 240) as [C3|C3].
    { rewrite B3 by lra.
      destruct (convertHueAngle_forward (180 + (h - 120) / 2))
        as (_ & _ & F3 & _); [lra|].
      rewrite F3; lra. }
    rewrite B4 by lra.
    destruct (convertHueAngle_forward h H) as (_ & _ & _ & F4).
    apply F4; lra.
  - destruct model; try reflexivity.
    destruct (convertHueAngle_forward h H) as (F1 & F2 & F3 & F4).
    destruct (Rlt_dec h 120) as [C1|C1].
    { rewrite (F1 C1).
      destruct (convertHueAngle_backward (h / 2)) as (B1 & _); [lra|].
      rewrite B1; lra. }
    destruct (Rlt_dec h 180) as [C2|C2].
    { rewrite F2 by lra.
      destruct (convertHueAngle_backward (h - 60)) as (_ & B2 & _); [lra|].
      rewrite B2; lra. }
    destruct (Rlt_dec h 240) as [C3|C3].
    { rewrite F3 by lra.
      destruct (convertHueAngle_backward (120 + 2 * (h - 180)))
        as (_ & _ & B3 & _); [lra|].
      rewrite B3; lra. }
    rewrite F4 by lra.
    destruct (convertHueAngle_backward h H) as (_ & _ & _ & B4).
    apply B4; lra.
  - intros ->. exact (convertHueAngle_forward h H).
  - intros Hm; split; now apply convertHueAngle_identity.
Qed.

(** ** The harmony table *)

Lemma harmonies_ok : Forall entry_ok harmonies.
Proof.
  unfold harmonies.
  repeat (constructor; [unfold entry_ok; simpl; repeat split; lia|]).
  constructor.
Qed.

Lemma array_get_in_range {A : Type} (l : list A) (i : Z) :
  (0 <= i < Z.of_nat (length l))%Z -> exists x, array_get l i = Some x.
Proof.
  intros H; unfold array_get.
  destruct (Z.ltb_spec i 0); [lia|].
  destruct (nth_error l (Z.to_nat i)) eqn:E; [eauto|].
  apply nth_error_None in E. lia.
Qed.

Lemma array_get_some_range {A : Type} (l : list A) (i : Z) (x : A) :
  array_get l i = Some x -> (0 <= i < Z.of_nat (length l))%Z /\ In x l.
Proof.
  unfold array_get; intros H.
  destruct (Z.ltb_spec i 0); [discriminate|].
  split.
  - assert (Z.to_nat i < length l)%nat
      by (apply nth_error_Some; congruence).
    lia.
  - eapply nth_error_In; eauto.
Qed.

(** The pattern index used by [getHarmonies] and [getColorInHarmony] always
    designates an entry of the table. *)
Lemma harmony_entry (h : Z) :
  exists e, array_get harmonies (clampZ h 0 Harmony.LAST) = Some e /\
            entry_ok e.
Proof.
  destruct (array_get_in_range harmonies (clampZ h 0 Harmony.LAST)) as [e He].
  { pose proof (clampZ_bounds h 0 Harmony.LAST).
    unfold Harmony.LAST, Harmony.SQUARE in *; simpl; lia. }
  exists e; split; [exact He|].
  apply array_get_some_range in He as [_ Hin].
  exact (proj1 (Forall_forall _ _) harmonies_ok e Hin).
Qed.

Lemma getHarmonies_entry (w : ColorWheel) (e : HarmonyEntry) :
  array_get harmonies (clampZ (m_harmony w) 0 Harmony.LAST) = Some e ->
  getHarmonies w = Some (n e).
Proof. intros H; unfold getHarmonies; now rewrite H. Qed.

Lemma getHarmonies_total (w : ColorWheel) :
  exists k, getHarmonies w = Some k /\ (1 <= k <= 4)%Z.
Proof.
  destruct (harmony_entry (m_harmony w)) as (e & He & Hn & _).
  exists (n e); split; [now apply getHarmonies_entry|exact Hn].
Qed.

(** The reads that [getColorInHarmony] makes for the sub-index [j]. *)
Lemma harmony_sub_entry (e : HarmonyEntry) (j : Z) :
  entry_ok e ->
  let j' := clampZ j 0 (n e - 1) in
  (0 <= j' <= n e - 1)%Z /\
  exists hj sj,
    array_get (hues e) j' = Some hj /\ array_get (sats e) j' = Some sj.
Proof.
  intros (Hn & Hh & Hs) j'.
  assert (B : (0 <= j' <= n e - 1)%Z)
    by (apply clampZ_bounds; lia).
  split; [exact B|].
  destruct (array_get_in_range (hues e) j') as [hj Hhj]; [rewrite Hh; lia|].
  destruct (array_get_in_range (sats e) j') as [sj Hsj]; [rewrite Hs; lia|].
  eauto.
Qed.

Lemma getColorInHarmony_eq (w : ColorWheel) (j : Z) (e : HarmonyEntry)
    (hj sj : Z) :
  array_get harmonies (clampZ (m_harmony w) 0 Harmony.LAST) = Some e ->
  array_get (hues e) (clampZ j 0 (n e - 1)) = Some hj ->
  array_get (sats e) (clampZ j 0 (n e - 1)) = Some sj ->
  getColorInHarmony w j =
  Some (HsvColor
          (fmod (convertHueAngle (m_colorModel w) (getHsvHue (m_color w)) (-1)
                 + IZR hj) 360)
          (clampR (getHsvSaturation (m_color w) * IZR sj / 100) 0 1)
          (getHsvValue (m_color w)) 255).
Proof.
  intros He Hh Hs. unfold getColorInHarmony.
  rewrite He, Hh, Hs. reflexivity.
Qed.

Lemma getColorInHarmony_total (w : ColorWheel) (j : Z) :
  exists c, getColorInHarmony w j = Some c.
Proof.
  destruct (harmony_entry (m_harmony w)) as (e & He & Hok).
  destruct (harmony_sub_entry e j Hok) as (_ & hj & sj & Hh & Hs).
  eexists. eapply getColorInHarmony_eq; eauto.
Qed.

(** C8: every entry of the harmony table has a count [n] between 1 and 4
    (and four hue and four saturation slots); [getHarmonies] always returns
    such a count; and for any value of the harmony setting and any
    sub-index, the table is read at a clamped pattern index that is inside
    the table and at a clamped sub-index in [0, n-1] that is inside the
    entry's arrays, so that no read of [getHarmonies] or
    [getColorInHarmony] falls outside. *)
Theorem harmony_table_safe :
  Forall entry_ok harmonies /\
  (forall w, exists k, getHarmonies w = Some k /\ (1 <= k <= 4)%Z) /\
  (forall w j,
     let i := clampZ (m_harmony w) 0 Harmony.LAST in
     (0 <= i < Z.of_nat (length harmonies))%Z /\
     exists e, array_get harmonies i = Some e /\
       let j' := clampZ j 0 (n e - 1) in
       (0 <= j' <= n e - 1)%Z /\
       (j' < Z.of_nat (length (hues e)))%Z /\
       (j' < Z.of_nat (length (sats e)))%Z /\
       (exists hj sj, array_get (hues e) j' = Some hj /\
                      array_get (sats e) j' = Some sj) /\
       exists c, getColorInHarmony w j = Some c).
Proof.
  split; [exact harmonies_ok|].
  split; [exact getHarmonies_total|].
  intros w j i.
  destruct (harmony_entry (m_harmony w)) as (e & He & Hok).
  split; [apply (array_get_some_range _ _ _ He)|].
  exists e; split; [exact He|].
  destruct (harmony_sub_entry e j Hok) as (B & hj & sj & Hh & Hs).
  cbv zeta.
  destruct Hok as (Hn & Hlh & Hls).
  split; [exact B|].
  split; [rewrite Hlh; lia|].
  split; [rewrite Hls; lia|].
  split; [eauto|apply getColorInHarmony_total].
Qed.

(** ** Harmony colours *)

(** [fmod x 360] removes a whole number of turns, toward zero. *)
Lemma fmod_360 (x : R) :
  exists k : Z,
    fmod x 360 = x - 360 * IZR k /\
    -360 < fmod x 360 < 360 /\
    (0 <= x -> 0 <= fmod x 360) /\
    (x <= 0 -> fmod x 360 <= 0).
Proof.
  exists (trunc (x / 360)). unfold fmod.
  split; [ring|].
  destruct (Rle_dec 0 x) as [P|N].
  - assert (P' : 0 <= x / 360) by lra.
    destruct (trunc_bound_nonneg _ P') as [[B0 B1] B2].
    repeat split; intros; lra.
  - assert (N' : x / 360 < 0) by lra.
    destruct (trunc_bound_neg _ N') as [[B0 B1] B2].
    repeat split; intros; lra.
Qed.

Lemma fmod_small (x : R) : 0 <= x < 360 -> fmod x 360 = x.
Proof.
  intros H; unfold fmod.
  rewrite (trunc_nonneg (x / 360) 0); simpl; lra.
Qed.

Lemma hues_in_table (e : HarmonyEntry) (hj : Z) :
  In e harmonies -> In hj (hues e) -> (0 <= hj < 360)%Z.
Proof.
  unfold harmonies; simpl.
  intros He Hh.
  repeat (destruct He as [<-|He];
          [simpl in Hh; repeat (destruct Hh as [<-|Hh]; [lia|]); tauto|]).
  tauto.
Qed.

(** C7: for a pattern with table entry [e] and an index [j] in [0, n), the
    colour [getColorInHarmony] returns has as hue the base hue converted by
    [convertHueAngle(., -1)] plus [hues[j]], less a whole number of turns
    (so inside [0,360) for a base hue of [0,360)), as saturation the base
    saturation times [sats[j]/100] clamped to [0,1], and the base value.
    With the STANDARD model, base hue 0 and saturation 100 per cent, the
    TRIADIC pattern gives exactly three colours, of hues 0, 120, 240 and
    saturation 100 per cent. *)
Theorem getColorInHarmony_spec (w : ColorWheel) :
  (forall e j,
     array_get harmonies (clampZ (m_harmony w) 0 Harmony.LAST) = Some e ->
     (0 <= j < n e)%Z ->
     exists hj sj hue (k : Z),
       array_get (hues e) j = Some hj /\
       array_get (sats e) j = Some sj /\
       getColorInHarmony w j =
         Some (HsvColor hue
                 (clampR (getHsvSaturation (m_color w) * IZR sj / 100) 0 1)
                 (getHsvValue (m_color w)) 255) /\
       hue = convertHueAngle (m_colorModel w) (getHsvHue (m_color w)) (-1)
             + IZR hj - 360 * IZR k /\
       -360 < hue < 360 /\
       (0 <= getHsvHue (m_color w) < 360 -> 0 <= hue < 360) /\
       0 <= clampR (getHsvSaturation (m_color w) * IZR sj / 100) 0 1 <= 1) /\
  (m_colorModel w = STANDARD ->
   m_harmony w = Harmony.TRIADIC ->
   getHsvHue (m_color w) = 0 ->
   getHsvSaturation (m_color w) = 1 ->
   getHarmonies w = Some 3%Z /\
   map (getColorInHarmony w) [0; 1; 2]%Z =
     [ Some (HsvColor 0 1 (getHsvValue (m_color w)) 255)
     ; Some (HsvColor 120 1 (getHsvValue (m_color w)) 255)
     ; Some (HsvColor 240 1 (getHsvValue (m_color w)) 255) ]).
Proof.
  split.
  - intros e j He Hj.
    pose proof (array_get_some_range _ _ _ He) as [_ Hin].
    pose proof (proj1 (Forall_forall _ _) harmonies_ok e Hin) as Hok.
    destruct (harmony_sub_entry e j Hok) as (_ & hj & sj & Hh & Hs).
    rewrite (clampZ_id j) in Hh, Hs by lia.
    set (base := convertHueAngle (m_colorModel w) (getHsvHue (m_color w)) (-1)).
    destruct (fmod_360 (base + IZR hj)) as (k & Hk & Hb & Hpos & _).
    exists hj, sj, (fmod (base + IZR hj) 360), k.
    split; [exact Hh|]. split; [exact Hs|].
    split.
    { apply getColorInHarmony_eq with (e := e); auto;
        now rewrite clampZ_id by lia. }
    split; [exact Hk|]. split; [exact Hb|].
    split.
    + intros Hbase.
      assert (0 <= base < 360) by (now apply convertHueAngle_range).
      apply array_get_some_range in Hh as [_ Hhin].
      pose proof (hues_in_table e hj Hin Hhin) as [H0 _].
      apply IZR_le in H0.
      split; [apply Hpos; lra|lra].
    + apply clampR_bounds; lra.
  - intros Hm Hh Hhue Hsat.
    unfold getHarmonies, getColorInHarmony.
    rewrite Hm, Hh, Hhue, Hsat.
    unfold Harmony.TRIADIC, Harmony.LAST, Harmony.SQUARE; simpl.
    split; [reflexivity|].
    replace (1 * 100 / 100) with 1 by lra.
    rewrite (clampR_id 1) by lra.
    change (convertHueAngle STANDARD 0 (-1)) with 0.
    rewrite !fmod_small by lra.
    unfold Color.fromHsv; repeat f_equal; lra.
Qed.

(** ** Picking a harmony swatch *)

(** The members that the picking code reads do not include the flag it
    writes. *)
Lemma getColorInHarmony_flag (w : ColorWheel) (b : bool) (j : Z) :
  getColorInHarmony (set_harmonyPicked w b) j = getColorInHarmony w j.
Proof. reflexivity. Qed.

Lemma pickHarmony_flag (w : ColorWheel) (b : bool) pos umax vmax k boxsize
    (cnt : nat) (i : Z) :
  pickHarmony (set_harmonyPicked w b) pos umax vmax k boxsize cnt i =
  pickHarmony w pos umax vmax k boxsize cnt i.
Proof.
  revert i; induction cnt as [|cnt IH]; intros i; simpl; [reflexivity|].
  rewrite getColorInHarmony_flag.
  destruct (getColorInHarmony w i); [|reflexivity].
  rewrite IH. reflexivity.
Qed.

Lemma wheelColor_flag (w : ColorWheel) (b : bool) (u v : Z) :
  wheelColor (set_harmonyPicked w b) u v = wheelColor w u v.
Proof. reflexivity. Qed.

(** The loop over the swatches always finishes; it returns a colour exactly
    when one of the swatches it visits holds the position. *)
Lemma pickHarmony_spec (w : ColorWheel) pos umax vmax k boxsize
    (cnt : nat) (i : Z) :
  exists r, pickHarmony w pos umax vmax k boxsize cnt i = Some r /\
    (r <> None <->
     exists j, (i <= j < i + Z.of_nat cnt)%Z /\
       Rect_contains (swatchRect umax vmax k boxsize j) pos = true).
Proof.
  revert i; induction cnt as [|cnt IH]; intros i.
  - exists None; split; [reflexivity|].
    split; [congruence|]. intros (j & Hj & _); lia.
  - simpl pickHarmony.
    destruct (getColorInHarmony_total w i) as [c ->].
    destruct (Rect_contains (swatchRect umax vmax k boxsize i) pos) eqn:E.
    + eexists; split; [reflexivity|].
      split; [|congruence].
      intros _; exists i; split; [lia|exact E].
    + destruct (IH (i + 1)%Z) as (r & Hr & Hiff).
      exists r; split; [exact Hr|].
      rewrite Hiff; split; intros (j & Hj & Hc).
      * exists j; split; [lia|exact Hc].
      * exists j; split; [|exact Hc].
        assert (j <> i) by (intros ->; congruence). lia.
Qed.

(** C10: [getMainAreaColor] starts by clearing [m_harmonyPicked] (the value
    the flag had before the call has no influence), changes nothing else in
    the widget, and leaves the flag set exactly when the alpha of the
    current selection is positive and the position is inside one of the [n]
    harmony swatches; when the flag is left clear, and in particular when
    the alpha is 0, the colour is the one of the wheel geometry. *)
Theorem getMainAreaColor_harmonyPicked (w : ColorWheel) (_u umax _v vmax : Z) :
  exists c w',
    getMainAreaColor w _u umax _v vmax = Some (c, w') /\
    (forall b, getMainAreaColor (set_harmonyPicked w b) _u umax _v vmax
               = Some (c, w')) /\
    w' = set_harmonyPicked w (m_harmonyPicked w') /\
    (m_harmonyPicked w' = true <->
       (0 < Color.getAlpha (m_color w))%Z /\
       exists k i,
         getHarmonies w = Some k /\ (0 <= i < k)%Z /\
         Rect_contains
           (swatchRect umax vmax k (Z.min (umax ÷ 10) (vmax ÷ 10)) i)
           (_u, _v) = true) /\
    (m_harmonyPicked w' = false ->
       c = wheelColor w (_u - umax ÷ 2) (_v - vmax ÷ 2)) /\
    ((Color.getAlpha (m_color w) <= 0)%Z -> m_harmonyPicked w' = false).
Proof.
  assert (Hreset : forall b,
    getMainAreaColor (set_harmonyPicked w b) _u umax _v vmax =
    getMainAreaColor w _u umax _v vmax) by reflexivity.
  enough (exists c w',
    getMainAreaColor w _u umax _v vmax = Some (c, w') /\
    w' = set_harmonyPicked w (m_harmonyPicked w') /\
    (m_harmonyPicked w' = true <->
       (0 < Color.getAlpha (m_color w))%Z /\
       exists k i,
         getHarmonies w = Some k /\ (0 <= i < k)%Z /\
         Rect_contains
           (swatchRect umax vmax k (Z.min (umax ÷ 10) (vmax ÷ 10)) i)
           (_u, _v) = true) /\
    (m_harmonyPicked w' = false ->
       c = wheelColor w (_u - umax ÷ 2) (_v - vmax ÷ 2)) /\
    ((Color.getAlpha (m_color w) <= 0)%Z -> m_harmonyPicked w' = false))
    as (c & w' & H1 & H2 & H3 & H4 & H5).
  { exists c, w'. split; [exact H1|].
    split; [intros b; rewrite Hreset; exact H1|]. auto. }
  clear Hreset.
  unfold getMainAreaColor.
  change (m_color (set_harmonyPicked w false)) with (m_color w).
  change (getHarmonies (set_harmonyPicked w false)) with (getHarmonies w).
  rewrite wheelColor_flag.
  destruct (Z.ltb_spec 0 (Color.getAlpha (m_color w))) as [Ha|Ha].
  - destruct (getHarmonies_total w) as (k & Hk & Hk14).
    rewrite Hk, pickHarmony_flag.
    destruct (pickHarmony_spec w (_u, _v) umax vmax k
                (Z.min (umax ÷ 10) (vmax ÷ 10)) (Z.to_nat k) 0)
      as (r & Hr & Hiff).
    rewrite Hr.
    destruct r as [c|].
    + exists c, (set_harmonyPicked (set_harmonyPicked w false) true).
      split; [reflexivity|].
      split; [reflexivity|].
      split; [|split; simpl; [discriminate|lia]].
      split; [|reflexivity].
      intros _. split; [exact Ha|].
      destruct (proj1 Hiff ltac:(congruence)) as (j & Hj & Hc).
      exists k, j. repeat split; try lia; auto.
    + exists (wheelColor w (_u - umax ÷ 2) (_v - vmax ÷ 2)),
             (set_harmonyPicked w false).
      split; [reflexivity|].
      split; [reflexivity|].
      split; [|split; simpl; auto].
      split; [simpl; discriminate|].
      intros (_ & k' & j & Hk' & Hj & Hc).
      assert (k' = k) by congruence; subst k'.
      exfalso. apply (proj2 Hiff); [|reflexivity].
      exists j; split; [lia|exact Hc].
  - exists (wheelColor w (_u - umax ÷ 2) (_v - vmax ÷ 2)),
           (set_harmonyPicked w false).
    split; [reflexivity|].
    split; [reflexivity|].
    split; [|split; simpl; auto].
    split; [simpl; discriminate|].
    intros (Hpos & _); lia.
Qed.

(** ** Which regions a new selection makes stale *)

Lemma wheelBits_zero (f : Z) :
  wheelBits f = 0%Z ->
  Z.land f MainAreaFlag = 0%Z /\ Z.land f BottomBarFlag = 0%Z.
Proof.
  unfold wheelBits, MainAreaFlag, BottomBarFlag; simpl; intros H.
  split.
  - change 1%Z with (Z.land 3 1). rewrite Z.land_assoc, H. reflexivity.
  - change 2%Z with (Z.land 3 2). rewrite Z.land_assoc, H. reflexivity.
Qed.

Lemma hasFlag_lor (a b flag : Z) :
  hasFlag (Z.lor a b) flag = hasFlag a flag || hasFlag b flag.
Proof.
  unfold hasFlag. rewrite Z.land_lor_distr_l.
  destruct (Z.eqb_spec (Z.land a flag) 0) as [Ea|Ea];
  destruct (Z.eqb_spec (Z.land b flag) 0) as [Eb|Eb]; simpl.
  - rewrite Ea, Eb; reflexivity.
  - rewrite Ea, Z.lor_0_l. now apply negb_true_iff, Z.eqb_neq.
  - rewrite Eb, Z.lor_0_r. now apply negb_true_iff, Z.eqb_neq.
  - apply negb_true_iff, Z.eqb_neq. intros H.
    apply Z.lor_eq_0_iff in H. tauto.
Qed.

(** The flags of the wheel's own two tests, under a base class that leaves
    them alone. *)
Lemma onNeedsSurfaceRepaint_bits (w : ColorWheel) (newColor : Color) :
  base_repaint_leaves_wheel_flags svc ->
  hasFlag (onNeedsSurfaceRepaint w newColor) MainAreaFlag =
    negb (ColorModel_eqb (m_colorModel w) NORMAL_MAP) &&
    cs_double_diff svc (getHsvValue (m_color w)) (getHsvValue newColor) /\
  hasFlag (onNeedsSurfaceRepaint w newColor) BottomBarFlag =
    cs_double_diff svc (getHsvHue (m_color w)) (getHsvHue newColor) ||
    cs_double_diff svc (getHsvSaturation (m_color w))
                       (getHsvSaturation newColor).
Proof.
  intros Hbase.
  destruct (wheelBits_zero _ (Hbase w newColor)) as [B1 B2].
  unfold onNeedsSurfaceRepaint.
  rewrite !hasFlag_lor.
  unfold hasFlag at 3 6. rewrite B1, B2. simpl.
  rewrite !orb_false_r.
  split.
  - destruct (negb (ColorModel_eqb (m_colorModel w) NORMAL_MAP) &&
              cs_double_diff svc _ _);
    destruct (cs_double_diff svc _ _ || cs_double_diff svc _ _);
    reflexivity.
  - destruct (negb (ColorModel_eqb (m_colorModel w) NORMAL_MAP) &&
              cs_double_diff svc _ _);
    destruct (cs_double_diff svc _ _ || cs_double_diff svc _ _);
    reflexivity.
Qed.

Lemma ColorModel_eqb_eq (a b : ColorModel) :
  ColorModel_eqb a b = true <-> a = b.
Proof. destruct a, b; simpl; split; congruence. Qed.

(** C6: with a base class that leaves the two bits of the wheel alone, the
    result of [onNeedsSurfaceRepaint] has the MAIN_AREA bit exactly when the
    model is not NORMAL_MAP and the value channels differ, and the
    BOTTOM_BAR bit exactly when the hues or the saturations differ.  With
    the STANDARD model and a difference test of tolerance below 0.3, going
    from (hue 0, saturation 50%, value 50%) to value 80% sets MAIN_AREA and
    not BOTTOM_BAR, and going to hue 10 sets BOTTOM_BAR and not MAIN_AREA. *)
Theorem onNeedsSurfaceRepaint_spec (w : ColorWheel) (newColor : Color) :
  base_repaint_leaves_wheel_flags svc ->
  (hasFlag (onNeedsSurfaceRepaint w newColor) MainAreaFlag = true <->
     m_colorModel w <> NORMAL_MAP /\
     cs_double_diff svc (getHsvValue (m_color w)) (getHsvValue newColor)
       = true) /\
  (hasFlag (onNeedsSurfaceRepaint w newColor) BottomBarFlag = true <->
     cs_double_diff svc (getHsvHue (m_color w)) (getHsvHue newColor) = true \/
     cs_double_diff svc (getHsvSaturation (m_color w))
                        (getHsvSaturation newColor) = true) /\
  (forall eps a a',
     diff_with_tolerance svc eps -> 0 <= eps < 3 / 10 ->
     m_colorModel w = STANDARD ->
     m_color w = HsvColor 0 (1 / 2) (1 / 2) a ->
     let value80 := HsvColor 0 (1 / 2) (8 / 10) a' in
     let hue10 := HsvColor 10 (1 / 2) (1 / 2) a' in
     hasFlag (onNeedsSurfaceRepaint w value80) MainAreaFlag = true /\
     hasFlag (onNeedsSurfaceRepaint w value80) BottomBarFlag = false /\
     hasFlag (onNeedsSurfaceRepaint w hue10) BottomBarFlag = true /\
     hasFlag (onNeedsSurfaceRepaint w hue10) MainAreaFlag = false).
Proof.
  intros Hbase.
  destruct (onNeedsSurfaceRepaint_bits w newColor Hbase) as [-> ->].
  split; [|split].
  - rewrite andb_true_iff, negb_true_iff.
    split; intros [H1 H2]; split; auto.
    + intros E. apply ColorModel_eqb_eq in E. congruence.
    + destruct (ColorModel_eqb (m_colorModel w) NORMAL_MAP) eqn:E; auto.
      apply ColorModel_eqb_eq in E. contradiction.
  - apply orb_true_iff.
  - intros eps a a' Hdiff Heps Hm Hc value80 hue10.
    assert (Same : forall x, cs_double_diff svc x x = false).
    { intros x. destruct (cs_double_diff svc x x) eqn:E; auto.
      apply Hdiff in E. rewrite Rminus_diag, Rabs_R0 in E. lra. }
    assert (Dv : cs_double_diff svc (1 / 2) (8 / 10) = true).
    { apply Hdiff. unfold Rabs; destruct (Rcase_abs _); lra. }
    assert (Dh : cs_double_diff svc 0 10 = true).
    { apply Hdiff. unfold Rabs; destruct (Rcase_abs _); lra. }
    destruct (onNeedsSurfaceRepaint_bits w value80 Hbase) as [-> ->].
    destruct (onNeedsSurfaceRepaint_bits w hue10 Hbase) as [-> ->].
    rewrite Hm, Hc; simpl.
    rewrite !Same, Dv, Dh. auto.
Qed.

(** ** Picking on the wheel *)

(** When no swatch is hit the colour is the one of the wheel geometry. *)
Lemma getMainAreaColor_unpicked (w : ColorWheel) (_u umax _v vmax : Z)
    (c : Color) (w' : ColorWheel) :
  getMainAreaColor w _u umax _v vmax = Some (c, w') ->
  m_harmonyPicked w' = false ->
  c = wheelColor w (_u - umax ÷ 2) (_v - vmax ÷ 2).
Proof.
  unfold getMainAreaColor.
  rewrite wheelColor_flag.
  destruct (if (0 <? Color.getAlpha (m_color (set_harmonyPicked w false)))%Z
            then _ else _) as [[color|]|]; intros H Hp.
  - injection H as <- <-. discriminate.
  - now injection H as <- <-.
  - discriminate.
Qed.

(** Inside the radius the capture of the pointer does not change the
    distance. *)
Lemma wheelDistance_inside (w : ColorWheel) (u v : Z) :
  sqrt (IZR (u * u + v * v)) <= m_wheelRadius w ->
  wheelDistance w u v = sqrt (IZR (u * u + v * v)).
Proof.
  intros H; unfold wheelDistance.
  destruct (hasCaptureInMainArea w); simpl; [|reflexivity].
  now rewrite (proj2 (ltR_false _ _)).
Qed.

(** The colour of the hue/saturation wheel inside the radius. *)
Lemma wheelColor_inside (w : ColorWheel) (u v : Z) :
  m_colorModel w <> NORMAL_MAP ->
  wheelDistance w u v <= m_wheelRadius w ->
  wheelColor w u v =
  HsvColor (IZR (clampZ (wheelHue w u v) 0 360))
           (clampR (IZR (wheelSat w (wheelDistance w u v)) / 100) 0 1)
           (if negb (Color.isMask (m_color w))
            then getHsvValue (m_color w) else 1)
           (getCurrentAlphaForNewColor svc (m_color w)).
Proof.
  intros Hm Hd; unfold wheelColor.
  destruct (ColorModel_eqb (m_colorModel w) NORMAL_MAP) eqn:E.
  { apply ColorModel_eqb_eq in E; contradiction. }
  rewrite (proj2 (leR_true _ _) Hd). reflexivity.
Qed.

(** The hue warp sends the twelve steps of 30 degrees to whole degrees. *)
Lemma convertHueAngle_step (model : ColorModel) (k : Z) :
  (0 <= k < 12)%Z ->
  convertHueAngle model (IZR (30 * k)) 1 = IZR (warpedStep model k) /\
  (0 <= warpedStep model k < 360)%Z.
Proof.
  intros H.
  assert (C : (k = 0 \/ k = 1 \/ k = 2 \/ k = 3 \/ k = 4 \/ k = 5 \/ k = 6 \/
               k = 7 \/ k = 8 \/ k = 9 \/ k = 10 \/ k = 11)%Z) by lia.
  destruct model;
    repeat (destruct C as [->|C]; [split; [hue_cases|simpl; lia]|]);
    subst k; split; try (simpl; lia); hue_cases.
Qed.

(** The discrete hue on the wheel is a step of 30 degrees. *)
Lemma wheelAngleHue_discrete (w : ColorWheel) (u v : Z) :
  m_discrete w = true ->
  let deg := trunc (180 * atan2 (IZR (- v)) (IZR u) / PI) in
  let k := (((deg + 180 + 180 + 30 + 15) / 30) mod 12)%Z in
  (0 <= k < 12)%Z /\ wheelAngleHue w u v = (30 * k)%Z.
Proof.
  intros Hd deg k.
  pose proof (degrees_bound (IZR (- v)) (IZR u)) as B.
  fold deg in B.
  split; [apply Z.mod_pos_bound; lia|].
  unfold wheelAngleHue. rewrite Hd. fold deg.
  rewrite Z.quot_div_nonneg by lia.
  assert (0 <= (deg + 180 + 180 + 30 + 15) / 30)%Z
    by (apply Z.div_pos; lia).
  rewrite Z.rem_mod_nonneg by lia.
  change 360%Z with (12 * 30)%Z.
  rewrite Z.mul_mod_distr_r by lia.
  unfold k; lia.
Qed.

(** C3 (amended): with discrete mode on, for a position inside the wheel
    that hits no harmony swatch, the hue on the wheel is 30 * k, where k
    (in [0,12)) is found by adding 15 to the angle-derived hue and rounding
    down to a step of 30 degrees; the hue of the returned colour is the
    image of 30 * k under the hue warp of the model: 30 * k itself under
    STANDARD, and a whole number of degrees in [0,360) that need not be a
    multiple of 30 under RYB. *)
Theorem discrete_hue_spec (w : ColorWheel) (_u umax _v vmax : Z)
    (c : Color) (w' : ColorWheel) :
  m_discrete w = true ->
  m_colorModel w <> NORMAL_MAP ->
  getMainAreaColor w _u umax _v vmax = Some (c, w') ->
  m_harmonyPicked w' = false ->
  let u := (_u - umax ÷ 2)%Z in
  let v := (_v - vmax ÷ 2)%Z in
  sqrt (IZR (u * u + v * v)) <= m_wheelRadius w ->
  let deg := trunc (180 * atan2 (IZR (- v)) (IZR u) / PI) in
  let k := (((deg + 180 + 180 + 30 + 15) / 30) mod 12)%Z in
  (0 <= k < 12)%Z /\
  wheelAngleHue w u v = (30 * k)%Z /\
  getHsvHue c = convertHueAngle (m_colorModel w) (IZR (30 * k)) 1 /\
  getHsvHue c = IZR (warpedStep (m_colorModel w) k) /\
  (m_colorModel w = STANDARD -> getHsvHue c = IZR (30 * k)).
Proof.
  intros Hd Hm Hget Hp u v Hin deg k.
  apply getMainAreaColor_unpicked in Hget; [|exact Hp].
  fold u v in Hget.
  destruct (wheelAngleHue_discrete w u v Hd) as [Hk Hhue].
  fold deg k in Hk, Hhue.
  destruct (convertHueAngle_step (m_colorModel w) k Hk) as [Hwarp Hrange].
  rewrite wheelColor_inside in Hget;
    [|exact Hm|rewrite wheelDistance_inside; exact Hin].
  assert (Hc : getHsvHue c = IZR (warpedStep (m_colorModel w) k)).
  { subst c; simpl.
    unfold wheelHue. rewrite Hhue, Hwarp, trunc_IZR.
    now rewrite clampZ_id by lia. }
  split; [exact Hk|]. split; [exact Hhue|].
  split; [now rewrite Hwarp|]. split; [exact Hc|].
  intros Hs. rewrite Hc, Hs. reflexivity.
Qed.

(** ** The discrete saturation *)

Lemma quot_20_floor (x : R) :
  0 <= x -> (trunc x ÷ 20)%Z = Zfloor (x / 20).
Proof.
  intros H.
  destruct (trunc_bound_nonneg x H) as [[B0 B1] B2].
  apply le_IZR in B0.
  rewrite Z.quot_div_nonneg by lia.
  symmetry; apply Zfloor_eq.
  pose proof (Z.mul_div_le (trunc x) 20 ltac:(lia)) as L.
  pose proof (Z.mul_succ_div_gt (trunc x) 20 ltac:(lia)) as G.
  assert (L' : IZR (20 * (trunc x / 20)) <= IZR (trunc x))
    by (apply IZR_le; lia).
  assert (G' : IZR (trunc x) + 1 <= IZR (20 * Z.succ (trunc x / 20))).
  { rewrite <- plus_IZR. apply IZR_le; lia. }
  rewrite mult_IZR in L'. rewrite mult_IZR, succ_IZR in G'.
  lra.
Qed.


(** ** The normal-map wheel, away from the harmony swatches *)

Lemma trunc_0 : trunc 0 = 0%Z.
Proof. exact (trunc_IZR 0). Qed.

(** What the normal-map wheel of a positive radius gives when the harmony
    swatches are not involved: the neutral normal outside the radius and
    at the centre, and channels inside their ranges everywhere. *)
Lemma wheelColor_normal_map (w : ColorWheel) (u v : Z) :
  m_colorModel w = NORMAL_MAP ->
  0 < m_wheelRadius w ->
  (m_wheelRadius w < wheelDistance w u v ->
     wheelColor w u v = RgbColor 128 128 255 255) /\
  (u = 0%Z -> v = 0%Z ->
     wheelColor w u v = RgbColor 128 128 255 255) /\
  exists r g b,
    wheelColor w u v = RgbColor r g b 255 /\
    (0 <= r <= 255)%Z /\ (0 <= g <= 255)%Z /\ (128 <= b <= 255)%Z.
Proof.
  intros Hm Hpos. unfold wheelColor. rewrite Hm. simpl ColorModel_eqb.
  cbv iota.
  split; [|split].
  - intros Hd. unfold normalMapColor.
    destruct (m_discrete w);
      now rewrite (proj2 (leR_false _ _) Hd).
  - intros -> ->.
    assert (Hr : 0 <= m_wheelRadius w) by lra.
    assert (Hd : wheelDistance w 0 0 = 0).
    { unfold wheelDistance. simpl (0 * 0 + 0 * 0)%Z. rewrite sqrt_0.
      rewrite (proj2 (ltR_false _ _) Hr), andb_false_r. reflexivity. }
    unfold normalMapColor. rewrite Hd.
    replace (128 * 0 / m_wheelRadius w) with 0 by (unfold Rdiv; ring).
    rewrite trunc_0, (proj2 (leR_true _ _) Hr).
    destruct (m_discrete w); simpl Z.quot; simpl Z.mul;
      rewrite !Rmult_0_l, !Rplus_0_r, (trunc_IZR 128); reflexivity.
  - unfold normalMapColor.
    destruct (m_discrete w);
      destruct (leR (wheelDistance w u v) (m_wheelRadius w));
      eexists _, _, _; (split; [reflexivity|]);
      repeat split; try lia; apply clampZ_bounds; lia.
Qed.

(** ** The background painting pass and its dirty flags *)

Lemma hasFlag_bit (f : Z) (k : Z) :
  (0 <= k)%Z -> hasFlag f (2 ^ k) = Z.testbit f k.
Proof.
  intros Hk. unfold hasFlag.
  assert (E : Z.land f (2 ^ k) = if Z.testbit f k then (2 ^ k)%Z else 0%Z).
  { apply Z.bits_inj'. intros i Hi.
    rewrite Z.land_spec, Z.pow2_bits_eqb by lia.
    destruct (Z.eqb_spec k i) as [->|Hne].
    - destruct (Z.testbit f i) eqn:T; simpl.
      + rewrite Z.pow2_bits_true by lia. reflexivity.
      + now rewrite Z.bits_0.
    - rewrite andb_false_r.
      destruct (Z.testbit f k).
      + rewrite Z.pow2_bits_false by lia. reflexivity.
      + now rewrite Z.bits_0. }
  rewrite E. destruct (Z.testbit f k); [|reflexivity].
  apply negb_true_iff, Z.eqb_neq.
  pose proof (Z.pow_pos_nonneg 2 k ltac:(lia) Hk). lia.
Qed.

Lemma hasFlag_main (f : Z) : hasFlag f MainAreaFlag = Z.testbit f 0.
Proof. exact (hasFlag_bit f 0 ltac:(lia)). Qed.

Lemma hasFlag_bottom (f : Z) : hasFlag f BottomBarFlag = Z.testbit f 1.
Proof. exact (hasFlag_bit f 1 ltac:(lia)). Qed.

Lemma wheelBits_eq (f g : Z) :
  wheelBits f = wheelBits g ->
  hasFlag f MainAreaFlag = hasFlag g MainAreaFlag /\
  hasFlag f BottomBarFlag = hasFlag g BottomBarFlag.
Proof.
  unfold wheelBits; intros H.
  rewrite !hasFlag_main, !hasFlag_bottom.
  split.
  - apply (f_equal (fun z => Z.testbit z 0)) in H.
    rewrite !Z.land_spec in H. simpl in H.
    now rewrite !andb_true_r in H.
  - apply (f_equal (fun z => Z.testbit z 1)) in H.
    rewrite !Z.land_spec in H. simpl in H.
    now rewrite !andb_true_r in H.
Qed.

(** Toggling a set flag clears it and leaves the other one. *)
Lemma toggle_main (f : Z) :
  hasFlag (Z.lxor f MainAreaFlag) MainAreaFlag = negb (hasFlag f MainAreaFlag)
  /\ hasFlag (Z.lxor f MainAreaFlag) BottomBarFlag = hasFlag f BottomBarFlag.
Proof.
  rewrite !hasFlag_main, !hasFlag_bottom, !Z.lxor_spec. simpl.
  split; [apply xorb_true_r|apply xorb_false_r].
Qed.

Lemma toggle_bottom (f : Z) :
  hasFlag (Z.lxor f BottomBarFlag) BottomBarFlag
    = negb (hasFlag f BottomBarFlag)
  /\ hasFlag (Z.lxor f BottomBarFlag) MainAreaFlag = hasFlag f MainAreaFlag.
Proof.
  rewrite !hasFlag_main, !hasFlag_bottom, !Z.lxor_spec. simpl.
  split; [apply xorb_true_r|apply xorb_false_r].
Qed.

(** [getMainAreaColor] always returns, and only writes [m_harmonyPicked]. *)
Lemma getMainAreaColor_total (w : ColorWheel) (_u umax _v vmax : Z) :
  exists c b,
    getMainAreaColor w _u umax _v vmax = Some (c, set_harmonyPicked w b).
Proof.
  unfold getMainAreaColor.
  change (m_color (set_harmonyPicked w false)) with (m_color w).
  change (getHarmonies (set_harmonyPicked w false)) with (getHarmonies w).
  destruct (0 <? Color.getAlpha (m_color w))%Z.
  - destruct (getHarmonies_total w) as (k & -> & _).
    destruct (pickHarmony_spec (set_harmonyPicked w false) (_u, _v) umax vmax
                k (Z.min (umax ÷ 10) (vmax ÷ 10)) (Z.to_nat k) 0)
      as ([c|] & -> & _); eexists _, _; reflexivity.
  - eexists _, _; reflexivity.
Qed.

(** The invariant of the loops: the paint flags are not touched, and when
    the flag is still clear after the loop, every iteration has run. *)
Lemma paintMainRow_spec (Hmono : stop_monotone) (main : Rect)
    (umax vmax y : Z) (cnt : nat) :
  forall x s, exists s',
    paintMainRow main umax vmax y cnt x s = Some s' /\
    m_paintFlags (widget s') = m_paintFlags (widget s) /\
    (clock s <= clock s')%nat /\
    (stop (clock s') = false ->
     length (surface s') = (length (surface s) + cnt)%nat).
Proof.
  induction cnt as [|cnt IH]; intros x s.
  - exists s; simpl; repeat split; auto; lia.
  - simpl paintMainRow.
    destruct (stop (clock s)) eqn:Hs.
    + eexists; split; [reflexivity|]. simpl.
      repeat split; auto.
      intros Hc. rewrite (Hmono (clock s) (S (clock s))) in Hc; auto.
      discriminate.
    + destruct (getMainAreaColor_total (widget s) x umax y vmax)
        as (c & b & ->).
      cbv iota beta.
      match goal with
      | |- context [paintMainRow _ _ _ _ cnt ?x' ?s'] =>
          destruct (IH x' s') as (s1 & H1 & Hf & Hcl & Hlen)
      end.
      exists s1; split; [exact H1|].
      simpl in Hf, Hcl, Hlen.
      repeat split; auto; try lia.
      intros Hc. rewrite (Hlen Hc). lia.
Qed.

Lemma paintMainRows_spec (Hmono : stop_monotone) (main : Rect)
    (umax vmax : Z) (cnt : nat) :
  forall y s, exists s',
    paintMainRows main umax vmax cnt y s = Some s' /\
    m_paintFlags (widget s') = m_paintFlags (widget s) /\
    (clock s <= clock s')%nat /\
    (stop (clock s') = false ->
     length (surface s') =
       (length (surface s) + cnt * Z.to_nat (rw main))%nat).
Proof.
  induction cnt as [|cnt IH]; intros y s.
  - exists s; simpl; repeat split; auto; lia.
  - simpl paintMainRows.
    destruct (stop (clock s)) eqn:Hs.
    + eexists; split; [reflexivity|]. simpl.
      repeat split; auto.
      intros Hc. rewrite (Hmono (clock s) (S (clock s))) in Hc; auto.
      discriminate.
    + match goal with
      | |- context [paintMainRow _ _ _ _ ?c ?x' ?s'] =>
          destruct (paintMainRow_spec Hmono main umax vmax y c x' s')
            as (s1 & -> & Hf1 & Hcl1 & Hlen1)
      end.
      destruct (IH (y + 1)%Z s1) as (s2 & H2 & Hf2 & Hcl2 & Hlen2).
      exists s2; split; [exact H2|].
      simpl in Hf1, Hcl1, Hlen1.
      repeat split; try congruence; try lia.
      intros Hc. rewrite (Hlen2 Hc).
      assert (stop (clock s1) = false).
      { destruct (stop (clock s1)) eqn:E; auto.
        rewrite (Hmono _ _ Hcl2 E) in Hc. discriminate. }
      rewrite Hlen1 by assumption. lia.
Qed.

Lemma paintBottomColumns_spec (Hmono : stop_monotone) (bottom : Rect)
    (hue sat : R) (cnt : nat) :
  forall x s,
    let s' := paintBottomColumns bottom hue sat cnt x s in
    widget s' = widget s /\
    (clock s <= clock s')%nat /\
    (stop (clock s') = false ->
     length (surface s') = (length (surface s) + cnt)%nat).
Proof.
  induction cnt as [|cnt IH]; intros x s.
  - simpl; repeat split; auto; lia.
  - simpl paintBottomColumns.
    destruct (stop (clock s)) eqn:Hs.
    + simpl. repeat split; auto.
      intros Hc. rewrite (Hmono (clock s) (S (clock s))) in Hc; auto.
      discriminate.
    + match goal with
      | |- context [paintBottomColumns _ _ _ cnt ?x' ?s'] =>
          destruct (IH x' s') as (Hw & Hcl & Hlen)
      end.
      simpl in Hw, Hcl, Hlen.
      repeat split; auto; try lia.
      intros Hc. rewrite (Hlen Hc). lia.
Qed.

(** Under a flag that is only raised, a clear flag at read [t] means that
    every earlier read found it clear. *)
Lemma never_stopped (Hmono : stop_monotone) (t : nat) :
  stop t = false -> forall k, (k <= t)%nat -> stop k = false.
Proof.
  intros Ht k Hk. destruct (stop k) eqn:E; auto.
  rewrite (Hmono k t Hk E) in Ht. discriminate.
Qed.


(** The end of the function, from the bottom-bar block on. *)
Lemma bottomBlock_spec (Hmono : stop_monotone)
    (Hbase : base_paint_leaves_wheel_flags svc)
    (main bottom alpha : Rect) (s1 : PaintState) :
  let r := match paintBottomBlock bottom s1 with
           | Return s => s
           | Next s =>
               ColorSelector_onPaintSurfaceInBgThread svc stop
                 s main bottom alpha
           end in
  let f1 := m_paintFlags (widget s1) in
  let fr := m_paintFlags (widget r) in
  let sb := bottomPass bottom s1 in
  hasFlag fr MainAreaFlag = hasFlag f1 MainAreaFlag /\
  (hasFlag f1 BottomBarFlag = false -> hasFlag fr BottomBarFlag = false) /\
  (hasFlag f1 BottomBarFlag = true -> stop (clock sb) = true ->
     r = tick sb /\ fr = f1) /\
  (hasFlag f1 BottomBarFlag = true -> stop (clock sb) = false ->
     hasFlag fr BottomBarFlag = false) /\
  (hasFlag f1 BottomBarFlag = true -> hasFlag fr BottomBarFlag = false ->
     (forall k, (k <= clock sb)%nat -> stop k = false) /\
     length (surface sb) =
       (length (surface s1) + Z.to_nat (rw bottom))%nat).
Proof.
  intros r f1 fr sb.
  destruct (paintBottomColumns_spec Hmono bottom
              (getHsvHue (m_color (widget s1)))
              (getHsvSaturation (m_color (widget s1)))
              (Z.to_nat (rw bottom)) 0 s1) as (Hw & Hcl & Hlen).
  fold (bottomPass bottom s1) in Hw, Hcl, Hlen. fold sb in Hw, Hcl, Hlen.
  unfold paintBottomBlock in r. fold f1 in r. fold sb in r.
  destruct (hasFlag f1 BottomBarFlag) eqn:Hb.
  - unfold readStop in r.
    destruct (stop (clock sb)) eqn:Hs.
    + (* cancelled during the bottom bar *)
      assert (Er : r = tick sb) by reflexivity.
      assert (Ef : fr = f1) by (unfold fr; rewrite Er; simpl; now rewrite Hw).
      rewrite Ef.
      repeat split; auto; congruence.
    + (* complete *)
      set (s2 := toggleFlag
                   {| widget := widget sb; surface := surface sb;
                      clock := S (clock sb) |} BottomBarFlag) in r.
      assert (E2 : m_paintFlags (widget s2) = Z.lxor f1 BottomBarFlag)
        by (unfold s2; simpl; now rewrite Hw).
      destruct (wheelBits_eq _ _ (Hbase stop s2 main bottom alpha))
        as [Em Eb].
      fold r in Em, Eb. fold fr in Em, Eb.
      rewrite E2 in Em, Eb.
      destruct (toggle_bottom f1) as [T1 T2].
      rewrite T2 in Em. rewrite T1, Hb in Eb. simpl in Eb.
      split; [exact Em|]. split; [congruence|]. split; [congruence|].
      split; [auto|].
      intros _ _. split; [now apply never_stopped|now apply Hlen].
  - destruct (wheelBits_eq _ _ (Hbase stop s1 main bottom alpha))
      as [Em Eb].
    fold r in Em, Eb. fold fr in Em, Eb. fold f1 in Em, Eb.
    rewrite Hb in Eb.
    repeat split; auto; congruence.
Qed.

(** C9 (amended): in [onPaintSurfaceInBgThread], under a stop flag that
    is only raised during the call (once a read finds it set, later reads
    find it set) and a base class that leaves the two bits of the wheel
    alone, a dirty flag (MAIN_AREA, BOTTOM_BAR) is cleared only if the
    loop of its region ran to the end, every place written, with every
    read of the stop flag clear; if the stop flag is found set at the end
    of a region's pass, the function returns there with that flag and the
    flags of the regions not yet processed unchanged.  A clean flag stays
    clean, and a pass that finds the stop flag clear at its end does clear
    the flag of its region. *)
Theorem onPaintSurfaceInBgThread_flags (s : PaintState)
    (main bottom alpha : Rect) :
  stop_monotone ->
  base_paint_leaves_wheel_flags svc ->
  exists s',
    onPaintSurfaceInBgThread s main bottom alpha = Some s' /\
    let f := m_paintFlags (widget s) in
    let f' := m_paintFlags (widget s') in
    (hasFlag f MainAreaFlag = false -> hasFlag f' MainAreaFlag = false) /\
    (hasFlag f BottomBarFlag = false -> hasFlag f' BottomBarFlag = false) /\
    (hasFlag f MainAreaFlag = true ->
       exists sm, mainPass main s = Some sm /\
         (stop (clock sm) = true -> s' = tick sm /\ f' = f) /\
         (stop (clock sm) = false -> hasFlag f' MainAreaFlag = false) /\
         (hasFlag f' MainAreaFlag = false ->
            (forall k, (k <= clock sm)%nat -> stop k = false) /\
            length (surface sm) =
              (length (surface s)
               + Z.to_nat (rh main) * Z.to_nat (rw main))%nat)) /\
    (hasFlag f BottomBarFlag = true -> hasFlag f' BottomBarFlag = false ->
       exists s1, paintMainBlock main s = Some (Next s1) /\
         let sb := bottomPass bottom s1 in
         (forall k, (k <= clock sb)%nat -> stop k = false) /\
         length (surface sb) =
           (length (surface s1) + Z.to_nat (rw bottom))%nat) /\
    (forall s1, paintMainBlock main s = Some (Next s1) ->
       hasFlag f BottomBarFlag = true ->
       (stop (clock (bottomPass bottom s1)) = true ->
        s' = tick (bottomPass bottom s1) /\
        f' = m_paintFlags (widget s1)) /\
       (stop (clock (bottomPass bottom s1)) = false ->
        hasFlag f' BottomBarFlag = false)).
Proof.
  intros Hmono Hbase.
  unfold onPaintSurfaceInBgThread, paintMainBlock.
  destruct (hasFlag (m_paintFlags (widget s)) MainAreaFlag) eqn:Hm.
  - destruct (paintMainRows_spec Hmono main (Z.max 1 (rw main - 1))
                (Z.max 1 (rh main - 1)) (Z.to_nat (rh main)) 0 s)
      as (sm & Hsm & Hf & Hcl & Hlen).
    fold (mainPass main s) in Hsm. rewrite Hsm.
    unfold readStop.
    destruct (stop (clock sm)) eqn:Hs.
    + (* cancelled during the main area *)
      eexists; split; [reflexivity|]. simpl. rewrite Hf.
      split; [congruence|]. split; [auto|].
      split.
      { intros _. exists sm. split; [reflexivity|].
        split; [auto|]. split; congruence. }
      split; [congruence|].
      intros s1 H; discriminate.
    + (* the main area is complete *)
      set (s1 := toggleFlag
                   {| widget := widget sm; surface := surface sm;
                      clock := S (clock sm) |} MainAreaFlag).
      assert (E1 : m_paintFlags (widget s1)
                   = Z.lxor (m_paintFlags (widget s)) MainAreaFlag)
        by (unfold s1; simpl; now rewrite Hf).
      destruct (toggle_main (m_paintFlags (widget s))) as [T1 T2].
      rewrite Hm in T1; simpl in T1.
      destruct (bottomBlock_spec Hmono Hbase main bottom alpha s1)
        as (Bm & Bclean & Bstop & Bfull & Bdone).
      rewrite E1 in Bm, Bclean, Bstop, Bfull, Bdone.
      rewrite T1 in Bm. rewrite T2 in Bclean, Bstop, Bfull, Bdone.
      fold s1.
      exists (match paintBottomBlock bottom s1 with
              | Return s => s
              | Next s =>
                  ColorSelector_onPaintSurfaceInBgThread svc stop
                    s main bottom alpha
              end).
      split; [destruct (paintBottomBlock bottom s1); reflexivity|]. cbv zeta.
      split; [congruence|]. split; [exact Bclean|].
      split.
      { intros _. exists sm. split; [reflexivity|].
        split; [congruence|]. split; [auto|].
        intros _. split; [now apply never_stopped|].
        apply Hlen; reflexivity. }
      split.
      { intros Hb Hb'. exists s1. split; [reflexivity|].
        exact (Bdone Hb Hb'). }
      intros s1' H Hb. injection H as <-.
      split; [|exact (Bfull Hb)].
      intros Hs'. destruct (Bstop Hb Hs') as [R1 R2].
      split; [exact R1|]. rewrite R2. exact (eq_sym E1).
  - destruct (bottomBlock_spec Hmono Hbase main bottom alpha s)
      as (Bm & Bclean & Bstop & Bfull & Bdone).
    exists (match paintBottomBlock bottom s with
            | Return s => s
            | Next s =>
                ColorSelector_onPaintSurfaceInBgThread svc stop
                  s main bottom alpha
            end).
    split; [destruct (paintBottomBlock bottom s); reflexivity|]. cbv zeta.
    split; [congruence|]. split; [exact Bclean|].
    split; [congruence|].
    split.
    { intros Hb Hb'. exists s. split; [reflexivity|].
      exact (Bdone Hb Hb'). }
    intros s1' H Hb. injection H as <-.
    split; [exact (Bstop Hb)|exact (Bfull Hb)].
Qed.

(** ** Angles and distances: the real analysis behind the round trip *)

Lemma sin_between (x : R) : 0 <= x -> - x <= sin x <= x.
Proof.
  intros [P|Z].
  - pose proof (sin_lt_x x P).
    pose proof (SIN_bound x) as [L U].
    pose proof PI_RGT_0. pose proof PI2_3_2.
    split; [|lra].
    destruct (Rle_dec x PI).
    + assert (0 <= sin x) by (apply sin_ge_0; lra). lra.
    + lra.
  - subst x. rewrite sin_0. lra.
Qed.

Lemma abs_sin_le (x : R) : Rabs (sin x) <= Rabs x.
Proof.
  destruct (Rle_dec 0 x) as [P|N].
  - pose proof (sin_between x P).
    rewrite (Rabs_pos_eq x P). apply Rabs_le. lra.
  - pose proof (sin_between (- x) ltac:(lra)) as H.
    rewrite sin_neg in H.
    rewrite (Rabs_left x) by lra. apply Rabs_le. lra.
Qed.

Lemma cos_lipschitz (p q : R) : Rabs (cos p - cos q) <= Rabs (p - q).
Proof.
  rewrite form2.
  rewrite !Rabs_mult.
  pose proof (abs_sin_le ((p - q) / 2)) as H1.
  pose proof (SIN_bound ((p + q) / 2)) as [L U].
  assert (H2 : Rabs (sin ((p + q) / 2)) <= 1) by (apply Rabs_le; lra).
  assert (H3 : Rabs (-2) = 2) by (unfold Rabs; destruct (Rcase_abs _); lra).
  assert (H4 : Rabs ((p - q) / 2) = Rabs (p - q) / 2).
  { unfold Rdiv. rewrite Rabs_mult. f_equal.
    unfold Rabs; destruct (Rcase_abs _); lra. }
  rewrite H3. rewrite H4 in H1.
  pose proof (Rabs_pos (sin ((p - q) / 2))).
  pose proof (Rabs_pos (sin ((p + q) / 2))).
  nra.
Qed.

Lemma sin_lipschitz (p q : R) : Rabs (sin p - sin q) <= Rabs (p - q).
Proof.
  rewrite form4.
  rewrite !Rabs_mult.
  pose proof (abs_sin_le ((p - q) / 2)) as H1.
  pose proof (COS_bound ((p + q) / 2)) as [L U].
  assert (H2 : Rabs (cos ((p + q) / 2)) <= 1) by (apply Rabs_le; lra).
  assert (H3 : Rabs 2 = 2) by (unfold Rabs; destruct (Rcase_abs _); lra).
  assert (H4 : Rabs ((p - q) / 2) = Rabs (p - q) / 2).
  { unfold Rdiv. rewrite Rabs_mult. f_equal.
    unfold Rabs; destruct (Rcase_abs _); lra. }
  rewrite H3. rewrite H4 in H1.
  pose proof (Rabs_pos (sin ((p - q) / 2))).
  pose proof (Rabs_pos (cos ((p + q) / 2))).
  nra.
Qed.

(** The point [(x, y)] in polar form: its distance from the origin times
    the cosine and sine of [atan2 y x]. *)
Lemma polar_of_ratio (x y : R) :
  0 < x ->
  sqrt (x * x + y * y) * (1 / sqrt (1 + (y / x)²)) = x /\
  sqrt (x * x + y * y) * ((y / x) / sqrt (1 + (y / x)²)) = y.
Proof.
  intros Hx.
  assert (E : sqrt (1 + (y / x)²) = sqrt (x * x + y * y) / x).
  { apply sqrt_lem_1.
    - unfold Rsqr. nra.
    - apply Rmult_le_pos; [apply sqrt_pos|left; now apply Rinv_0_lt_compat].
    - unfold Rdiv.
      replace (sqrt (x * x + y * y) * / x * (sqrt (x * x + y * y) * / x))
        with ((sqrt (x * x + y * y) * sqrt (x * x + y * y)) * (/ x * / x))
        by ring.
      rewrite sqrt_sqrt by nra.
      unfold Rsqr. field. lra. }
  assert (D : 0 < sqrt (x * x + y * y)) by (apply sqrt_lt_R0; nra).
  rewrite E. split; field; lra.
Qed.

Lemma atan2_polar (x y : R) :
  let d := sqrt (x * x + y * y) in
  d * cos (atan2 y x) = x /\ d * sin (atan2 y x) = y.
Proof.
  intros d. unfold atan2.
  destruct (Rlt_dec 0 x) as [Hx|Hx].
  - rewrite cos_atan, sin_atan. now apply polar_of_ratio.
  - destruct (Rlt_dec x 0) as [Hx'|Hx'].
    + assert (Hd : d = sqrt ((- x) * (- x) + (- y) * (- y))).
      { unfold d. f_equal. ring. }
      assert (Hr : y / x = (- y) / (- x)) by (field; lra).
      destruct (polar_of_ratio (- x) (- y) ltac:(lra)) as [P1 P2].
      rewrite <- Hd, <- Hr in P1, P2.
      destruct (Rle_dec 0 y).
      * rewrite neg_cos, neg_sin, cos_atan, sin_atan. split; lra.
      * unfold Rminus.
        replace (atan (y / x) + - PI) with (- (- atan (y / x) + PI)) by ring.
        rewrite cos_neg, sin_neg, neg_cos, neg_sin, cos_neg, sin_neg.
        rewrite cos_atan, sin_atan. split; lra.
    + assert (x = 0) by lra. subst x.
      assert (Hd : d = Rabs y).
      { unfold d. replace (0 * 0 + y * y) with (Rsqr y) by (unfold Rsqr; ring).
        apply sqrt_Rsqr_abs. }
      rewrite Hd.
      destruct (Rlt_dec 0 y) as [Hy|Hy].
      * rewrite cos_PI2, sin_PI2, Rabs_pos_eq by lra. split; ring.
      * destruct (Rlt_dec y 0) as [Hy'|Hy'].
        -- replace (- PI / 2) with (- (PI / 2)) by lra.
           rewrite cos_neg, sin_neg, cos_PI2, sin_PI2.
           rewrite Rabs_left by lra. split; ring.
        -- assert (y = 0) by lra. subst y.
           rewrite Rabs_R0. split; ring.
Qed.

(** A whole number of turns changes neither cosine nor sine. *)
Lemma cos_sin_turn (x : R) (m : Z) :
  (0 <= m)%Z ->
  cos (x + 2 * IZR m * PI) = cos x /\ sin (x + 2 * IZR m * PI) = sin x.
Proof.
  intros Hm.
  rewrite <- (Z2Nat.id m Hm), <- INR_IZR_INZ.
  split; [apply cos_period|apply sin_period].
Qed.

(** ** From the picked colour back to a position *)

Lemma first_slot (e : HarmonyEntry) :
  In e harmonies ->
  array_get (hues e) 0 = Some 0%Z /\ array_get (sats e) 0 = Some 100%Z /\
  (1 <= n e)%Z.
Proof.
  unfold harmonies; simpl; intros He.
  repeat (destruct He as [<-|He]; [repeat split; simpl; lia|]).
  tauto.
Qed.

(** Harmony 0 of a selection is the selection itself, its hue taken back to
    the frame of the wheel. *)
Lemma harmony_0_of_selection (w : ColorWheel) (h s v : R) (a : Z) :
  0 <= h < 360 -> 0 <= s <= 1 ->
  getColorInHarmony (set_color w (HsvColor h s v a)) 0 =
  Some (HsvColor (convertHueAngle (m_colorModel w) h (-1)) s v 255).
Proof.
  intros Hh Hs.
  destruct (harmony_entry (m_harmony w)) as (e & He & Hok).
  pose proof (array_get_some_range _ _ _ He) as [_ Hin].
  destruct (first_slot e Hin) as (H0 & S0 & Hn).
  rewrite (getColorInHarmony_eq _ 0 e 0 100); auto;
    try (rewrite clampZ_id by lia; assumption).
  simpl.
  pose proof (convertHueAngle_range (m_colorModel w) h (-1) Hh).
  rewrite Rplus_0_r, fmod_small by assumption.
  replace (s * 100 / 100) with s by lra.
  now rewrite clampR_id.
Qed.

(** The continuous hue on the wheel is the angle in whole degrees, turned by
    30 degrees. *)
Lemma wheelAngleHue_continuous (w : ColorWheel) (u v : Z) :
  m_discrete w = false ->
  let deg := trunc (180 * atan2 (IZR (- v)) (IZR u) / PI) in
  exists m, (0 <= m <= 1)%Z /\
    (wheelAngleHue w u v = deg + 30 + 360 * m)%Z /\
    (0 <= wheelAngleHue w u v < 360)%Z.
Proof.
  intros Hd deg.
  pose proof (degrees_bound (IZR (- v)) (IZR u)) as B. fold deg in B.
  unfold wheelAngleHue. rewrite Hd. fold deg.
  rewrite Z.rem_mod_nonneg by lia.
  destruct (Z_lt_le_dec (deg + 180 + 180 + 30) 360) as [L|G].
  - exists 1%Z. rewrite Z.mod_small by lia. lia.
  - exists 0%Z.
    replace (deg + 180 + 180 + 30)%Z with (deg + 30 + 1 * 360)%Z by lia.
    rewrite Z.mod_add by lia.
    rewrite Z.mod_small by lia. lia.
Qed.

(** The hue warp, stored in an [int] and taken back: at most one degree is
    lost, and none outside RYB. *)
Lemma warp_int_round_trip (model : ColorModel) (A : Z) :
  (0 <= A < 360)%Z ->
  let B := trunc (convertHueAngle model (IZR A) 1) in
  exists delta,
    (0 <= delta <= 1)%Z /\ (model <> RYB -> delta = 0%Z) /\
    (0 <= B < 360)%Z /\ (0 <= A - delta)%Z /\
    convertHueAngle model (IZR B) (-1) = IZR (A - delta).
Proof.
  intros HA B.
  assert (HAr : 0 <= IZR A < 360)
    by (split; [apply IZR_le|apply IZR_lt]; lia).
  destruct model.
  - exists 0%Z. subst B.
    rewrite !convertHueAngle_identity by discriminate.
    rewrite trunc_IZR, Z.sub_0_r.
    repeat split; auto; lia.
  - destruct (convertHueAngle_forward (IZR A) HAr) as (F1 & F2 & F3 & F4).
    destruct (Z_lt_le_dec A 120) as [C1|C1].
    { (* red to yellow: the half of an odd hue is cut *)
      assert (EB : B = (A / 2)%Z).
      { subst B. rewrite F1 by (apply IZR_lt; lia).
        pose proof (Z.mul_div_le A 2 ltac:(lia)) as L.
        pose proof (Z.mul_succ_div_gt A 2 ltac:(lia)) as G.
        apply trunc_nonneg; [|lra].
        assert (IZR (2 * (A / 2)) <= IZR A) by (apply IZR_le; lia).
        assert (IZR A + 1 <= IZR (2 * Z.succ (A / 2)))
          by (rewrite <- plus_IZR; apply IZR_le; lia).
        rewrite mult_IZR in H. rewrite mult_IZR, succ_IZR in H0. lra. }
      exists (A mod 2)%Z.
      pose proof (Z.mod_pos_bound A 2 ltac:(lia)).
      pose proof (Z.div_mod A 2 ltac:(lia)) as DM.
      assert (0 <= A / 2 < 60)%Z
        by (split; [apply Z.div_pos; lia|apply Z.div_lt_upper_bound; lia]).
      rewrite EB.
      split; [lia|]. split; [congruence|]. split; [lia|]. split; [lia|].
      assert (Hr : 0 <= IZR (A / 2) < 360)
        by (split; [apply IZR_le|apply IZR_lt]; lia).
      destruct (convertHueAngle_backward _ Hr) as (B1 & _).
      rewrite B1 by (apply IZR_lt; lia).
      rewrite <- mult_IZR. f_equal. lia. }
    destruct (Z_lt_le_dec A 180) as [C2|C2].
    { assert (EB : B = (A - 60)%Z).
      { subst B. rewrite F2 by (split; [apply IZR_le|apply IZR_lt]; lia).
        rewrite <- minus_IZR. apply trunc_IZR. }
      exists 0%Z. rewrite EB, Z.sub_0_r.
      split; [lia|]. split; [congruence|]. split; [lia|]. split; [lia|].
      assert (Hr : 0 <= IZR (A - 60) < 360)
        by (split; [apply IZR_le|apply IZR_lt]; lia).
      destruct (convertHueAngle_backward _ Hr) as (_ & B2 & _).
      rewrite B2 by (split; [apply IZR_le|apply IZR_lt]; lia).
      rewrite minus_IZR. lra. }
    destruct (Z_lt_le_dec A 240) as [C3|C3].
    { assert (EB : B = (120 + 2 * (A - 180))%Z).
      { subst B. rewrite F3 by (split; [apply IZR_le|apply IZR_lt]; lia).
        rewrite <- minus_IZR, <- mult_IZR, <- plus_IZR. apply trunc_IZR. }
      exists 0%Z. rewrite EB, Z.sub_0_r.
      split; [lia|]. split; [congruence|]. split; [lia|]. split; [lia|].
      assert (Hr : 0 <= IZR (120 + 2 * (A - 180)) < 360)
        by (split; [apply IZR_le|apply IZR_lt]; lia).
      destruct (convertHueAngle_backward _ Hr) as (_ & _ & B3 & _).
      rewrite B3 by (split; [apply IZR_le|apply IZR_lt]; lia).
      rewrite plus_IZR, mult_IZR, minus_IZR. lra. }
    assert (EB : B = A).
    { subst B. rewrite F4 by (apply IZR_le; lia). apply trunc_IZR. }
    exists 0%Z. rewrite EB, Z.sub_0_r.
    split; [lia|]. split; [congruence|]. split; [lia|]. split; [lia|].
    destruct (convertHueAngle_backward _ HAr) as (_ & _ & _ & B4).
    apply B4. apply IZR_le; lia.
  - exists 0%Z. subst B.
    rewrite !convertHueAngle_identity by discriminate.
    rewrite trunc_IZR, Z.sub_0_r.
    repeat split; auto; lia.
Qed.

(** How far a placed coordinate is from the picked one, given how far the
    placed distance [rS] and angle [b] are from the picked [d] and [a]. *)
Lemma placed_coordinate_error (d rS a b e1 e2 : R) :
  0 <= d -> Rabs (rS - d) < e1 -> Rabs (b - a) <= e2 ->
  Rabs (IZR (trunc (cos b * rS)) - d * cos a) < 1 + e1 + d * e2 /\
  Rabs (IZR (trunc (- sin b * rS)) - - (d * sin a)) < 1 + e1 + d * e2.
Proof.
  intros Hd H1 H2.
  pose proof (cos_lipschitz b a) as Lc.
  pose proof (sin_lipschitz b a) as Ls.
  pose proof (COS_bound b) as [C1 C2].
  pose proof (SIN_bound b) as [S1 S2].
  assert (Hc : Rabs (cos b) <= 1) by (apply Rabs_le; lra).
  assert (Hs : Rabs (sin b) <= 1) by (apply Rabs_le; lra).
  pose proof (Rabs_pos (rS - d)) as P1.
  pose proof (Rabs_pos (cos b)) as P2.
  pose proof (Rabs_pos (sin b)) as P3.
  split.
  - pose proof (trunc_abs_error (cos b * rS)) as T.
    replace (IZR (trunc (cos b * rS)) - d * cos a)
      with ((IZR (trunc (cos b * rS)) - cos b * rS)
            + (cos b * (rS - d) + d * (cos b - cos a))) by ring.
    eapply Rle_lt_trans; [apply Rabs_triang|].
    assert (Rabs (cos b * (rS - d) + d * (cos b - cos a))
            <= Rabs (rS - d) + d * e2).
    { eapply Rle_trans; [apply Rabs_triang|].
      rewrite !Rabs_mult, (Rabs_pos_eq d Hd). nra. }
    lra.
  - pose proof (trunc_abs_error (- sin b * rS)) as T.
    replace (IZR (trunc (- sin b * rS)) - - (d * sin a))
      with ((IZR (trunc (- sin b * rS)) - - sin b * rS)
            + (- sin b * (rS - d) + d * (sin a - sin b))) by ring.
    eapply Rle_lt_trans; [apply Rabs_triang|].
    assert (Rabs (- sin b * (rS - d) + d * (sin a - sin b))
            <= Rabs (rS - d) + d * e2).
    { eapply Rle_trans; [apply Rabs_triang|].
      rewrite !Rabs_mult, (Rabs_pos_eq d Hd), Rabs_Ropp.
      rewrite (Rabs_minus_sym (sin a) (sin b)). nra. }
    lra.
Qed.




(** The painter puts the indicator of harmony [i] at the centre of the
    wheel plus [indicatorOffset] of that harmony colour, followed by its
    swatch. *)
Lemma paintHarmonies_first (w : ColorWheel) (rc : Rect) (k boxsize : Z)
    (cnt : nat) (i : Z) :
  exists color0 white fill rest,
    getColorInHarmony w i = Some color0 /\
    paintHarmonies w rc k boxsize (S cnt) i =
      Some (ColorIndicator
              (addPoint (Rect_center (m_wheelBounds w))
                        (indicatorOffset w color0)) white
            :: FillRect fill
                 (mkRect (rx rc + rw rc - (k - i) * boxsize)
                         (ry rc + rh rc - boxsize) boxsize boxsize)
            :: rest).
Proof.
  assert (Htotal : forall c j, exists ops,
            paintHarmonies w rc k boxsize c j = Some ops).
  { induction c as [|c IH]; intros j; simpl; [eauto|].
    destruct (getColorInHarmony_total w j) as [c0 ->].
    destruct (IH (j + 1)%Z) as [ops ->]. eauto. }
  destruct (getColorInHarmony_total w i) as [color0 H0].
  destruct (Htotal cnt (i + 1)%Z) as [rest Hrest].
  exists color0. do 2 eexists. exists rest.
  split; [exact H0|].
  simpl paintHarmonies. rewrite H0, Hrest. reflexivity.
Qed.
(** The picked saturation, as a distance, is less than a hundredth of the
    radius short of the picked distance. *)
Lemma percent_distance (r d : R) :
  0 < r -> 0 <= d <= r ->
  let sat := trunc (100 * d / r) in
  (0 <= sat <= 100)%Z /\ Rabs (r * (IZR sat / 100) - d) < r / 100.
Proof.
  intros Hr Hd sat.
  assert (Hx : 0 <= 100 * d / r <= 100).
  { split.
    - apply Rmult_le_reg_r with r; [exact Hr|].
      unfold Rdiv. rewrite Rmult_assoc, Rinv_l by lra. lra.
    - apply Rmult_le_reg_r with r; [exact Hr|].
      unfold Rdiv. rewrite Rmult_assoc, Rinv_l by lra. lra. }
  split; [apply trunc_between; simpl; lra|].
  destruct (trunc_bound_nonneg _ (proj1 Hx)) as [[B0 B1] B2].
  fold sat in B0, B1, B2.
  assert (E : d = r * (100 * d / r) / 100) by (field; lra).
  apply Rabs_def1.
  - assert (r * IZR sat <= r * (100 * d / r))
      by (apply Rmult_le_compat_l; lra).
    lra.
  - assert (r * (100 * d / r) < r * (IZR sat + 1))
      by (apply Rmult_lt_compat_l; lra).
    lra.
Qed.

(** The hue on the wheel, before the warp: the angle in whole degrees,
    turned by 30 degrees, up to whole turns, and in discrete mode moved by
    at most 15 degrees to a step of 30. *)
Lemma wheelAngleHue_error (w : ColorWheel) (u v : Z) :
  let deg := trunc (180 * atan2 (IZR (- v)) (IZR u) / PI) in
  exists m e,
    (0 <= m <= 1)%Z /\ (-15 <= e <= 15)%Z /\
    (m_discrete w = false -> e = 0%Z) /\
    (wheelAngleHue w u v = deg + 30 + e + 360 * m)%Z /\
    (0 <= wheelAngleHue w u v < 360)%Z.
Proof.
  intros deg.
  destruct (m_discrete w) eqn:Hd.
  - destruct (wheelAngleHue_discrete w u v Hd) as [Hk HA].
    fold deg in Hk, HA.
    pose proof (degrees_bound (IZR (- v)) (IZR u)) as B. fold deg in B.
    set (q := ((deg + 180 + 180 + 30 + 15) / 30)%Z) in *.
    assert (Hq : (30 * q <= deg + 180 + 180 + 30 + 15 < 30 * q + 30)%Z).
    { unfold q.
      pose proof (Z.div_mod (deg + 180 + 180 + 30 + 15) 30 ltac:(lia)).
      pose proof (Z.mod_pos_bound (deg + 180 + 180 + 30 + 15) 30 ltac:(lia)).
      lia. }
    assert (Hq12 : (7 <= q <= 19)%Z) by lia.
    destruct (Z_lt_le_dec q 12) as [L|G].
    + exists 1%Z, (30 * q - deg - 390)%Z.
      rewrite HA, Z.mod_small by lia.
      repeat split; try lia; try discriminate.
    + exists 0%Z, (30 * q - deg - 390)%Z.
      rewrite HA.
      replace (q mod 12)%Z with (q - 12)%Z.
      * repeat split; try lia; try discriminate.
      * replace q with (q - 12 + 1 * 12)%Z at 2 by lia.
        rewrite Z.mod_add, Z.mod_small by lia. reflexivity.
  - destruct (wheelAngleHue_continuous w u v Hd) as (m & Hm & HA & Hr).
    fold deg in HA.
    exists m, 0%Z. repeat split; try lia.
Qed.

(** The saturation picked at distance [d], as a fraction: in whole per
    cent in continuous mode, snapped to a step of a fifth in discrete
    mode. *)
Lemma wheelSat_error (w : ColorWheel) (d : R) :
  0 < m_wheelRadius w -> 0 <= d <= m_wheelRadius w ->
  let S := clampR (IZR (wheelSat w d) / 100) 0 1 in
  0 <= S <= 1 /\
  (m_discrete w = false -> Rabs (m_wheelRadius w * S - d)
                           < m_wheelRadius w / 100) /\
  Rabs (m_wheelRadius w * S - d) < m_wheelRadius w / 5.
Proof.
  intros Hr Hd S.
  set (r := m_wheelRadius w) in *.
  split; [apply clampR_bounds; lra|].
  destruct (m_discrete w) eqn:Hdisc.
  - split; [discriminate|].
    set (x := 120 * d / r).
    assert (Hx : 0 <= x <= 120).
    { unfold x. split.
      - apply Rmult_le_reg_r with r; [exact Hr|].
        unfold Rdiv. rewrite Rmult_assoc, Rinv_l by lra. lra.
      - apply Rmult_le_reg_r with r; [exact Hr|].
        unfold Rdiv. rewrite Rmult_assoc, Rinv_l by lra. lra. }
    assert (Ed : d = r * x / 120) by (unfold x; field; lra).
    assert (HS : S = clampR (IZR (Zfloor (x / 20) * 20) / 100) 0 1).
    { unfold S, wheelSat. rewrite Hdisc. fold r x.
      now rewrite quot_20_floor by lra. }
    pose proof (Zfloor_bound (x / 20)) as [F1 F2].
    assert (Hq : (0 <= Zfloor (x / 20) <= 6)%Z).
    { split.
      - apply Zfloor_lub; simpl; lra.
      - apply le_IZR. lra. }
    set (q := Zfloor (x / 20)) in *.
    assert (Q0 : 0 <= IZR q) by (apply IZR_le; lia).
    destruct (Z.eq_dec q 6) as [E|E].
    + assert (HS1 : S = 1).
      { rewrite HS, E. simpl. unfold clampR.
        destruct (Rlt_dec (120 / 100) 0); [lra|].
        destruct (Rlt_dec 1 (120 / 100)); lra. }
      rewrite E in F1.
      assert (x = 120) by lra.
      rewrite HS1. apply Rabs_def1; nra.
    + assert (Q5 : IZR q <= 5) by (apply IZR_le; lia).
      assert (HSq : S = IZR q / 5).
      { rewrite HS, mult_IZR. rewrite clampR_id by lra. lra. }
      rewrite HSq. apply Rabs_def1; nra.
  - destruct (percent_distance r d Hr Hd) as [Hsat HrS].
    assert (HSs : S = IZR (trunc (100 * d / r)) / 100).
    { unfold S, wheelSat. rewrite Hdisc. fold r.
      destruct Hsat as [S0 S1]. apply IZR_le in S0, S1.
      apply clampR_id. lra. }
    rewrite HSs.
    split; [intros _; exact HrS|].
    apply Rlt_trans with (r / 100); [exact HrS|lra].
Qed.

(** C1 (amended): under the STANDARD and RYB models, for a position whose
    offset (u,v) from the centre is at distance d <= radius and at which
    [getMainAreaColor] picks no harmony swatch, picking the colour and
    placing its indicator gives a point whose coordinates are each less
    than 1 + radius/100 + d*PI/90 away from u and v with discrete mode off
    (less than 1 + radius/100 + d*PI/180 under STANDARD): one pixel for the
    rounding of the position, a hundredth of the radius for the saturation
    kept in whole per cent, and one degree of arc (two under RYB) for the
    hue kept in whole degrees.  With discrete mode on they are less than
    1 + radius/5 + d*17*PI/180 away: the saturation is snapped to steps of
    a fifth and the hue to steps of 30 degrees. *)
Theorem pick_then_place_error (w : ColorWheel) (_u umax _v vmax : Z)
    (c : Color) (w' : ColorWheel) :
  m_colorModel w <> NORMAL_MAP ->
  0 < m_wheelRadius w ->
  getMainAreaColor w _u umax _v vmax = Some (c, w') ->
  m_harmonyPicked w' = false ->
  let u := (_u - umax ÷ 2)%Z in
  let v := (_v - vmax ÷ 2)%Z in
  let d := sqrt (IZR (u * u + v * v)) in
  d <= m_wheelRadius w ->
  exists x y,
    pickThenPlace w _u umax _v vmax = Some (x, y) /\
    (m_discrete w = false ->
     Rabs (IZR x - IZR u) < 1 + m_wheelRadius w / 100 + d * (PI / 90) /\
     Rabs (IZR y - IZR v) < 1 + m_wheelRadius w / 100 + d * (PI / 90) /\
     (m_colorModel w = STANDARD ->
      Rabs (IZR x - IZR u) < 1 + m_wheelRadius w / 100 + d * (PI / 180) /\
      Rabs (IZR y - IZR v) < 1 + m_wheelRadius w / 100 + d * (PI / 180))) /\
    (m_discrete w = true ->
     Rabs (IZR x - IZR u) < 1 + m_wheelRadius w / 5 + d * (17 * PI / 180) /\
     Rabs (IZR y - IZR v) < 1 + m_wheelRadius w / 5 + d * (17 * PI / 180)).
Proof.
  intros Hmodel Hr Hget Hp u v d Hin.
  pose proof PI_RGT_0 as HPI.
  set (r := m_wheelRadius w) in *.
  assert (Hd0 : 0 <= d) by apply sqrt_pos.
  pose proof (wheelDistance_inside w u v Hin) as Hdist. fold d in Hdist.
  (* the picked colour *)
  pose proof (getMainAreaColor_unpicked w _u umax _v vmax c w' Hget Hp) as Ec.
  fold u v in Ec.
  destruct (getMainAreaColor_total w _u umax _v vmax) as (c0 & b0 & Htot).
  assert (Ew : w' = set_harmonyPicked w b0) by congruence.
  destruct (wheelAngleHue_error w u v) as (m & e & Hm & He & He0 & HA & HArange).
  set (deg := trunc (180 * atan2 (IZR (- v)) (IZR u) / PI)) in *.
  set (A := wheelAngleHue w u v) in *.
  destruct (warp_int_round_trip (m_colorModel w) A HArange)
    as (delta & Hdelta & Hstd & HB & HAd & Hback).
  change (trunc (convertHueAngle (m_colorModel w) (IZR A) 1))
    with (wheelHue w u v) in HB, Hback.
  destruct (wheelSat_error w d Hr (conj Hd0 Hin)) as (HS & Hcont & Hsnap).
  fold r in Hcont, Hsnap.
  set (S := clampR (IZR (wheelSat w d) / 100) 0 1) in *.
  assert (Hc : c =
               HsvColor (IZR (wheelHue w u v)) S
                 (if negb (Color.isMask (m_color w))
                  then getHsvValue (m_color w) else 1)
                 (getCurrentAlphaForNewColor svc (m_color w))).
  { rewrite Ec.
    rewrite wheelColor_inside; [|exact Hmodel|rewrite Hdist; exact Hin].
    rewrite Hdist. fold S. now rewrite clampZ_id by lia. }
  (* the colour placed *)
  unfold pickThenPlace. rewrite Hget. cbv beta iota zeta.
  unfold placeSelection. rewrite Hc, Ew.
  rewrite harmony_0_of_selection;
    [|split; [apply IZR_le|apply IZR_lt]; lia|exact HS].
  change (m_colorModel (set_harmonyPicked w b0)) with (m_colorModel w).
  rewrite Hback.
  unfold indicatorOffset.
  change (m_wheelRadius (set_color _ _)) with r.
  simpl getHsvHue. simpl getHsvSaturation.
  set (a := atan2 (IZR (- v)) (IZR u)) in *.
  set (b := PI * (IZR (deg + e - delta)) / 180).
  assert (Eb : PI * (IZR (A - delta) - 30) / 180 = b + 2 * IZR m * PI).
  { unfold b. rewrite HA.
    rewrite ?minus_IZR, ?plus_IZR, ?mult_IZR. field. }
  rewrite Eb.
  destruct (cos_sin_turn b m ltac:(lia)) as [-> ->].
  (* the picked offset in polar form *)
  destruct (atan2_polar (IZR u) (IZR (- v))) as [Pu Pv].
  fold a in Pu, Pv.
  assert (Ed : sqrt (IZR u * IZR u + IZR (- v) * IZR (- v)) = d).
  { unfold d. f_equal. rewrite plus_IZR, !mult_IZR, opp_IZR. ring. }
  rewrite Ed in Pu, Pv.
  assert (Ev : IZR v = - (d * sin a)) by (rewrite Pv, opp_IZR; ring).
  (* the error of the angle *)
  assert (D0 : 0 <= IZR delta <= 1) by (split; apply IZR_le; lia).
  assert (E15 : -15 <= IZR e <= 15) by (split; apply IZR_le; lia).
  pose proof (trunc_abs_error (180 * a / PI)) as T. fold deg in T.
  apply Rabs_def2 in T.
  assert (Eba : b - a
                = PI / 180 * (IZR deg - 180 * a / PI)
                  + PI / 180 * (IZR e - IZR delta)).
  { unfold b. rewrite minus_IZR, plus_IZR. field. lra. }
  rewrite !(Rmult_assoc _ r S).
  eexists _, _. split; [reflexivity|].
  rewrite <- Pu, Ev.
  split.
  - intros Hdisc.
    assert (e = 0%Z) by auto. subst e.
    assert (Hang : Rabs (b - a) <= (1 + IZR delta) * (PI / 180)).
    { rewrite Eba. apply Rabs_le. nra. }
    destruct (placed_coordinate_error d (r * S) a b (r / 100)
                ((1 + IZR delta) * (PI / 180)) Hd0 (Hcont Hdisc) Hang)
      as [Ex Ey].
    assert (Hle : d * ((1 + IZR delta) * (PI / 180)) <= d * (PI / 90)).
    { apply Rmult_le_compat_l; [exact Hd0|].
      assert (0 <= (1 - IZR delta) * PI) by (apply Rmult_le_pos; lra).
      lra. }
    split; [lra|]. split; [lra|].
    intros Hs.
    assert (delta = 0%Z) by (apply Hstd; congruence). subst delta.
    replace ((1 + 0) * (PI / 180)) with (PI / 180) in Ex, Ey by ring.
    split; assumption.
  - intros Hdisc.
    assert (Hang : Rabs (b - a) <= 17 * PI / 180).
    { rewrite Eba. apply Rabs_le. nra. }
    destruct (placed_coordinate_error d (r * S) a b (r / 5)
                (17 * PI / 180) Hd0 Hsnap Hang) as [Ex Ey].
    split; assumption.
Qed.

(** ** Positions on the horizontal axis, right of the centre *)

Lemma atan2_axis (x : R) : 0 < x -> atan2 0 x = 0.
Proof.
  intros H; unfold atan2. destruct (Rlt_dec 0 x); [|lra].
  replace (0 / x) with 0 by (unfold Rdiv; ring). apply atan_0.
Qed.

Lemma wheelDistance_axis (w : ColorWheel) (u : Z) :
  (0 <= u)%Z -> IZR u <= m_wheelRadius w -> wheelDistance w u 0 = IZR u.
Proof.
  intros Hu Hr.
  assert (E : sqrt (IZR (u * u + 0 * 0)) = IZR u).
  { rewrite Z.add_0_r, mult_IZR. apply sqrt_square. now apply IZR_le. }
  rewrite wheelDistance_inside; rewrite E; auto.
Qed.

Lemma wheelAngleHue_axis (w : ColorWheel) (u : Z) :
  (0 < u)%Z -> wheelAngleHue w u 0 = 30%Z.
Proof.
  intros Hu. unfold wheelAngleHue.
  change (IZR (- 0)) with 0.
  rewrite atan2_axis by (now apply IZR_lt).
  replace (180 * 0 / PI) with 0 by (unfold Rdiv; ring).
  rewrite trunc_0. destruct (m_discrete w); reflexivity.
Qed.

(** The colour picked on the axis. *)
Lemma wheelColor_axis (w : ColorWheel) (u : Z) :
  (0 < u)%Z -> IZR u <= m_wheelRadius w ->
  m_colorModel w <> NORMAL_MAP ->
  wheelColor w u 0 =
  HsvColor
    (IZR (clampZ (trunc (convertHueAngle (m_colorModel w) 30 1)) 0 360))
    (clampR (IZR (wheelSat w (IZR u)) / 100) 0 1)
    (if negb (Color.isMask (m_color w)) then getHsvValue (m_color w) else 1)
    (getCurrentAlphaForNewColor svc (m_color w)).
Proof.
  intros Hu Hr Hm.
  pose proof (wheelDistance_axis w u ltac:(lia) Hr) as Hd.
  rewrite wheelColor_inside; [|exact Hm|rewrite Hd; exact Hr].
  rewrite Hd. unfold wheelHue. rewrite wheelAngleHue_axis by exact Hu.
  reflexivity.
Qed.

(** The indicator of a colour whose hue sits on the axis. *)
Lemma indicatorOffset_axis (w : ColorWheel) (s v : R) (a : Z) :
  indicatorOffset w (HsvColor 30 s v a) =
  (trunc (m_wheelRadius w * s), 0%Z).
Proof.
  unfold indicatorOffset; simpl getHsvHue; simpl getHsvSaturation.
  replace (PI * (30 - 30) / 180) with 0 by (unfold Rdiv; ring).
  rewrite cos_0, sin_0.
  f_equal.
  - f_equal; ring.
  - replace (- 0 * m_wheelRadius w * s) with 0 by ring. apply trunc_0.
Qed.

(** * Further properties of the code *)

(** ** Harmonies: indices and settings out of range *)

(** X1: [getColorInHarmony] clamps its index to the pattern: an index below
    0 gives harmony 0 and an index of [n - 1] or more gives the last
    harmony of the pattern; and whatever the index, the colour it returns
    has a saturation in [0,1], the value of the selection and alpha 255. *)
Theorem getColorInHarmony_index_clamped (w : ColorWheel) (j : Z) :
  exists e c,
    array_get harmonies (clampZ (m_harmony w) 0 Harmony.LAST) = Some e /\
    getColorInHarmony w j = Some c /\
    ((j <= 0)%Z -> getColorInHarmony w 0 = Some c) /\
    ((n e - 1 <= j)%Z -> getColorInHarmony w (n e - 1) = Some c) /\
    0 <= getHsvSaturation c <= 1 /\
    getHsvValue c = getHsvValue (m_color w) /\
    Color.getAlpha c = 255%Z.
Proof.
  destruct (harmony_entry (m_harmony w)) as (e & He & Hok).
  destruct (harmony_sub_entry e j Hok) as (B & hj & sj & Hh & Hs).
  pose proof (getColorInHarmony_eq w j e hj sj He Hh Hs) as Hc.
  exists e. eexists. split; [exact He|]. split; [exact Hc|].
  destruct Hok as (Hn & _).
  split; [|split].
  - intros Hj.
    assert (E : clampZ j 0 (n e - 1) = clampZ 0 0 (n e - 1)).
    { unfold clampZ.
      destruct (Z.ltb_spec j 0), (Z.ltb_spec 0 0), (Z.ltb_spec (n e - 1) j),
        (Z.ltb_spec (n e - 1) 0); lia. }
    rewrite E in Hh, Hs.
    exact (getColorInHarmony_eq w 0 e hj sj He Hh Hs).
  - intros Hj.
    assert (E : clampZ j 0 (n e - 1) = clampZ (n e - 1) 0 (n e - 1)).
    { unfold clampZ.
      destruct (Z.ltb_spec j 0), (Z.ltb_spec (n e - 1) 0),
        (Z.ltb_spec (n e - 1) j), (Z.ltb_spec (n e - 1) (n e - 1)); lia. }
    rewrite E in Hh, Hs.
    exact (getColorInHarmony_eq w (n e - 1) e hj sj He Hh Hs).
  - simpl. split; [apply clampR_bounds; lra|]. split; reflexivity.
Qed.

Lemma clampZ_idem (v lo hi : Z) :
  (lo <= hi)%Z -> clampZ (clampZ v lo hi) lo hi = clampZ v lo hi.
Proof. intros H. apply clampZ_id. now apply clampZ_bounds. Qed.

(** X2: a harmony setting outside the eight patterns is read as the nearest
    one: below 0 the wheel behaves as with NONE (one harmony), above 7 as
    with SQUARE (four harmonies). *)
Theorem harmony_setting_clamped (w : ColorWheel) :
  let w' := set_harmony w (clampZ (m_harmony w) 0 Harmony.LAST) in
  getHarmonies w = getHarmonies w' /\
  (forall j, getColorInHarmony w j = getColorInHarmony w' j) /\
  ((m_harmony w < 0)%Z ->
     getHarmonies w = Some 1%Z /\
     forall j, getColorInHarmony w j
               = getColorInHarmony (set_harmony w Harmony.NONE) j) /\
  ((Harmony.LAST < m_harmony w)%Z ->
     getHarmonies w = Some 4%Z /\
     forall j, getColorInHarmony w j
               = getColorInHarmony (set_harmony w Harmony.SQUARE) j).
Proof.
  intros w'.
  assert (Hidem : clampZ (m_harmony w') 0 Harmony.LAST
                  = clampZ (m_harmony w) 0 Harmony.LAST).
  { unfold w'; simpl. apply clampZ_idem.
    unfold Harmony.LAST, Harmony.SQUARE; lia. }
  assert (Hgen : forall k,
            clampZ k 0 Harmony.LAST = clampZ (m_harmony w) 0 Harmony.LAST ->
            getHarmonies w = getHarmonies (set_harmony w k) /\
            forall j, getColorInHarmony w j
                      = getColorInHarmony (set_harmony w k) j).
  { intros k Hk. unfold getHarmonies, getColorInHarmony. simpl.
    rewrite Hk. split; [reflexivity|]. intros j; reflexivity. }
  split; [apply (Hgen _ Hidem)|]. split; [apply (Hgen _ Hidem)|].
  unfold Harmony.LAST, Harmony.SQUARE, Harmony.NONE in *.
  split; intros H.
  - assert (E : clampZ (m_harmony w) 0 7 = 0%Z).
    { unfold clampZ. destruct (Z.ltb_spec (m_harmony w) 0); lia. }
    destruct (Hgen 0%Z) as [G1 G2]; [now rewrite E|].
    split; [|exact G2].
    unfold getHarmonies, Harmony.LAST, Harmony.SQUARE. now rewrite E.
  - assert (E : clampZ (m_harmony w) 0 7 = 7%Z).
    { unfold clampZ. destruct (Z.ltb_spec (m_harmony w) 0); [lia|].
      destruct (Z.ltb_spec 7 (m_harmony w)); lia. }
    destruct (Hgen 7%Z) as [G1 G2]; [now rewrite E|].
    split; [|exact G2].
    unfold getHarmonies, Harmony.LAST, Harmony.SQUARE. now rewrite E.
Qed.

(** ** Picking a swatch *)

(** Two different swatches share no position. *)
Lemma swatches_disjoint (umax vmax k boxsize i j : Z) (pos : Z * Z) :
  Rect_contains (swatchRect umax vmax k boxsize i) pos = true ->
  Rect_contains (swatchRect umax vmax k boxsize j) pos = true ->
  i = j.
Proof.
  unfold Rect_contains, swatchRect; simpl.
  rewrite !andb_true_iff, !Z.leb_le, !Z.ltb_lt.
  intros (((A1 & A2) & _) & _) (((B1 & B2) & _) & _).
  destruct (Z.lt_trichotomy i j) as [L|[E|G]]; [|exact E|]; exfalso; nia.
Qed.

(** The loop returns the colour of the first swatch that holds the
    position. *)
Lemma pickHarmony_first (w : ColorWheel) pos umax vmax k boxsize (i : Z)
    (c : Color) :
  getColorInHarmony w i = Some c ->
  Rect_contains (swatchRect umax vmax k boxsize i) pos = true ->
  forall cnt i0,
    (i0 <= i < i0 + Z.of_nat cnt)%Z ->
    pickHarmony w pos umax vmax k boxsize cnt i0 =
    Some (Some (HsvColor
                  (convertHueAngle (m_colorModel w) (getHsvHue c) 1)
                  (getHsvSaturation c) (getHsvValue c)
                  (Color.getAlpha (m_color w)))).
Proof.
  intros Hc Hin.
  induction cnt as [|cnt IH]; intros i0 Hi; [lia|].
  simpl pickHarmony.
  destruct (Z.eq_dec i0 i) as [->|Hne].
  - rewrite Hc, Hin. reflexivity.
  - destruct (getColorInHarmony_total w i0) as [c0 ->].
    destruct (Rect_contains (swatchRect umax vmax k boxsize i0) pos) eqn:E.
    + exfalso. apply Hne.
      exact (swatches_disjoint _ _ _ _ _ _ _ E Hin).
    + apply IH. lia.
Qed.

(** A position in swatch [i] picks harmony [i]. *)
Lemma getMainAreaColor_in_swatch (w : ColorWheel) (_u umax _v vmax k i : Z)
    (c : Color) :
  (0 < Color.getAlpha (m_color w))%Z ->
  getHarmonies w = Some k ->
  (0 <= i < k)%Z ->
  Rect_contains
    (swatchRect umax vmax k (Z.min (umax ÷ 10) (vmax ÷ 10)) i) (_u, _v)
    = true ->
  getColorInHarmony w i = Some c ->
  getMainAreaColor w _u umax _v vmax =
    Some (HsvColor (convertHueAngle (m_colorModel w) (getHsvHue c) 1)
            (getHsvSaturation c) (getHsvValue c)
            (Color.getAlpha (m_color w)),
          set_harmonyPicked w true).
Proof.
  intros Ha Hk Hi Hin Hc.
  unfold getMainAreaColor.
  change (m_color (set_harmonyPicked w false)) with (m_color w).
  change (getHarmonies (set_harmonyPicked w false)) with (getHarmonies w).
  rewrite (proj2 (Z.ltb_lt _ _) Ha), Hk, pickHarmony_flag.
  rewrite (pickHarmony_first w (_u, _v) umax vmax k _ i c Hc Hin) by lia.
  reflexivity.
Qed.

(** X3: when the selection is not transparent and the position lies in
    swatch [i] of the [k] harmonies, [getMainAreaColor] returns harmony [i]
    with its hue taken to the display frame and the alpha of the
    selection, and sets [m_harmonyPicked]; no other swatch holds that
    position. *)
Theorem getMainAreaColor_swatch (w : ColorWheel) (_u umax _v vmax k i : Z) :
  (0 < Color.getAlpha (m_color w))%Z ->
  getHarmonies w = Some k ->
  (0 <= i < k)%Z ->
  let boxsize := Z.min (umax ÷ 10) (vmax ÷ 10) in
  Rect_contains (swatchRect umax vmax k boxsize i) (_u, _v) = true ->
  exists c,
    getColorInHarmony w i = Some c /\
    getMainAreaColor w _u umax _v vmax =
      Some (HsvColor (convertHueAngle (m_colorModel w) (getHsvHue c) 1)
              (getHsvSaturation c) (getHsvValue c)
              (Color.getAlpha (m_color w)),
            set_harmonyPicked w true) /\
    forall j, Rect_contains (swatchRect umax vmax k boxsize j) (_u, _v)
              = true -> j = i.
Proof.
  intros Ha Hk Hi boxsize Hin.
  destruct (getColorInHarmony_total w i) as [c Hc].
  exists c. split; [exact Hc|]. split.
  - now apply getMainAreaColor_in_swatch with (k := k) (i := i).
  - intros j Hj. exact (swatches_disjoint _ _ _ _ _ _ _ Hj Hin).
Qed.

(** ** Picking on and around the wheel *)

Lemma wheelDistance_bounds (w : ColorWheel) (u v : Z) :
  0 < m_wheelRadius w -> 0 <= wheelDistance w u v.
Proof.
  intros H; unfold wheelDistance.
  destruct (hasCaptureInMainArea w && ltR (m_wheelRadius w) _);
    [lra|apply sqrt_pos].
Qed.

(** The hue on the wheel is a whole number of degrees in [0,360), before
    and after the hue warp. *)
Lemma wheelAngleHue_range (w : ColorWheel) (u v : Z) :
  (0 <= wheelAngleHue w u v < 360)%Z.
Proof.
  destruct (m_discrete w) eqn:Hd.
  - destruct (wheelAngleHue_discrete w u v Hd) as [Hk ->]. lia.
  - destruct (wheelAngleHue_continuous w u v Hd) as (m & _ & _ & H).
    exact H.
Qed.

Lemma wheelHue_range (w : ColorWheel) (u v : Z) :
  (0 <= wheelHue w u v < 360)%Z.
Proof.
  pose proof (wheelAngleHue_range w u v) as HA.
  destruct (warp_int_round_trip (m_colorModel w) (wheelAngleHue w u v) HA)
    as (delta & _ & _ & HB & _).
  exact HB.
Qed.

(** The saturation picked at a distance within the radius, in whole per
    cent after the clamp. *)
Lemma wheelSat_percent (w : ColorWheel) (d : R) :
  0 < m_wheelRadius w -> 0 <= d <= m_wheelRadius w ->
  exists S, (0 <= S <= 100)%Z /\
    clampR (IZR (wheelSat w d) / 100) 0 1 = IZR S / 100 /\
    (d = m_wheelRadius w -> S = 100%Z).
Proof.
  intros Hr Hd. unfold wheelSat.
  destruct (m_discrete w).
  - set (x := 120 * d / m_wheelRadius w).
    assert (Hx : 0 <= x <= 120).
    { unfold x. split.
      - apply Rmult_le_reg_r with (m_wheelRadius w); [exact Hr|].
        unfold Rdiv. rewrite Rmult_assoc, Rinv_l by lra. lra.
      - apply Rmult_le_reg_r with (m_wheelRadius w); [exact Hr|].
        unfold Rdiv. rewrite Rmult_assoc, Rinv_l by lra. lra. }
    assert (Ht : (0 <= trunc x <= 120)%Z) by (apply trunc_between; simpl; lra).
    rewrite Z.quot_div_nonneg by lia.
    assert (Hq : (0 <= trunc x / 20 <= 6)%Z).
    { split; [apply Z.div_pos; lia|].
      apply Z.div_le_upper_bound; lia. }
    destruct (Z.eq_dec (trunc x / 20) 6) as [E|E].
    + exists 100%Z. split; [lia|]. rewrite E. simpl.
      split; [|reflexivity].
      unfold clampR. destruct (Rlt_dec (120 / 100) 0); [lra|].
      destruct (Rlt_dec 1 (120 / 100)); lra.
    + exists (trunc x / 20 * 20)%Z. split; [lia|].
      split.
      * apply clampR_id.
        assert (IZR (trunc x / 20 * 20) <= 100) by (apply IZR_le; lia).
        assert (0 <= IZR (trunc x / 20 * 20)) by (apply IZR_le; lia).
        lra.
      * intros ->. exfalso. apply E.
        assert (Ex : x = 120) by (unfold x; field; lra).
        rewrite Ex, (trunc_IZR 120). reflexivity.
  - destruct (percent_distance (m_wheelRadius w) d Hr Hd) as [Hs _].
    exists (trunc (100 * d / m_wheelRadius w)). split; [exact Hs|].
    split.
    + apply clampR_id.
      destruct Hs as [S0 S1]. apply IZR_le in S0, S1. lra.
    + intros ->.
      replace (100 * m_wheelRadius w / m_wheelRadius w) with 100
        by (field; lra).
      apply (trunc_IZR 100).
Qed.

(** X5: on the hue/saturation wheel, a position outside the radius that
    hits no swatch gives no colour (the mask) when the pointer is not
    captured; while the pointer is captured it gives the colour of the rim
    in that direction, at full saturation. *)
Theorem getMainAreaColor_outside (w : ColorWheel) (_u umax _v vmax : Z)
    (c : Color) (w' : ColorWheel) :
  m_colorModel w <> NORMAL_MAP ->
  0 < m_wheelRadius w ->
  getMainAreaColor w _u umax _v vmax = Some (c, w') ->
  m_harmonyPicked w' = false ->
  let u := (_u - umax ÷ 2)%Z in
  let v := (_v - vmax ÷ 2)%Z in
  m_wheelRadius w < sqrt (IZR (u * u + v * v)) ->
  (hasCaptureInMainArea w = false -> c = Color.fromMask) /\
  (hasCaptureInMainArea w = true ->
     c = HsvColor (IZR (wheelHue w u v)) 1
           (if negb (Color.isMask (m_color w))
            then getHsvValue (m_color w) else 1)
           (getCurrentAlphaForNewColor svc (m_color w))).
Proof.
  intros Hm Hr Hget Hp u v Hout.
  apply getMainAreaColor_unpicked in Hget; [|exact Hp].
  fold u v in Hget. subst c.
  split; intros Hcap.
  - unfold wheelColor.
    destruct (ColorModel_eqb (m_colorModel w) NORMAL_MAP) eqn:E.
    { apply ColorModel_eqb_eq in E; contradiction. }
    assert (Hd : wheelDistance w u v = sqrt (IZR (u * u + v * v))).
    { unfold wheelDistance. now rewrite Hcap. }
    rewrite Hd. now rewrite (proj2 (leR_false _ _) Hout).
  - assert (Hd : wheelDistance w u v = m_wheelRadius w).
    { unfold wheelDistance. rewrite Hcap.
      now rewrite (proj2 (ltR_true _ _) Hout). }
    rewrite wheelColor_inside; [|exact Hm|rewrite Hd; lra].
    rewrite Hd.
    destruct (wheelSat_percent w (m_wheelRadius w) Hr ltac:(lra))
      as (S & _ & -> & HS).
    rewrite (HS eq_refl).
    pose proof (wheelHue_range w u v).
    rewrite clampZ_id by lia.
    f_equal. lra.
Qed.

(** X6: on the hue/saturation wheel, every colour picked within the radius
    (or under capture) away from the swatches is an HSV colour with a hue
    of whole degrees in [0,360) and a saturation of whole per cent in
    [0,1]; its value is the value of the selection (1 when there is no
    selection) and its alpha comes from the alpha policy. *)
Theorem getMainAreaColor_wheel_valid (w : ColorWheel) (_u umax _v vmax : Z)
    (c : Color) (w' : ColorWheel) :
  m_colorModel w <> NORMAL_MAP ->
  0 < m_wheelRadius w ->
  getMainAreaColor w _u umax _v vmax = Some (c, w') ->
  m_harmonyPicked w' = false ->
  let u := (_u - umax ÷ 2)%Z in
  let v := (_v - vmax ÷ 2)%Z in
  wheelDistance w u v <= m_wheelRadius w ->
  exists H S,
    (0 <= H < 360)%Z /\ (0 <= S <= 100)%Z /\
    c = HsvColor (IZR H) (IZR S / 100)
          (if negb (Color.isMask (m_color w))
           then getHsvValue (m_color w) else 1)
          (getCurrentAlphaForNewColor svc (m_color w)) /\
    valid_hsv c.
Proof.
  intros Hm Hr Hget Hp u v Hin.
  apply getMainAreaColor_unpicked in Hget; [|exact Hp].
  fold u v in Hget. subst c.
  rewrite wheelColor_inside; [|exact Hm|exact Hin].
  pose proof (wheelDistance_bounds w u v Hr) as Hd0.
  destruct (wheelSat_percent w (wheelDistance w u v) Hr (conj Hd0 Hin))
    as (S & HS & -> & _).
  pose proof (wheelHue_range w u v) as HH.
  rewrite clampZ_id by lia.
  exists (wheelHue w u v), S.
  split; [exact HH|]. split; [exact HS|]. split; [reflexivity|].
  unfold valid_hsv; simpl.
  destruct HH as [H0 H1]. apply IZR_le in H0. apply IZR_lt in H1.
  destruct HS as [S0 S1]. apply IZR_le in S0, S1.
  lra.
Qed.

(** [atan2] only sees the direction of a point. *)
Lemma atan2_scale (k y x : R) :
  0 < k -> atan2 (k * y) (k * x) = atan2 y x.
Proof.
  intros Hk. unfold atan2.
  assert (Hq : x <> 0 -> k * y / (k * x) = y / x) by (intros; field; lra).
  destruct (Rlt_dec 0 x) as [Px|Px].
  - destruct (Rlt_dec 0 (k * x)) as [_|N]; [|exfalso; apply N; nra].
    rewrite Hq by lra. reflexivity.
  - destruct (Rlt_dec 0 (k * x)) as [P|_]; [exfalso; nra|].
    destruct (Rlt_dec x 0) as [Nx|Nx].
    + destruct (Rlt_dec (k * x) 0) as [_|N]; [|exfalso; apply N; nra].
      rewrite Hq by lra.
      destruct (Rle_dec 0 y) as [Py|Py].
      * destruct (Rle_dec 0 (k * y)) as [_|N]; [reflexivity|].
        exfalso; apply N; nra.
      * destruct (Rle_dec 0 (k * y)) as [P|_]; [exfalso; nra|reflexivity].
    + destruct (Rlt_dec (k * x) 0) as [N|_]; [exfalso; nra|].
      destruct (Rlt_dec 0 y) as [Py|Py].
      * destruct (Rlt_dec 0 (k * y)) as [_|N]; [reflexivity|].
        exfalso; apply N; nra.
      * destruct (Rlt_dec 0 (k * y)) as [P|_]; [exfalso; nra|].
        destruct (Rlt_dec y 0) as [Ny|Ny].
        -- destruct (Rlt_dec (k * y) 0) as [_|N]; [reflexivity|].
           exfalso; apply N; nra.
        -- destruct (Rlt_dec (k * y) 0) as [N|_]; [exfalso; nra|].
           reflexivity.
Qed.

(** X7: the hue depends on the direction only: moving a position away
    from the centre along its ray, to [k] times its offset, leaves the hue
    picked on the wheel unchanged, in discrete and continuous mode and
    under every colour model. *)
Theorem wheelHue_along_ray (w : ColorWheel) (k u v : Z) :
  (0 < k)%Z ->
  wheelAngleHue w (k * u) (k * v) = wheelAngleHue w u v /\
  wheelHue w (k * u) (k * v) = wheelHue w u v /\
  (m_colorModel w <> NORMAL_MAP ->
   wheelDistance w (k * u) (k * v) <= m_wheelRadius w ->
   wheelDistance w u v <= m_wheelRadius w ->
   getHsvHue (wheelColor w (k * u) (k * v)) = getHsvHue (wheelColor w u v)).
Proof.
  intros Hk.
  assert (Ha : atan2 (IZR (- (k * v))) (IZR (k * u))
               = atan2 (IZR (- v)) (IZR u)).
  { rewrite <- Z.mul_opp_r, !mult_IZR.
    apply atan2_scale. now apply IZR_lt. }
  assert (HA : wheelAngleHue w (k * u) (k * v) = wheelAngleHue w u v).
  { unfold wheelAngleHue. now rewrite Ha. }
  assert (HH : wheelHue w (k * u) (k * v) = wheelHue w u v).
  { unfold wheelHue. now rewrite HA. }
  split; [exact HA|]. split; [exact HH|].
  intros Hm H1 H2.
  rewrite !wheelColor_inside by assumption.
  simpl. now rewrite HH.
Qed.

(** ** The normal-map wheel in discrete mode *)

(** X8: in NORMAL_MAP mode with discrete on, within the radius and away
    from the swatches, the blue channel takes one of five levels: it is
    255 - 32 * m (128 for m = 4) where m = floor(4 * d / radius), so 255
    exactly on the inner quarter of the radius. *)
Theorem normal_map_discrete_levels (w : ColorWheel) (u v : Z) :
  m_colorModel w = NORMAL_MAP ->
  m_discrete w = true ->
  0 < m_wheelRadius w ->
  wheelDistance w u v <= m_wheelRadius w ->
  let m := Zfloor (4 * wheelDistance w u v / m_wheelRadius w) in
  (0 <= m <= 4)%Z /\
  exists r g,
    wheelColor w u v = RgbColor r g (clampZ (255 - 32 * m) 128 255) 255 /\
    (0 <= r <= 255)%Z /\ (0 <= g <= 255)%Z /\
    (wheelDistance w u v < m_wheelRadius w / 4 ->
     clampZ (255 - 32 * m) 128 255 = 255%Z).
Proof.
  intros Hm Hd Hr Hin m.
  pose proof (wheelDistance_bounds w u v Hr) as Hd0.
  set (d := wheelDistance w u v) in *.
  set (R0 := m_wheelRadius w) in *.
  assert (Hx : 0 <= 128 * d / R0 <= 128).
  { split.
    - apply Rmult_le_reg_r with R0; [exact Hr|].
      unfold Rdiv. rewrite Rmult_assoc, Rinv_l by lra. lra.
    - apply Rmult_le_reg_r with R0; [exact Hr|].
      unfold Rdiv. rewrite Rmult_assoc, Rinv_l by lra. lra. }
  destruct (trunc_bound_nonneg _ (proj1 Hx)) as [[B0 B1] B2].
  set (di := trunc (128 * d / R0)) in *.
  assert (Hdi : (0 <= di <= 128)%Z) by (apply trunc_between; simpl; lra).
  assert (Em : (di / 32)%Z = m).
  { symmetry. apply Zfloor_eq.
    pose proof (Z.mul_div_le di 32 ltac:(lia)) as L.
    pose proof (Z.mul_succ_div_gt di 32 ltac:(lia)) as G.
    assert (L' : IZR (32 * (di / 32)) <= IZR di) by (apply IZR_le; lia).
    assert (G' : IZR di + 1 <= IZR (32 * Z.succ (di / 32))).
    { rewrite <- plus_IZR. apply IZR_le; lia. }
    rewrite mult_IZR in L'. rewrite mult_IZR, succ_IZR in G'.
    replace (4 * d / R0) with (128 * d / R0 / 32) by (field; lra).
    lra. }
  assert (Hq : (0 <= di / 32 <= 4)%Z).
  { split; [apply Z.div_pos; lia|apply Z.div_le_upper_bound; lia]. }
  split; [lia|].
  unfold wheelColor. rewrite Hm. simpl ColorModel_eqb. cbv iota.
  unfold normalMapColor. rewrite Hd. fold d R0 di.
  rewrite (proj2 (leR_true _ _) Hin).
  rewrite Z.quot_div_nonneg by lia. rewrite Em.
  eexists _, _. split.
  { unfold Color.fromRgb. f_equal. f_equal. lia. }
  split; [apply clampZ_bounds; lia|]. split; [apply clampZ_bounds; lia|].
  intros Hq4.
  assert (m = 0%Z).
  { unfold m. apply Zfloor_eq. simpl.
    split.
    - apply Rmult_le_reg_r with R0; [exact Hr|].
      unfold Rdiv. rewrite Rmult_assoc, Rinv_l by lra. lra.
    - apply Rmult_lt_reg_r with R0; [exact Hr|].
      unfold Rdiv. rewrite Rmult_assoc, Rinv_l by lra. lra. }
  rewrite H. reflexivity.
Qed.

(** ** The overlay painter *)

Lemma trunc_shrinks (t : R) : IZR (trunc t) * IZR (trunc t) <= t * t.
Proof.
  destruct (Rle_dec 0 t) as [P|N].
  - destruct (trunc_bound_nonneg t P) as [[B0 B1] _]. nra.
  - destruct (trunc_bound_neg t ltac:(lra)) as [[B0 B1] _]. nra.
Qed.

(** A point placed at a fraction [s] of the radius stays within the
    radius after its coordinates are cut to whole pixels. *)
Lemma placed_within (a r s : R) :
  0 <= r -> 0 <= s <= 1 ->
  IZR (trunc (cos a * r * s)) * IZR (trunc (cos a * r * s))
  + IZR (trunc (- sin a * r * s)) * IZR (trunc (- sin a * r * s))
  <= r * r.
Proof.
  intros Hr Hs.
  pose proof (trunc_shrinks (cos a * r * s)) as T1.
  pose proof (trunc_shrinks (- sin a * r * s)) as T2.
  pose proof (sin2_cos2 a) as E. unfold Rsqr in E.
  assert (Hrs : (r * s) * (r * s) <= r * r).
  { assert (0 <= r * s) by (apply Rmult_le_pos; lra).
    assert (r * s <= r) by nra.
    nra. }
  assert (cos a * r * s * (cos a * r * s)
          + - sin a * r * s * (- sin a * r * s)
          = (r * s) * (r * s) * (sin a * sin a + cos a * cos a)) by ring.
  rewrite E, Rmult_1_r in H. lra.
Qed.

Lemma addPoint_offset (c o : Z * Z) :
  (fst (addPoint c o) - fst c = fst o)%Z /\
  (snd (addPoint c o) - snd c = snd o)%Z.
Proof. unfold addPoint; simpl; lia. Qed.

Lemma harmony_indicator_within (w : ColorWheel) (i : Z) (c : Color)
    (white : bool) :
  0 <= m_wheelRadius w ->
  getColorInHarmony w i = Some c ->
  indicator_within (Rect_center (m_wheelBounds w)) (m_wheelRadius w)
    (ColorIndicator
       (addPoint (Rect_center (m_wheelBounds w)) (indicatorOffset w c))
       white).
Proof.
  intros Hr Hc. unfold indicator_within.
  destruct (addPoint_offset (Rect_center (m_wheelBounds w))
              (indicatorOffset w c)) as [-> ->].
  assert (Hs : 0 <= getHsvSaturation c <= 1).
  { destruct (harmony_entry (m_harmony w)) as (e & He & Hok).
    destruct (harmony_sub_entry e i Hok) as (_ & hj & sj & Hh & Hs).
    rewrite (getColorInHarmony_eq w i e hj sj He Hh Hs) in Hc.
    injection Hc as <-. simpl. apply clampR_bounds; lra. }
  unfold indicatorOffset; simpl fst; simpl snd.
  now apply placed_within.
Qed.

(** The loop over the harmonies always finishes; it paints an indicator
    and a swatch per harmony, every indicator within the radius. *)
Lemma paintHarmonies_spec (w : ColorWheel) (rc : Rect) (k boxsize : Z) :
  0 <= m_wheelRadius w ->
  forall cnt i, exists ops,
    paintHarmonies w rc k boxsize cnt i = Some ops /\
    length ops = (2 * cnt)%nat /\
    Forall (indicator_within (Rect_center (m_wheelBounds w))
              (m_wheelRadius w)) ops.
Proof.
  intros Hr. induction cnt as [|cnt IH]; intros i.
  - exists []. simpl. auto.
  - simpl paintHarmonies.
    destruct (getColorInHarmony_total w i) as [c Hc]. rewrite Hc.
    destruct (IH (i + 1)%Z) as (rest & -> & Hlen & Hall).
    eexists. split; [reflexivity|]. split; [simpl; lia|].
    constructor; [now apply harmony_indicator_within with (i := i)|].
    constructor; [exact I|exact Hall].
Qed.

(** What [onPaintMainArea] returns, case by case. *)
Lemma onPaintMainArea_cases (w : ColorWheel) (rc : Rect) :
  let r := Rmax 1 (IZR (Z.min (rw rc) (rh rc)) / 2) in
  let w1 :=
    set_geometry w (r - 1 / 10)
      (mkRect (trunc (IZR (rx rc + rw rc ÷ 2) - r))
              (trunc (IZR (ry rc + rh rc ÷ 2) - r))
              (trunc (r * 2)) (trunc (r * 2))) in
  exists ops,
    onPaintMainArea w rc = Some (ops, w1) /\
    Forall (indicator_within (Rect_center (m_wheelBounds w1))
              (m_wheelRadius w1)) ops /\
    ((Color.getAlpha (m_color w) <= 0)%Z -> ops = []) /\
    ((0 < Color.getAlpha (m_color w))%Z -> m_colorModel w = NORMAL_MAP ->
       exists pos, ops = [ColorIndicator pos true]) /\
    ((0 < Color.getAlpha (m_color w))%Z -> m_colorModel w <> NORMAL_MAP ->
       exists k, getHarmonies w = Some k /\
                 length ops = (2 * Z.to_nat k)%nat).
Proof.
  intros r w1.
  assert (Hr : 0 <= m_wheelRadius w1).
  { unfold w1; simpl. pose proof (Rmax_l 1 (IZR (Z.min (rw rc) (rh rc)) / 2)).
    fold r in H. lra. }
  unfold onPaintMainArea. fold r. fold w1.
  change (m_color w1) with (m_color w).
  change (m_colorModel w1) with (m_colorModel w).
  change (set_harmonyPicked w1 (m_harmonyPicked w)) with w1.
  destruct (Z.ltb_spec 0 (Color.getAlpha (m_color w))) as [Ha|Ha].
  - destruct (ColorModel_eqb (m_colorModel w) NORMAL_MAP) eqn:E.
    + apply ColorModel_eqb_eq in E.
      eexists. split; [reflexivity|].
      split.
      { constructor; [|constructor].
        unfold indicator_within.
        match goal with
        | |- context [addPoint ?c ?o] =>
            destruct (addPoint_offset c o) as [-> ->]
        end.
        simpl fst; simpl snd.
        apply placed_within; [exact Hr|].
        apply clampR_bounds; lra. }
      split; [lia|]. split; [eauto|]. congruence.
    + change (getHarmonies w1) with (getHarmonies w).
      destruct (getHarmonies_total w) as (k & Hk & _). rewrite Hk.
      destruct (paintHarmonies_spec w1 rc k
                  (Z.min (rw rc ÷ 10) (rh rc ÷ 10)) Hr (Z.to_nat k) 0)
        as (ops & -> & Hlen & Hall).
      exists ops. split; [reflexivity|]. split; [exact Hall|].
      split; [lia|]. split.
      * intros _ Hm. rewrite Hm in E. discriminate.
      * intros _ _. exists k. auto.
  - exists []. split; [reflexivity|]. split; [constructor|].
    split; [reflexivity|]. split; intros; lia.
Qed.

(** X9: every indicator that [onPaintMainArea] paints (one per harmony, or
    the one of the normal map) lies within the wheel: its distance from
    the centre of the wheel bounds is at most the radius, whatever the
    channels of the selection. *)
Theorem onPaintMainArea_indicators_within (w : ColorWheel) (rc : Rect) :
  exists ops w',
    onPaintMainArea w rc = Some (ops, w') /\
    Forall (indicator_within (Rect_center (m_wheelBounds w'))
              (m_wheelRadius w')) ops.
Proof.
  destruct (onPaintMainArea_cases w rc) as (ops & H & Hall & _).
  eexists _, _. split; [exact H|exact Hall].
Qed.

(** X10: [onPaintMainArea] always returns; it changes the geometry only
    ([m_harmonyPicked] and every setting are as before), to a radius of
    max(1, min(w,h)/2) - 0.1, which is at least 0.9; and it paints nothing
    for a transparent selection, one indicator in NORMAL_MAP mode, and
    otherwise an indicator and a swatch for each of the [n] harmonies. *)
Theorem onPaintMainArea_spec (w : ColorWheel) (rc : Rect) :
  exists ops w',
    onPaintMainArea w rc = Some (ops, w') /\
    w' = set_geometry w (m_wheelRadius w') (m_wheelBounds w') /\
    m_wheelRadius w' = Rmax 1 (IZR (Z.min (rw rc) (rh rc)) / 2) - 1 / 10 /\
    9 / 10 <= m_wheelRadius w' /\
    ((Color.getAlpha (m_color w) <= 0)%Z -> ops = []) /\
    ((0 < Color.getAlpha (m_color w))%Z -> m_colorModel w = NORMAL_MAP ->
       exists pos, ops = [ColorIndicator pos true]) /\
    ((0 < Color.getAlpha (m_color w))%Z -> m_colorModel w <> NORMAL_MAP ->
       exists k, getHarmonies w = Some k /\
                 length ops = (2 * Z.to_nat k)%nat).
Proof.
  destruct (onPaintMainArea_cases w rc) as (ops & H & _ & H0 & H1 & H2).
  eexists _, _. split; [exact H|].
  split; [reflexivity|]. split; [reflexivity|].
  split; [|auto].
  simpl. pose proof (Rmax_l 1 (IZR (Z.min (rw rc) (rh rc)) / 2)). lra.
Qed.

(** ** What the background pass writes *)

Lemma rowCoords_S (x : Z) (k : nat) (y : Z) :
  rowCoords x (S k) y = (x, y) :: rowCoords (x + 1) k y.
Proof.
  unfold rowCoords. simpl. rewrite Z.add_0_r. f_equal.
  rewrite <- seq_shift, map_map.
  apply map_ext. intros i. f_equal. lia.
Qed.

(** One row of the main pass: the writes it makes, oldest first. *)
Lemma paintMainRow_writes (W : ColorWheel) (main : Rect) (y : Z) (cnt : nat) :
  forall x s b,
    widget s = set_harmonyPicked W b ->
    exists s' ops b',
      paintMainRow main (Z.max 1 (rw main - 1)) (Z.max 1 (rh main - 1))
        y cnt x s = Some s' /\
      surface s' = rev ops ++ surface s /\
      widget s' = set_harmonyPicked W b' /\
      (clock s <= clock s')%nat /\
      Forall (fun op => exists c i,
                (x <= i < x + Z.of_nat cnt)%Z /\
                op = PutPixel c (rx main + i) (ry main + y)) ops /\
      (stop_monotone -> stop (clock s') = false ->
       Forall2 (paintedPixel W main) ops (rowCoords x cnt y)).
Proof.
  induction cnt as [|cnt IH]; intros x s b Hw.
  - exists s, [], b. simpl. repeat split; auto.
  - simpl paintMainRow.
    destruct (stop (clock s)) eqn:Hs.
    + eexists _, [], b. simpl.
      split; [reflexivity|]. split; [reflexivity|]. split; [exact Hw|].
      split; [simpl; lia|]. split; [constructor|].
      simpl. intros Hmono Hc.
      rewrite (Hmono (clock s) (S (clock s))) in Hc; auto. discriminate.
    + destruct (getMainAreaColor_total (widget s) x
                  (Z.max 1 (rw main - 1)) y (Z.max 1 (rh main - 1)))
        as (c & b2 & Hget).
      rewrite Hget. cbv iota beta.
      match goal with
      | |- context [paintMainRow _ _ _ _ cnt ?x' ?s1] =>
          destruct (IH x' s1 b2) as (s' & ops & b' & H1 & Hsurf & Hw' & Hcl
                                     & Hin & Hfull)
      end.
      { simpl. rewrite Hw. reflexivity. }
      simpl in Hsurf, Hcl.
      set (op := PutPixel
                   (if negb (Color.isMask c)
                    then color_for_ui svc (Color.setAlpha c 255)
                    else m_bgColor (set_harmonyPicked (widget s) b2))
                   (rx main + x) (ry main + y)) in *.
      exists s', (op :: ops), b'.
      split; [exact H1|].
      split; [simpl; rewrite <- app_assoc; exact Hsurf|].
      split; [exact Hw'|]. split; [lia|].
      split.
      * constructor.
        -- eexists _, x. split; [lia|reflexivity].
        -- eapply Forall_impl; [|exact Hin].
           intros o (c' & i & Hi & ->). exists c', i. split; [lia|reflexivity].
      * intros Hmono Hc. rewrite rowCoords_S.
        constructor; [|now apply Hfull].
        exists c, (set_harmonyPicked W b2).
        split.
        -- simpl fst; simpl snd. rewrite Hw in Hget. exact Hget.
        -- unfold op, uiColor. simpl fst; simpl snd.
           rewrite Hw. reflexivity.
Qed.

(** The rows of the main pass. *)
Lemma paintMainRows_writes (W : ColorWheel) (main : Rect) (cnt : nat) :
  forall y s b,
    widget s = set_harmonyPicked W b ->
    exists s' ops b',
      paintMainRows main (Z.max 1 (rw main - 1)) (Z.max 1 (rh main - 1))
        cnt y s = Some s' /\
      surface s' = rev ops ++ surface s /\
      widget s' = set_harmonyPicked W b' /\
      (clock s <= clock s')%nat /\
      Forall (fun op => exists c i j,
                (0 <= i < Z.of_nat (Z.to_nat (rw main)))%Z /\
                (y <= j < y + Z.of_nat cnt)%Z /\
                op = PutPixel c (rx main + i) (ry main + j)) ops /\
      (stop_monotone -> stop (clock s') = false ->
       Forall2 (paintedPixel W main) ops
         (areaCoords (Z.to_nat (rw main)) cnt y)).
Proof.
  induction cnt as [|cnt IH]; intros y s b Hw.
  - exists s, [], b. simpl. repeat split; auto.
  - simpl paintMainRows.
    destruct (stop (clock s)) eqn:Hs.
    + eexists _, [], b. simpl.
      split; [reflexivity|]. split; [reflexivity|]. split; [exact Hw|].
      split; [simpl; lia|]. split; [constructor|].
      simpl. intros Hmono Hc.
      rewrite (Hmono (clock s) (S (clock s))) in Hc; auto. discriminate.
    + match goal with
      | |- context [paintMainRow _ _ _ _ ?c ?x' ?s0] =>
          destruct (paintMainRow_writes W main y c x' s0 b)
            as (s1 & ops1 & b1 & -> & Hsurf1 & Hw1 & Hcl1 & Hin1 & Hfull1)
      end.
      { exact Hw. }
      destruct (IH (y + 1)%Z s1 b1 Hw1)
        as (s2 & ops2 & b2 & H2 & Hsurf2 & Hw2 & Hcl2 & Hin2 & Hfull2).
      simpl in Hsurf1, Hcl1.
      exists s2, (ops1 ++ ops2), b2.
      split; [exact H2|].
      split; [rewrite rev_app_distr, <- app_assoc, Hsurf2, Hsurf1;
              reflexivity|].
      split; [exact Hw2|]. split; [lia|].
      split.
      * apply Forall_app; split.
        -- eapply Forall_impl; [|exact Hin1].
           intros o (c' & i & Hi & ->).
           exists c', i, y. split; [lia|]. split; [lia|reflexivity].
        -- eapply Forall_impl; [|exact Hin2].
           intros o (c' & i & j & Hi & Hj & ->).
           exists c', i, j. split; [lia|]. split; [lia|reflexivity].
      * intros Hmono Hc. simpl areaCoords.
        apply Forall2_app; [|now apply Hfull2].
        apply Hfull1; [exact Hmono|].
        destruct (stop (clock s1)) eqn:E; auto.
        rewrite (Hmono _ _ Hcl2 E) in Hc. discriminate.
Qed.

(** The columns of the bottom pass. *)
Lemma paintBottomColumns_writes (bottom : Rect) (hue sat : R) (cnt : nat) :
  forall x s,
    let s' := paintBottomColumns bottom hue sat cnt x s in
    exists k,
      (k <= cnt)%nat /\
      surface s' =
        rev (map (fun i =>
                    DrawRect (mkRect (rx bottom + i) (ry bottom) 1 (rh bottom))
                      (color_for_ui svc
                         (Color.fromHsv hue sat (IZR i / IZR (rw bottom))
                            255)))
               (map (fun i => (x + Z.of_nat i)%Z) (seq 0 k)))
        ++ surface s /\
      (stop_monotone -> stop (clock s') = false -> k = cnt).
Proof.
  induction cnt as [|cnt IH]; intros x s.
  - exists 0%nat. simpl. auto.
  - simpl paintBottomColumns.
    destruct (stop (clock s)) eqn:Hs.
    + exists 0%nat. simpl. split; [lia|]. split; [reflexivity|].
      intros Hmono Hc.
      rewrite (Hmono (clock s) (S (clock s))) in Hc; auto. discriminate.
    + match goal with
      | |- context [paintBottomColumns _ _ _ cnt ?x' ?s1] =>
          destruct (IH x' s1) as (k & Hk & Hsurf & Hfull)
      end.
      exists (S k). split; [lia|].
      split; [|intros Hmono Hc; f_equal; now apply Hfull].
      rewrite Hsurf. simpl surface.
      replace (seq 0 (S k)) with (0%nat :: map S (seq 0 k))
        by (simpl; now rewrite seq_shift).
      rewrite !map_map. simpl map. simpl rev.
      rewrite <- app_assoc, map_map, Z.add_0_r. simpl.
      do 2 f_equal.
      apply map_ext. intros i.
      replace (x + 1 + Z.of_nat i)%Z with (x + Z.of_nat (S i))%Z by lia.
      reflexivity.
Qed.

(** X11: whatever the stop flag does, the main pass only writes pixels of
    the main rectangle and the bottom pass only draws one-pixel columns of
    the bottom rectangle, in front of what the surface held. *)
Theorem passes_write_inside (main bottom : Rect) (s : PaintState) :
  (exists sm ops,
     mainPass main s = Some sm /\
     surface sm = ops ++ surface s /\
     Forall (writes_inside main) ops) /\
  (exists ops,
     surface (bottomPass bottom s) = ops ++ surface s /\
     Forall (writes_inside bottom) ops).
Proof.
  split.
  - destruct (paintMainRows_writes (widget s) main (Z.to_nat (rh main)) 0 s
                (m_harmonyPicked (widget s)))
      as (sm & ops & b' & Hrun & Hsurf & _ & _ & Hin & _).
    { destruct (widget s); reflexivity. }
    exists sm, (rev ops). split; [exact Hrun|]. split; [exact Hsurf|].
    apply Forall_rev.
    eapply Forall_impl; [|exact Hin].
    intros o (c & i & j & Hi & Hj & ->). simpl. lia.
  - unfold bottomPass.
    destruct (paintBottomColumns_writes bottom
                (getHsvHue (m_color (widget s)))
                (getHsvSaturation (m_color (widget s)))
                (Z.to_nat (rw bottom)) 0 s) as (k & Hk & Hsurf & _).
    eexists. split; [exact Hsurf|].
    apply Forall_rev. apply Forall_forall.
    intros o Ho. apply in_map_iff in Ho as (i & <- & Hi).
    apply in_map_iff in Hi as (j & <- & Hj). apply in_seq in Hj.
    simpl. lia.
Qed.

(** X12: a pass that finds the stop flag clear at its end has written the
    whole region, each place once and in order: the main pass every pixel
    of the main area, row by row, with the colour that [getMainAreaColor]
    gives for it (the background colour where it gives none), and the
    bottom pass every column with value x / width under the hue and
    saturation of the selection. *)
Theorem complete_pass_writes (main bottom : Rect) (s : PaintState) :
  stop_monotone ->
  (forall sm, mainPass main s = Some sm -> stop (clock sm) = false ->
     exists ops,
       surface sm = rev ops ++ surface s /\
       Forall2 (paintedPixel (widget s) main) ops
         (areaCoords (Z.to_nat (rw main)) (Z.to_nat (rh main)) 0)) /\
  (stop (clock (bottomPass bottom s)) = false ->
     surface (bottomPass bottom s) =
       rev (map (fun i => bottomColumn (widget s) bottom (Z.of_nat i))
              (seq 0 (Z.to_nat (rw bottom))))
       ++ surface s).
Proof.
  intros Hmono. split.
  - intros sm Hrun Hc.
    destruct (paintMainRows_writes (widget s) main (Z.to_nat (rh main)) 0 s
                (m_harmonyPicked (widget s)))
      as (sm' & ops & b' & Hrun' & Hsurf & _ & _ & _ & Hfull).
    { destruct (widget s); reflexivity. }
    unfold mainPass in Hrun. rewrite Hrun in Hrun'. injection Hrun' as <-.
    exists ops. split; [exact Hsurf|]. now apply Hfull.
  - intros Hc. unfold bottomPass in *.
    destruct (paintBottomColumns_writes bottom
                (getHsvHue (m_color (widget s)))
                (getHsvSaturation (m_color (widget s)))
                (Z.to_nat (rw bottom)) 0 s) as (k & Hk & Hsurf & Hfull).
    rewrite Hsurf, (Hfull Hmono Hc), map_map. reflexivity.
Qed.

(** ** The bottom bar *)

(** X13: for [umax <> 0], [getBottomBarColor] keeps the hue and the
    saturation of the selection and returns a value in [0,1]: for a
    positive [umax] it is u / umax between the ends, 0 left of the bar and
    1 right of it. *)
Theorem getBottomBarColor_spec (w : ColorWheel) (u umax : Z) :
  (umax <> 0)%Z ->
  exists val,
    getBottomBarColor w u umax =
      HsvColor (getHsvHue (m_color w)) (getHsvSaturation (m_color w)) val
        (getCurrentAlphaForNewColor svc (m_color w)) /\
    0 <= val <= 1 /\
    ((0 < umax)%Z ->
       ((0 <= u <= umax)%Z -> val = IZR u / IZR umax) /\
       ((u <= 0)%Z -> val = 0) /\
       ((umax <= u)%Z -> val = 1)).
Proof.
  intros _.
  eexists. split; [reflexivity|].
  split; [apply clampR_bounds; lra|].
  intros Hm.
  assert (Hmr : 0 < IZR umax) by (now apply IZR_lt).
  assert (Hdiv : forall a, IZR u <= a * IZR umax -> IZR u / IZR umax <= a).
  { intros a Ha. apply Rmult_le_reg_r with (IZR umax); [exact Hmr|].
    unfold Rdiv. rewrite Rmult_assoc, Rinv_l by lra. lra. }
  assert (Hdiv' : forall a, a * IZR umax <= IZR u -> a <= IZR u / IZR umax).
  { intros a Ha. apply Rmult_le_reg_r with (IZR umax); [exact Hmr|].
    unfold Rdiv. rewrite Rmult_assoc, Rinv_l by lra. lra. }
  split; [|split].
  - intros [H0 H1]. apply IZR_le in H0, H1.
    apply clampR_id. split; [apply Hdiv'|apply Hdiv]; lra.
  - intros H0. apply IZR_le in H0.
    unfold clampR.
    destruct (Rlt_dec (IZR u / IZR umax) 0) as [L|L]; [reflexivity|].
    assert (IZR u / IZR umax <= 0) by (apply Hdiv; lra).
    destruct (Rlt_dec 1 (IZR u / IZR umax)); lra.
  - intros H1. apply IZR_le in H1.
    unfold clampR.
    assert (1 <= IZR u / IZR umax) by (apply Hdiv'; lra).
    destruct (Rlt_dec (IZR u / IZR umax) 0) as [L|L]; [lra|].
    destruct (Rlt_dec 1 (IZR u / IZR umax)); lra.
Qed.

(** X14: [onPaintBottomBar] paints nothing without a selection; with
    one, a single indicator at mid-height whose column lies between the
    left edge of the bar and its right edge (included) for a value in
    [0,1]: it is the left edge for the value 0 and, for the value 1, the
    column [x + w] just past the last column of the bar. *)
Theorem onPaintBottomBar_spec (w : ColorWheel) (rc : Rect) :
  (Color.isMask (m_color w) = true -> onPaintBottomBar w rc = []) /\
  (Color.isMask (m_color w) = false ->
   exists px white,
     onPaintBottomBar w rc =
       [ColorIndicator (px, (ry rc + rh rc ÷ 2)%Z) white] /\
     (0 <= getHsvValue (m_color w) <= 1 -> (0 <= rw rc)%Z ->
        (rx rc <= px <= rx rc + rw rc)%Z) /\
     (getHsvValue (m_color w) = 0 -> px = rx rc) /\
     (getHsvValue (m_color w) = 1 -> px = (rx rc + rw rc)%Z)).
Proof.
  unfold onPaintBottomBar. split; intros Hm; rewrite Hm; simpl;
    [reflexivity|].
  eexists _, _. split; [reflexivity|]. split.
  - intros Hv Hw. apply IZR_le in Hw.
    assert (H : (0 <= trunc (IZR (rw rc) * getHsvValue (m_color w))
                 <= rw rc)%Z).
    { apply trunc_between. simpl. nra. }
    lia.
  - split; intros ->.
    + rewrite Rmult_0_r, trunc_0. lia.
    + rewrite Rmult_1_r, trunc_IZR. reflexivity.
Qed.

(** ** The setters *)

(** X15: [setDiscrete] stores the new state in the widget and in the
    preferences and asks for a repaint; it marks every region dirty exactly
    when the state changes and otherwise leaves the widget as it is, so
    calling it again with the same state changes nothing more.
    [setColorModel] and [setHarmony] store their setting the same way but
    never touch the paint flags. *)
Theorem setters_spec (w : ColorWheel) (h : Host) :
  (forall state,
     let '(w', h') := setDiscrete w h state in
     m_discrete w' = state /\ pref_discreteWheel h' = state /\
     invalidated h' = true /\
     (m_discrete w <> state ->
        w' = set_discrete (set_paintFlags w AllAreasFlag) state) /\
     (m_discrete w = state -> w' = w) /\
     fst (setDiscrete w' h' state) = w') /\
  (forall model,
     let '(w', h') := setColorModel w h model in
     w' = set_colorModel w model /\
     m_paintFlags w' = m_paintFlags w /\
     pref_wheelModel h' = ColorModel_to_int model /\
     invalidated h' = true) /\
  (forall harmony,
     let '(w', h') := setHarmony w h harmony in
     w' = set_harmony w harmony /\
     m_paintFlags w' = m_paintFlags w /\
     pref_harmony h' = harmony /\
     invalidated h' = true).
Proof.
  split; [|split].
  - intros state. unfold setDiscrete.
    destruct (Bool.eqb (m_discrete w) state) eqn:E; simpl.
    + apply eqb_prop in E.
      repeat split; auto.
      * intros Hne; contradiction.
      * intros _. destruct w; simpl in *. now subst.
      * rewrite eqb_reflx. reflexivity.
    + apply eqb_false_iff in E.
      repeat split; auto.
      * intros He; contradiction.
      * rewrite eqb_reflx. reflexivity.
  - intros model. simpl. auto.
  - intros harmony. simpl. auto.
Qed.

(** ** The options menu *)

(** X16: the options menu always starts with the Discrete item, shown
    selected exactly in discrete mode.  In NORMAL_MAP mode that is the
    whole menu.  Otherwise the eight harmony items follow, in the order of
    the patterns, and the one of the current harmony is the only one shown
    selected (none is when the setting is outside the eight patterns).
    Clicking harmony item [k] and opening the menu again shows item [k]
    selected; clicking Discrete flips its mark and marks every region
    dirty. *)
Theorem onOptions_spec (w : ColorWheel) (h : Host) :
  (exists label rest,
     Menu.onOptions w =
       Menu.Item label (m_discrete w) Menu.ToggleDiscrete :: rest /\
     (m_colorModel w = NORMAL_MAP -> rest = []) /\
     (m_colorModel w <> NORMAL_MAP ->
        Menu.harmonyActions rest = [0; 1; 2; 3; 4; 5; 6; 7]%Z /\
        ((0 <= m_harmony w <= 7)%Z ->
           Menu.selectedActions rest = [Menu.SetHarmony (m_harmony w)]) /\
        ((m_harmony w < 0 \/ 7 < m_harmony w)%Z ->
           Menu.selectedActions rest = []))) /\
  (forall k, (0 <= k <= 7)%Z -> m_colorModel w <> NORMAL_MAP ->
     let w' := fst (Menu.click w h (Menu.SetHarmony k)) in
     Menu.selectedActions (tl (Menu.onOptions w')) = [Menu.SetHarmony k] /\
     m_paintFlags w' = m_paintFlags w) /\
  (let w' := fst (Menu.click w h Menu.ToggleDiscrete) in
   (exists label rest,
      Menu.onOptions w' =
        Menu.Item label (negb (m_discrete w)) Menu.ToggleDiscrete :: rest) /\
   m_paintFlags w' = AllAreasFlag).
Proof.
  assert (Hsel : forall w0, (0 <= m_harmony w0 <= 7)%Z ->
            m_colorModel w0 <> NORMAL_MAP ->
            Menu.selectedActions (tl (Menu.onOptions w0))
            = [Menu.SetHarmony (m_harmony w0)]).
  { intros w0 Hk Hm. unfold Menu.onOptions.
    destruct (ColorModel_eqb (m_colorModel w0) NORMAL_MAP) eqn:E.
    { apply ColorModel_eqb_eq in E; contradiction. }
    assert (C : (m_harmony w0 = 0 \/ m_harmony w0 = 1 \/ m_harmony w0 = 2 \/
                 m_harmony w0 = 3 \/ m_harmony w0 = 4 \/ m_harmony w0 = 5 \/
                 m_harmony w0 = 6 \/ m_harmony w0 = 7)%Z) by lia.
    repeat (destruct C as [C|C]; [rewrite C; reflexivity|]).
    rewrite C; reflexivity. }
  split; [|split].
  - eexists _, _. split; [reflexivity|].
    split.
    + intros ->. reflexivity.
    + intros Hm.
      destruct (ColorModel_eqb (m_colorModel w) NORMAL_MAP) eqn:E.
      { apply ColorModel_eqb_eq in E; contradiction. }
      split; [reflexivity|]. split.
      * intros Hk. specialize (Hsel w Hk Hm).
        unfold Menu.onOptions in Hsel. rewrite E in Hsel. exact Hsel.
      * intros Hk. simpl.
        unfold Harmony.NONE, Harmony.COMPLEMENTARY, Harmony.MONOCHROMATIC,
          Harmony.ANALOGOUS, Harmony.SPLIT, Harmony.TRIADIC,
          Harmony.TETRADIC, Harmony.SQUARE.
        repeat match goal with
               | |- context [(m_harmony w =? ?c)%Z] =>
                   destruct (Z.eqb_spec (m_harmony w) c); [lia|]
               end.
        reflexivity.
  - intros k Hk Hm w'.
    split; [|reflexivity].
    apply (Hsel w'); [exact Hk|exact Hm].
  - intros w'. unfold w', Menu.click, setDiscrete.
    rewrite eqb_negb2. simpl. split; [|reflexivity].
    eexists _, _. reflexivity.
Qed.

(** ** The shader of the main area against the CPU path *)

Lemma shader_floor_bound (x : R) :
  Shader.floor x <= x < Shader.floor x + 1.
Proof. unfold Shader.floor. apply Zfloor_bound. Qed.

Lemma shader_mod_range (x : R) : 0 <= Shader.mod_ x 360 < 360.
Proof.
  unfold Shader.mod_. pose proof (shader_floor_bound (x / 360)). lra.
Qed.

Lemma shader_clamp_eq (x lo hi : R) :
  lo <= hi -> Shader.clamp x lo hi = clampR x lo hi.
Proof.
  intros H. unfold Shader.clamp, clampR, Rmin, Rmax.
  destruct (Rlt_dec x lo), (Rlt_dec hi x), (Rle_dec x lo);
    try destruct (Rle_dec lo hi); try destruct (Rle_dec x hi); lra.
Qed.

Lemma rybhue_range (h : R) :
  0 <= h <= 360 -> 0 <= Shader.rybhue_to_rgbhue h <= 360.
Proof.
  intros H. unfold Shader.rybhue_to_rgbhue, leR, ltR.
  repeat match goal with
         | |- context [Rle_dec ?a ?b] => destruct (Rle_dec a b); simpl
         | |- context [Rlt_dec ?a ?b] => destruct (Rlt_dec a b); simpl
         end; lra.
Qed.

(** X17: the hue warp of the shader is the forward direction of
    [convertHueAngle]: [rybhue_to_rgbhue] equals [convertHueAngle(., 1)]
    under RYB for every hue, and with the uniforms that [setShaderParams]
    sets, the shader warps the hue exactly as the CPU path does under each
    colour model, and runs its discrete branch exactly in discrete mode. *)
Theorem shader_hue_warp_agrees
    (toHsv : Color -> R * R * R * R) (toV4 : Z -> R * R * R * R)
    (res : R * R * R) (w : ColorWheel) (h : R) :
  let u := setShaderParams toHsv toV4 res w in
  Shader.rybhue_to_rgbhue h = convertHueAngle RYB h 1 /\
  (if (Shader.iMode u =? 1)%Z then Shader.rybhue_to_rgbhue h else h)
    = convertHueAngle (m_colorModel w) h 1 /\
  ((Shader.iMode u =? 2)%Z = ColorModel_eqb (m_colorModel w) NORMAL_MAP) /\
  negb (Shader.iDiscrete u =? 0)%Z = m_discrete w.
Proof.
  intros u.
  split; [reflexivity|].
  unfold u; simpl.
  split; [destruct (m_colorModel w); reflexivity|].
  split; [destruct (m_colorModel w); reflexivity|].
  destruct (m_discrete w); reflexivity.
Qed.

(** X18: the shader hands [hsv_to_rgb] normalised channels: for every
    angle the hue is in [0,1] (below 1 outside discrete mode) and for every
    distance up to the radius (0.5) the saturation is in [0,1]; in
    discrete mode the saturation is one of 0, 0.2, ..., 1.  Outside the
    radius the shader returns the neutral normal (0.5, 0.5, 1, 1) in
    normal-map mode and the background colour otherwise. *)
Theorem shader_main_spec (hsv_to_rgb : R * R * R -> R * R * R)
    (u : Shader.Uniforms) :
  (forall a, 0 <= Shader.hue u a <= 1 /\
             (Shader.iDiscrete u = 0%Z -> Shader.hue u a < 1)) /\
  (forall r, 0 <= r <= 1 / 2 ->
     0 <= Shader.sat u r <= 1 /\
     (Shader.iDiscrete u <> 0%Z ->
      exists k, (0 <= k <= 5)%Z /\ Shader.sat u r = IZR (20 * k) / 100)) /\
  (forall fx fy iResx iResy iResz,
     Shader.iRes u = (iResx, iResy, iResz) ->
     let m := Rmin iResx iResy in
     let dx := (fx - iResx / 2) / m in
     let dy := (fy - iResy / 2) / m in
     1 / 2 < sqrt (dx * dx + dy * dy) ->
     Shader.main hsv_to_rgb u (fx, fy) =
       if (Shader.iMode u =? 2)%Z then (1 / 2, 1 / 2, 1, 1)
       else Shader.iBack u).
Proof.
  split; [|split].
  - intros a. unfold Shader.hue.
    set (h0 := Shader.mod_ _ 360).
    assert (H0 : 0 <= h0 < 360) by apply shader_mod_range.
    destruct (Z.eqb_spec (Shader.iDiscrete u) 0) as [Ed|Ed]; simpl.
    + assert (Hw : 0 <= (if (Shader.iMode u =? 1)%Z
                         then Shader.rybhue_to_rgbhue h0 else h0) < 360).
      { destruct (Shader.iMode u =? 1)%Z; [|exact H0].
        change (Shader.rybhue_to_rgbhue h0) with (convertHueAngle RYB h0 1).
        now apply convertHueAngle_range. }
      split; [lra|]. intros _; lra.
    + pose proof (shader_floor_bound ((h0 + 15) / 30)) as F.
      set (q := Shader.floor ((h0 + 15) / 30)) in *.
      assert (Hq : 0 <= q * 30 <= 360).
      { unfold q, Shader.floor in *.
        assert (0 <= Zfloor ((h0 + 15) / 30) <= 12)%Z.
        { split; [apply Zfloor_lub; simpl; lra|].
          apply Z.lt_succ_r, lt_IZR. rewrite succ_IZR. simpl. lra. }
        destruct H as [A B]. apply IZR_le in A, B. lra. }
      assert (Hw : 0 <= (if (Shader.iMode u =? 1)%Z
                         then Shader.rybhue_to_rgbhue (q * 30) else q * 30)
                   <= 360).
      { destruct (Shader.iMode u =? 1)%Z; [|exact Hq].
        now apply rybhue_range. }
      split; [lra|]. intros E; contradiction.
  - intros r Hr. unfold Shader.sat.
    destruct (Z.eqb_spec (Shader.iDiscrete u) 0) as [Ed|Ed];
      cbv beta iota delta [negb].
    + split; [lra|]. intros E; contradiction.
    + rewrite shader_clamp_eq by lra.
      split; [apply clampR_bounds; lra|]. intros _.
      unfold Shader.floor.
      set (q := Zfloor (r / (1 / 2) * 120 / 20)).
      assert (Hq : (0 <= q <= 6)%Z).
      { unfold q. pose proof (Zfloor_bound (r / (1 / 2) * 120 / 20)) as B.
        split; [apply Zfloor_lub; simpl; lra|].
        apply le_IZR. lra. }
      destruct (Z.eq_dec q 6) as [E|E].
      * exists 5%Z. split; [lia|]. rewrite E.
        change (IZR (20 * 5)) with 100.
        unfold clampR.
        destruct (Rlt_dec (6 * 20 / 100) 0); [lra|].
        destruct (Rlt_dec 1 (6 * 20 / 100)); lra.
      * exists q. split; [lia|].
        assert (0 <= IZR q <= 5) by (split; apply IZR_le; lia).
        rewrite clampR_id by lra.
        rewrite mult_IZR. lra.
  - intros fx fy iResx iResy iResz Hres m dx dy Hout.
    unfold Shader.main. rewrite Hres. simpl fst. simpl snd.
    fold m. fold dx dy.
    now rewrite (proj2 (leR_false _ _) Hout).
Qed.


(** ** The normal-map wheel through [getMainAreaColor] *)

(** X20: in NORMAL_MAP mode, on a wheel of positive radius, a call that
    picks no harmony swatch returns an opaque RGB colour with red and
    green in [0,255] and blue in [128,255]; it is the neutral normal
    (128,128,255) outside the radius and at the centre. *)
Theorem getMainAreaColor_normal_map (w : ColorWheel) (_u umax _v vmax : Z)
    (c : Color) (w' : ColorWheel) :
  m_colorModel w = NORMAL_MAP ->
  0 < m_wheelRadius w ->
  getMainAreaColor w _u umax _v vmax = Some (c, w') ->
  m_harmonyPicked w' = false ->
  let u := (_u - umax ÷ 2)%Z in
  let v := (_v - vmax ÷ 2)%Z in
  (exists r g b,
     c = RgbColor r g b 255 /\
     (0 <= r <= 255)%Z /\ (0 <= g <= 255)%Z /\ (128 <= b <= 255)%Z) /\
  (m_wheelRadius w < wheelDistance w u v -> c = RgbColor 128 128 255 255) /\
  (u = 0%Z -> v = 0%Z -> c = RgbColor 128 128 255 255).
Proof.
  intros Hm Hpos Hget Hp u v.
  apply getMainAreaColor_unpicked in Hget; [|exact Hp].
  fold u v in Hget. subst c.
  destruct (wheelColor_normal_map w u v Hm Hpos)
    as (Hout & Hcentre & Hrange).
  split; [exact Hrange|]. split; [exact Hout|exact Hcentre].
Qed.

(** ** Two passes in a row *)

(** X21: when the stop flag is never raised and the pass of the base
    class leaves the two flags of the wheel alone, a pass leaves both of
    them clear, whatever they were, and a second pass right after it is
    the pass of the base class alone: the wheel reads no stop flag and
    writes nothing. *)
Theorem second_pass_idle (s : PaintState) (main bottom alpha : Rect) :
  (forall t, stop t = false) ->
  base_paint_leaves_wheel_flags svc ->
  exists s1,
    onPaintSurfaceInBgThread s main bottom alpha = Some s1 /\
    hasFlag (m_paintFlags (widget s1)) MainAreaFlag = false /\
    hasFlag (m_paintFlags (widget s1)) BottomBarFlag = false /\
    onPaintSurfaceInBgThread s1 main bottom alpha =
      Some (ColorSelector_onPaintSurfaceInBgThread svc stop
              s1 main bottom alpha).
Proof.
  intros Hnever Hbase.
  assert (Hmono : stop_monotone).
  { intros i j _ Hi. rewrite Hnever in Hi. discriminate. }
  assert (Hidle : forall s1,
            hasFlag (m_paintFlags (widget s1)) MainAreaFlag = false ->
            hasFlag (m_paintFlags (widget s1)) BottomBarFlag = false ->
            onPaintSurfaceInBgThread s1 main bottom alpha =
              Some (ColorSelector_onPaintSurfaceInBgThread svc stop
                      s1 main bottom alpha)).
  { intros s1 H1 H2.
    unfold onPaintSurfaceInBgThread, paintMainBlock, paintBottomBlock.
    now rewrite H1, H2. }
  assert (Hbottom : forall s0,
            hasFlag (m_paintFlags (widget s0)) MainAreaFlag = false ->
            let r := match paintBottomBlock bottom s0 with
                     | Return s => s
                     | Next s =>
                         ColorSelector_onPaintSurfaceInBgThread svc stop
                           s main bottom alpha
                     end in
            hasFlag (m_paintFlags (widget r)) MainAreaFlag = false /\
            hasFlag (m_paintFlags (widget r)) BottomBarFlag = false).
  { intros s0 H0 r.
    destruct (bottomBlock_spec Hmono Hbase main bottom alpha s0)
      as (Bm & Bclean & _ & Bfull & _).
    fold r in Bm, Bclean, Bfull.
    split; [congruence|].
    destruct (hasFlag (m_paintFlags (widget s0)) BottomBarFlag) eqn:E.
    - apply Bfull; [reflexivity|apply Hnever].
    - now apply Bclean. }
  unfold onPaintSurfaceInBgThread at 1. unfold paintMainBlock.
  destruct (hasFlag (m_paintFlags (widget s)) MainAreaFlag) eqn:Hm.
  - destruct (paintMainRows_spec Hmono main (Z.max 1 (rw main - 1))
                (Z.max 1 (rh main - 1)) (Z.to_nat (rh main)) 0 s)
      as (sm & Hsm & Hf & _ & _).
    fold (mainPass main s) in Hsm. rewrite Hsm.
    unfold readStop. rewrite Hnever.
    set (s0 := toggleFlag _ MainAreaFlag).
    assert (H0 : hasFlag (m_paintFlags (widget s0)) MainAreaFlag = false).
    { unfold s0; simpl. rewrite Hf.
      destruct (toggle_main (m_paintFlags (widget s))) as [T1 _].
      rewrite T1, Hm. reflexivity. }
    destruct (Hbottom s0 H0) as [R1 R2].
    match type of R1 with
    | hasFlag (m_paintFlags (widget ?r)) _ = _ => exists r
    end.
    split.
    { destruct (paintBottomBlock bottom s0); reflexivity. }
    split; [exact R1|]. split; [exact R2|].
    now apply Hidle.
  - destruct (Hbottom s Hm) as [R1 R2].
    match type of R1 with
    | hasFlag (m_paintFlags (widget ?r)) _ = _ => exists r
    end.
    split.
    { destruct (paintBottomBlock bottom s); reflexivity. }
    split; [exact R1|]. split; [exact R2|].
    now apply Hidle.
Qed.

(** ** The bottom bar: what is painted and what is picked *)

(** X22: column [x] of the bottom bar is painted with the hue and the
    saturation of the selection and the value [x / w] ([w] the width of
    the bar), which the shader computes as well and which never reaches 1;
    a pick at [u = x] with a maximum [umax] below the width returns the
    same hue and saturation and a value that is not lower, by at most
    [1 - umax / w], and that is 1 at [x = umax]. *)
Theorem bottom_bar_paint_vs_pick (w : ColorWheel) (bottom : Rect)
    (x umax : Z) :
  (0 < umax < rw bottom)%Z -> (0 <= x <= umax)%Z ->
  exists painted,
    bottomColumn w bottom x =
      DrawRect (mkRect (rx bottom + x) (ry bottom) 1 (rh bottom))
        (color_for_ui svc painted) /\
    (forall resy resz y,
       getHsvValue painted =
         BottomShader.value (IZR (rw bottom), resy, resz) (IZR x, y)) /\
    getHsvHue painted = getHsvHue (getBottomBarColor w x umax) /\
    getHsvSaturation painted
      = getHsvSaturation (getBottomBarColor w x umax) /\
    0 <= getHsvValue painted < 1 /\
    0 <= getHsvValue (getBottomBarColor w x umax) - getHsvValue painted
      <= 1 - IZR umax / IZR (rw bottom) /\
    (x = umax -> getHsvValue (getBottomBarColor w x umax) = 1).
Proof.
  intros Hu Hx.
  assert (HU : 0 < IZR umax) by (apply IZR_lt; lia).
  assert (HW : IZR umax < IZR (rw bottom)) by (apply IZR_lt; lia).
  assert (HX0 : 0 <= IZR x) by (apply IZR_le; lia).
  assert (HX1 : IZR x <= IZR umax) by (apply IZR_le; lia).
  assert (Hpick : 0 <= IZR x / IZR umax <= 1).
  { split.
    - apply Rmult_le_pos; [exact HX0|].
      apply Rlt_le, Rinv_0_lt_compat, HU.
    - apply Rmult_le_reg_r with (IZR umax); [exact HU|].
      unfold Rdiv. rewrite Rmult_assoc, Rinv_l by lra. lra. }
  exists (Color.fromHsv (getHsvHue (m_color w)) (getHsvSaturation (m_color w))
            (IZR x / IZR (rw bottom)) 255).
  unfold getBottomBarColor. rewrite clampR_id by exact Hpick.
  simpl getHsvHue. simpl getHsvSaturation. simpl getHsvValue.
  split; [reflexivity|]. split; [reflexivity|].
  split; [reflexivity|]. split; [reflexivity|].
  assert (Hpaint : 0 <= IZR x / IZR (rw bottom) < 1).
  { split.
    - apply Rmult_le_pos; [exact HX0|].
      apply Rlt_le, Rinv_0_lt_compat. lra.
    - apply Rmult_lt_reg_r with (IZR (rw bottom)); [lra|].
      unfold Rdiv. rewrite Rmult_assoc, Rinv_l by lra. lra. }
  split; [exact Hpaint|].
  split.
  - assert (E : IZR x / IZR umax - IZR x / IZR (rw bottom)
                = IZR x / IZR umax * (1 - IZR umax / IZR (rw bottom))).
    { field. lra. }
    rewrite E.
    assert (Hg : 0 <= 1 - IZR umax / IZR (rw bottom)).
    { assert (IZR umax / IZR (rw bottom) <= 1); [|lra].
      apply Rmult_le_reg_r with (IZR (rw bottom)); [lra|].
      unfold Rdiv. rewrite Rmult_assoc, Rinv_l by lra. lra. }
    split.
    + apply Rmult_le_pos; [apply Hpick|exact Hg].
    + rewrite <- (Rmult_1_l (1 - IZR umax / IZR (rw bottom))) at 2.
      apply Rmult_le_compat_r; [exact Hg|apply Hpick].
  - intros ->. unfold Rdiv. apply Rinv_r. lra.
Qed.

End Wheel.

(** * The wheel on concrete inputs *)

Lemma sqrt_2500 : sqrt (IZR 2500) = 50.
Proof.
  replace (IZR 2500) with (50 * 50) by lra. apply sqrt_square. lra.
Qed.

Lemma sample_base_repaint :
  base_repaint_leaves_wheel_flags Sample.services.
Proof.
  intros w c. simpl. unfold Sample.onNeedsSurfaceRepaint.
  destruct (_ =? _)%Z; reflexivity.
Qed.

Lemma sample_base_paint : base_paint_leaves_wheel_flags Sample.services.
Proof. intros stop s main bottom alpha. reflexivity. Qed.

Lemma sample_tolerance : diff_with_tolerance Sample.services (1 / 1000).
Proof. intros a b. simpl. unfold Sample.cs_double_diff. apply ltR_true. Qed.

Lemma stopAt_monotone (k : nat) : stop_monotone (Sample.stopAt k).
Proof.
  intros i j Hij. unfold Sample.stopAt.
  rewrite !Nat.leb_le. lia.
Qed.

(** The position 50 pixels right of the centre of a 200 x 200 area hits no
    swatch: the colour is the one of the wheel. *)
Lemma sample_pick_on_wheel (model : ColorModel) (discrete : bool) :
  getMainAreaColor Sample.services
    (Sample.wheel 200 model discrete Harmony.NONE) 149 199 99 199
  = Some (wheelColor Sample.services
            (Sample.wheel 200 model discrete Harmony.NONE) 50 0,
          Sample.wheel 200 model discrete Harmony.NONE).
Proof. reflexivity. Qed.

(** Neither does the position 505 pixels right of the centre of a
    2000 x 2000 area. *)
Lemma sample_pick_on_large_wheel :
  getMainAreaColor Sample.services
    (Sample.wheel 2000 STANDARD false Harmony.NONE) 1504 1999 999 1999
  = Some (wheelColor Sample.services
            (Sample.wheel 2000 STANDARD false Harmony.NONE) 505 0,
          Sample.wheel 2000 STANDARD false Harmony.NONE).
Proof. reflexivity. Qed.

(** In discrete mode the indicator of the colour picked 50 pixels right of
    the centre goes 59 pixels right of it. *)
Lemma sample_discrete_pick_place :
  pickThenPlace Sample.services
    (Sample.wheel 200 STANDARD true Harmony.NONE) 149 199 99 199
  = Some (59%Z, 0%Z).
Proof.
  unfold pickThenPlace. rewrite sample_pick_on_wheel.
  cbv beta iota. unfold placeSelection.
  rewrite wheelColor_axis; [|lia|simpl; lra|discriminate].
  assert (Hsat : wheelSat (Sample.wheel 200 STANDARD true Harmony.NONE) 50
                 = 60%Z).
  { unfold wheelSat; simpl m_discrete; simpl m_wheelRadius.
    rewrite (trunc_nonneg _ 60) by lra. reflexivity. }
  rewrite Hsat.
  simpl m_colorModel.
  rewrite convertHueAngle_identity by discriminate.
  rewrite (trunc_IZR 30), (clampZ_id 30) by lia.
  rewrite (clampR_id (60 / 100)) by lra.
  rewrite harmony_0_of_selection by lra.
  simpl m_colorModel.
  rewrite convertHueAngle_identity by discriminate.
  rewrite indicatorOffset_axis.
  simpl m_wheelRadius.
  rewrite (trunc_nonneg _ 59) by lra. reflexivity.
Qed.

(** In continuous mode, on a wheel of radius 999.9, the indicator of the
    colour picked 505 pixels right of the centre goes 499 pixels right of
    it. *)
Lemma sample_continuous_pick_place :
  pickThenPlace Sample.services
    (Sample.wheel 2000 STANDARD false Harmony.NONE) 1504 1999 999 1999
  = Some (499%Z, 0%Z).
Proof.
  unfold pickThenPlace. rewrite sample_pick_on_large_wheel.
  cbv beta iota. unfold placeSelection.
  rewrite wheelColor_axis; [|lia|simpl; lra|discriminate].
  assert (Hsat : wheelSat (Sample.wheel 2000 STANDARD false Harmony.NONE) 505
                 = 50%Z).
  { unfold wheelSat; simpl m_discrete; simpl m_wheelRadius.
    apply trunc_nonneg; lra. }
  rewrite Hsat.
  simpl m_colorModel.
  rewrite convertHueAngle_identity by discriminate.
  rewrite (trunc_IZR 30), (clampZ_id 30) by lia.
  rewrite (clampR_id (50 / 100)) by lra.
  rewrite harmony_0_of_selection by lra.
  simpl m_colorModel.
  rewrite convertHueAngle_identity by discriminate.
  rewrite indicatorOffset_axis.
  simpl m_wheelRadius.
  rewrite (trunc_nonneg _ 499) by lra. reflexivity.
Qed.

Lemma sample_inside :
  let u := (149 - 199 ÷ 2)%Z in
  let v := (99 - 199 ÷ 2)%Z in
  forall model discrete,
    sqrt (IZR (u * u + v * v))
    <= m_wheelRadius (Sample.wheel 200 model discrete Harmony.NONE).
Proof.
  intros u v model discrete.
  change (IZR (u * u + v * v)) with (IZR 2500).
  rewrite sqrt_2500. simpl; lra.
Qed.

Lemma sqrt_3_bounds : 173 / 100 < sqrt 3 < 174 / 100.
Proof.
  split.
  - rewrite <- (sqrt_square (173 / 100)) by lra.
    apply sqrt_lt_1_alt. lra.
  - rewrite <- (sqrt_square (174 / 100)) by lra.
    apply sqrt_lt_1_alt. lra.
Qed.

(** With the SQUARE pattern, the position (125,185) of a 200 x 200 area
    is inside the wheel and inside the first swatch: the pick is the
    selected red, and its indicator goes to the offset (86,49). *)
Lemma sample_swatch_pick_place :
  getMainAreaColor Sample.services
    (Sample.wheel 200 STANDARD false Harmony.SQUARE) 125 199 185 199
  = Some (HsvColor 0 1 1 255,
          set_harmonyPicked
            (Sample.wheel 200 STANDARD false Harmony.SQUARE) true) /\
  pickThenPlace Sample.services
    (Sample.wheel 200 STANDARD false Harmony.SQUARE) 125 199 185 199
  = Some (86%Z, 49%Z).
Proof.
  assert (Hget :
    getMainAreaColor Sample.services
      (Sample.wheel 200 STANDARD false Harmony.SQUARE) 125 199 185 199
    = Some (HsvColor 0 1 1 255,
            set_harmonyPicked
              (Sample.wheel 200 STANDARD false Harmony.SQUARE) true)).
  { transitivity
      (Some (HsvColor (fmod (0 + 0) 360) (clampR (1 * 100 / 100) 0 1) 1 255,
             set_harmonyPicked
               (Sample.wheel 200 STANDARD false Harmony.SQUARE) true));
      [reflexivity|].
    rewrite Rplus_0_r, fmod_small by lra.
    replace (1 * 100 / 100) with 1 by lra.
    now rewrite clampR_id by lra. }
  split; [exact Hget|].
  unfold pickThenPlace. rewrite Hget.
  cbv beta iota. unfold placeSelection.
  rewrite harmony_0_of_selection by lra.
  simpl m_colorModel.
  rewrite convertHueAngle_identity by discriminate.
  unfold indicatorOffset. simpl getHsvHue. simpl getHsvSaturation.
  simpl m_wheelRadius.
  replace (PI * (0 - 30) / 180) with (- (PI / 6)) by (unfold Rdiv; field).
  rewrite cos_neg, sin_neg, cos_PI6, sin_PI6.
  pose proof sqrt_3_bounds as B.
  rewrite (trunc_nonneg _ 86) by lra.
  rewrite (trunc_nonneg _ 49) by lra.
  reflexivity.
Qed.

(** C1, as stated, fails.  In discrete mode (radius 99.9) the position
    (149,99), offset (50,0), comes back as (59,0).  In continuous mode on
    a large wheel (radius 999.9) the position (1504,999), offset (505,0),
    comes back as (499,0).  And a position inside the wheel that lies in a
    harmony swatch is picked as that harmony: with the SQUARE pattern the
    position (125,185), offset (26,86), comes back as (86,49).  All three
    are inside the wheel and come back more than one pixel away. *)
Lemma round_trip_counterexample :
  (sqrt (IZR ((149 - 199 ÷ 2) * (149 - 199 ÷ 2)
              + (99 - 199 ÷ 2) * (99 - 199 ÷ 2)))
     <= m_wheelRadius (Sample.wheel 200 STANDARD true Harmony.NONE) /\
   pickThenPlace Sample.services
     (Sample.wheel 200 STANDARD true Harmony.NONE) 149 199 99 199
     = Some (59%Z, 0%Z) /\
   ~ Rabs (IZR 59 - IZR (149 - 199 ÷ 2)) <= 1) /\
  (sqrt (IZR ((1504 - 1999 ÷ 2) * (1504 - 1999 ÷ 2)
              + (999 - 1999 ÷ 2) * (999 - 1999 ÷ 2)))
     <= m_wheelRadius (Sample.wheel 2000 STANDARD false Harmony.NONE) /\
   pickThenPlace Sample.services
     (Sample.wheel 2000 STANDARD false Harmony.NONE) 1504 1999 999 1999
     = Some (499%Z, 0%Z) /\
   ~ Rabs (IZR 499 - IZR (1504 - 1999 ÷ 2)) <= 1) /\
  (sqrt (IZR ((125 - 199 ÷ 2) * (125 - 199 ÷ 2)
              + (185 - 199 ÷ 2) * (185 - 199 ÷ 2)))
     <= m_wheelRadius (Sample.wheel 200 STANDARD false Harmony.SQUARE) /\
   pickThenPlace Sample.services
     (Sample.wheel 200 STANDARD false Harmony.SQUARE) 125 199 185 199
     = Some (86%Z, 49%Z) /\
   ~ Rabs (IZR 86 - IZR (125 - 199 ÷ 2)) <= 1).
Proof.
  split; [|split]; split.
  - change (IZR _) with (IZR 2500). rewrite sqrt_2500. simpl; lra.
  - split; [exact sample_discrete_pick_place|].
    change (IZR (149 - 199 ÷ 2)) with (IZR 50).
    unfold Rabs; destruct (Rcase_abs _); lra.
  - change (IZR _) with (IZR 255025).
    replace (IZR 255025) with (505 * 505) by lra.
    rewrite sqrt_square by lra. simpl; lra.
  - split; [exact sample_continuous_pick_place|].
    change (IZR (1504 - 1999 ÷ 2)) with (IZR 505).
    unfold Rabs; destruct (Rcase_abs _); lra.
  - change (IZR _) with (IZR 8072). simpl m_wheelRadius.
    apply Rle_trans with 90; [|lra].
    rewrite <- (sqrt_square 90) by lra.
    apply sqrt_le_1_alt. lra.
  - split; [exact (proj2 sample_swatch_pick_place)|].
    change (IZR (125 - 199 ÷ 2)) with (IZR 26).
    unfold Rabs; destruct (Rcase_abs _); lra.
Qed.

(** The amended C1 at work on the wheel of radius 99.9, at the position
    (149,99), offset (50,0): in continuous mode under RYB, and in discrete
    mode under STANDARD. *)
Lemma pick_then_place_error_witness :
  (m_colorModel (Sample.wheel 200 RYB false Harmony.NONE) <> NORMAL_MAP /\
   0 < m_wheelRadius (Sample.wheel 200 RYB false Harmony.NONE) /\
   getMainAreaColor Sample.services
     (Sample.wheel 200 RYB false Harmony.NONE) 149 199 99 199
   = Some (wheelColor Sample.services
             (Sample.wheel 200 RYB false Harmony.NONE) 50 0,
           Sample.wheel 200 RYB false Harmony.NONE) /\
   m_harmonyPicked (Sample.wheel 200 RYB false Harmony.NONE) = false /\
   sqrt (IZR ((149 - 199 ÷ 2) * (149 - 199 ÷ 2)
              + (99 - 199 ÷ 2) * (99 - 199 ÷ 2)))
     <= m_wheelRadius (Sample.wheel 200 RYB false Harmony.NONE) /\
   exists x y,
     pickThenPlace Sample.services
       (Sample.wheel 200 RYB false Harmony.NONE) 149 199 99 199
     = Some (x, y) /\
     Rabs (IZR x - IZR 50)
       < 1 + (IZR 200 / 2 - 1 / 10) / 100 + 50 * (PI / 90) /\
     Rabs (IZR y - IZR 0)
       < 1 + (IZR 200 / 2 - 1 / 10) / 100 + 50 * (PI / 90)) /\
  (exists x y,
     pickThenPlace Sample.services
       (Sample.wheel 200 STANDARD true Harmony.NONE) 149 199 99 199
     = Some (x, y) /\
     Rabs (IZR x - IZR 50)
       < 1 + (IZR 200 / 2 - 1 / 10) / 5 + 50 * (17 * PI / 180) /\
     Rabs (IZR y - IZR 0)
       < 1 + (IZR 200 / 2 - 1 / 10) / 5 + 50 * (17 * PI / 180)).
Proof.
  split.
  - split; [discriminate|]. split; [simpl; lra|].
    split; [apply sample_pick_on_wheel|]. split; [reflexivity|].
    split; [apply (sample_inside RYB false)|].
    destruct (pick_then_place_error Sample.services
                (Sample.wheel 200 RYB false Harmony.NONE) 149 199 99 199
                _ _ ltac:(discriminate) ltac:(simpl; lra)
                (sample_pick_on_wheel RYB false) eq_refl
                (sample_inside RYB false))
      as (x & y & Hp & Hcont & _).
    destruct (Hcont eq_refl) as (Hx & Hy & _).
    exists x, y. split; [exact Hp|].
    change (IZR ((149 - 199 ÷ 2) * (149 - 199 ÷ 2)
                 + (99 - 199 ÷ 2) * (99 - 199 ÷ 2)))
      with (IZR 2500) in Hx, Hy.
    rewrite sqrt_2500 in Hx, Hy.
    split; [exact Hx|exact Hy].
  - destruct (pick_then_place_error Sample.services
                (Sample.wheel 200 STANDARD true Harmony.NONE) 149 199 99 199
                _ _ ltac:(discriminate) ltac:(simpl; lra)
                (sample_pick_on_wheel STANDARD true) eq_refl
                (sample_inside STANDARD true))
      as (x & y & Hp & _ & Hdisc).
    destruct (Hdisc eq_refl) as (Hx & Hy).
    exists x, y. split; [exact Hp|].
    change (IZR ((149 - 199 ÷ 2) * (149 - 199 ÷ 2)
                 + (99 - 199 ÷ 2) * (99 - 199 ÷ 2)))
      with (IZR 2500) in Hx, Hy.
    rewrite sqrt_2500 in Hx, Hy.
    split; [exact Hx|exact Hy].
Defined.

(** C2 at work on the RYB hue 90. *)
Lemma convertHueAngle_inverse_witness :
  0 <= 90 < 360 /\
  convertHueAngle RYB (convertHueAngle RYB 90 (-1)) 1 = 90 /\
  convertHueAngle RYB (convertHueAngle RYB 90 1) (-1) = 90 /\
  convertHueAngle RYB 90 1 = 90 / 2.
Proof.
  assert (H : 0 <= 90 < 360) by lra.
  split; [exact H|].
  destruct (convertHueAngle_inverse RYB 90 H) as (H1 & H2 & H3 & _).
  split; [exact H1|]. split; [exact H2|].
  destruct (H3 eq_refl) as (F1 & _). apply F1. lra.
Defined.

(** C3, as stated, fails under RYB: in discrete mode the colour picked 50
    pixels right of the centre (inside the wheel, no swatch hit) has hue
    15, which is not a multiple of 30. *)
Lemma discrete_hue_counterexample :
  exists c w',
    m_discrete (Sample.wheel 200 RYB true Harmony.NONE) = true /\
    getMainAreaColor Sample.services
      (Sample.wheel 200 RYB true Harmony.NONE) 149 199 99 199
      = Some (c, w') /\
    m_harmonyPicked w' = false /\
    sqrt (IZR ((149 - 199 ÷ 2) * (149 - 199 ÷ 2)
               + (99 - 199 ÷ 2) * (99 - 199 ÷ 2)))
      <= m_wheelRadius (Sample.wheel 200 RYB true Harmony.NONE) /\
    getHsvHue Sample.services c = 15 /\
    ~ exists k : Z, getHsvHue Sample.services c = IZR (30 * k).
Proof.
  eexists _, _.
  split; [reflexivity|].
  split; [apply sample_pick_on_wheel|].
  split; [reflexivity|].
  split; [apply (sample_inside RYB true)|].
  assert (E : getHsvHue Sample.services
                (wheelColor Sample.services
                   (Sample.wheel 200 RYB true Harmony.NONE) 50 0) = 15).
  { rewrite wheelColor_axis; [|lia|simpl; lra|discriminate].
    simpl getHsvHue. simpl m_colorModel.
    destruct (convertHueAngle_forward 30 ltac:(lra)) as (F1 & _).
    rewrite F1 by lra.
    rewrite (trunc_nonneg _ 15) by lra.
    reflexivity. }
  split; [exact E|].
  rewrite E. intros (k & Hk).
  apply eq_IZR in Hk. lia.
Qed.

(** The amended C3 at work under STANDARD. *)
Lemma discrete_hue_spec_witness :
  m_discrete (Sample.wheel 200 STANDARD true Harmony.NONE) = true /\
  m_colorModel (Sample.wheel 200 STANDARD true Harmony.NONE) <> NORMAL_MAP /\
  getMainAreaColor Sample.services
    (Sample.wheel 200 STANDARD true Harmony.NONE) 149 199 99 199
    = Some (wheelColor Sample.services
              (Sample.wheel 200 STANDARD true Harmony.NONE) 50 0,
            Sample.wheel 200 STANDARD true Harmony.NONE) /\
  m_harmonyPicked (Sample.wheel 200 STANDARD true Harmony.NONE) = false /\
  sqrt (IZR ((149 - 199 ÷ 2) * (149 - 199 ÷ 2)
             + (99 - 199 ÷ 2) * (99 - 199 ÷ 2)))
    <= m_wheelRadius (Sample.wheel 200 STANDARD true Harmony.NONE) /\
  exists k,
    (0 <= k < 12)%Z /\
    getHsvHue Sample.services
      (wheelColor Sample.services
         (Sample.wheel 200 STANDARD true Harmony.NONE) 50 0)
    = IZR (30 * k).
Proof.
  split; [reflexivity|]. split; [discriminate|].
  split; [apply sample_pick_on_wheel|]. split; [reflexivity|].
  split; [apply (sample_inside STANDARD true)|].
  destruct (discrete_hue_spec Sample.services
              (Sample.wheel 200 STANDARD true Harmony.NONE) 149 199 99 199
              _ _ eq_refl ltac:(discriminate)
              (sample_pick_on_wheel STANDARD true) eq_refl
              (sample_inside STANDARD true))
    as (Hk & _ & _ & _ & Hstd).
  eexists. split; [exact Hk|]. exact (Hstd eq_refl).
Defined.



(** C5 on the code: in NORMAL_MAP mode, with an opaque selection, the
    position (185,185) of a 200 x 200 area lies outside the wheel (86
    pixels right of and below the centre, radius 99.9) but inside the
    harmony swatch; [getMainAreaColor] returns the harmony colour (the
    selected red, as an HSV colour) and sets [m_harmonyPicked], not the
    neutral normal (128,128,255). *)
Theorem normal_map_swatch_pick :
  m_colorModel (Sample.wheel 200 NORMAL_MAP false Harmony.NONE) = NORMAL_MAP /\
  hasCaptureInMainArea (Sample.wheel 200 NORMAL_MAP false Harmony.NONE)
    = false /\
  m_wheelRadius (Sample.wheel 200 NORMAL_MAP false Harmony.NONE)
    < sqrt (IZR ((185 - 199 ÷ 2) * (185 - 199 ÷ 2)
                 + (185 - 199 ÷ 2) * (185 - 199 ÷ 2))) /\
  getMainAreaColor Sample.services
    (Sample.wheel 200 NORMAL_MAP false Harmony.NONE) 185 199 185 199
  = Some (HsvColor 0 1 1 255,
          set_harmonyPicked
            (Sample.wheel 200 NORMAL_MAP false Harmony.NONE) true) /\
  HsvColor 0 1 1 255 <> Color.fromRgb 128 128 255.
Proof.
  split; [reflexivity|]. split; [reflexivity|].
  split.
  { change (IZR ((185 - 199 ÷ 2) * (185 - 199 ÷ 2)
                 + (185 - 199 ÷ 2) * (185 - 199 ÷ 2))) with (IZR 14792).
    simpl m_wheelRadius.
    apply Rlt_trans with 100; [lra|].
    rewrite <- (sqrt_square 100) at 1 by lra.
    apply sqrt_lt_1_alt. lra. }
  split; [|discriminate].
  transitivity
    (Some (HsvColor (fmod (0 + 0) 360) (clampR (1 * 100 / 100) 0 1) 1 255,
           set_harmonyPicked
             (Sample.wheel 200 NORMAL_MAP false Harmony.NONE) true));
    [reflexivity|].
  rewrite Rplus_0_r, fmod_small by lra.
  replace (1 * 100 / 100) with 1 by lra.
  now rewrite clampR_id by lra.
Qed.

(** C6 at work: the two scenarios, with the tolerance of one thousandth. *)
Lemma onNeedsSurfaceRepaint_spec_witness :
  base_repaint_leaves_wheel_flags Sample.services /\
  diff_with_tolerance Sample.services (1 / 1000) /\
  0 <= 1 / 1000 < 3 / 10 /\
  (let w := set_color (Sample.wheel 200 STANDARD false Harmony.NONE)
              (HsvColor 0 (1 / 2) (1 / 2) 255) in
   let value80 := HsvColor 0 (1 / 2) (8 / 10) 255 in
   let hue10 := HsvColor 10 (1 / 2) (1 / 2) 255 in
   hasFlag (onNeedsSurfaceRepaint Sample.services w value80) MainAreaFlag
     = true /\
   hasFlag (onNeedsSurfaceRepaint Sample.services w value80) BottomBarFlag
     = false /\
   hasFlag (onNeedsSurfaceRepaint Sample.services w hue10) BottomBarFlag
     = true /\
   hasFlag (onNeedsSurfaceRepaint Sample.services w hue10) MainAreaFlag
     = false).
Proof.
  split; [exact sample_base_repaint|].
  split; [exact sample_tolerance|].
  split; [lra|].
  intros w value80 hue10.
  destruct (onNeedsSurfaceRepaint_spec Sample.services w value80
              sample_base_repaint) as (_ & _ & Hscen).
  assert (Heps : 0 <= 1 / 1000 < 3 / 10) by lra.
  exact (Hscen (1 / 1000) 255%Z 255%Z sample_tolerance Heps eq_refl eq_refl).
Defined.

(** C7 at work: the TRIADIC pattern on the red of the sample wheel. *)
Lemma getColorInHarmony_spec_witness :
  array_get harmonies
    (clampZ (m_harmony (Sample.wheel 200 STANDARD false Harmony.TRIADIC))
       0 Harmony.LAST)
    = Some (mkHarmony 3 [0; 120; 240; 0]%Z [100; 100; 100; 0]%Z) /\
  (0 <= 1 < 3)%Z /\
  (exists hue,
     getColorInHarmony Sample.services
       (Sample.wheel 200 STANDARD false Harmony.TRIADIC) 1
     = Some (HsvColor hue (clampR (1 * IZR 100 / 100) 0 1) 1 255) /\
     0 <= hue < 360) /\
  getHarmonies (Sample.wheel 200 STANDARD false Harmony.TRIADIC) = Some 3%Z /\
  map (getColorInHarmony Sample.services
         (Sample.wheel 200 STANDARD false Harmony.TRIADIC)) [0; 1; 2]%Z =
    [ Some (HsvColor 0 1 1 255)
    ; Some (HsvColor 120 1 1 255)
    ; Some (HsvColor 240 1 1 255) ].
Proof.
  split; [reflexivity|]. split; [lia|].
  destruct (getColorInHarmony_spec Sample.services
              (Sample.wheel 200 STANDARD false Harmony.TRIADIC))
    as [Hgen Hscen].
  split.
  - assert (Hj : (0 <= 1 < n (mkHarmony 3 [0; 120; 240; 0]
                                 [100; 100; 100; 0]))%Z) by (simpl; lia).
    destruct (Hgen (mkHarmony 3 [0; 120; 240; 0]%Z [100; 100; 100; 0]%Z)
                1%Z eq_refl Hj)
      as (hj & sj & hue & k & Hh & Hs & Hc & _ & _ & Hrange & _).
    injection Hs as <-.
    exists hue. split; [exact Hc|].
    apply Hrange. simpl; lra.
  - exact (Hscen eq_refl eq_refl eq_refl eq_refl).
Defined.

(** C9, as stated, fails when the stop flag is lowered again during the
    pass: on a main area of 2 x 1 pixels, with a stop flag that only the
    third read finds raised, the inner loop leaves after one pixel, the
    test after the loops finds the flag clear, and MAIN_AREA is cleared
    with one of the two pixels written. *)
Lemma cleared_after_partial_pass :
  Sample.stopOnlyAt 2 2 = true /\
  ~ stop_monotone (Sample.stopOnlyAt 2) /\
  base_paint_leaves_wheel_flags Sample.services /\
  exists s',
    onPaintSurfaceInBgThread Sample.services (Sample.stopOnlyAt 2)
      (mkPaintState (Sample.wheel 200 STANDARD false Harmony.NONE) [] 0)
      (mkRect 0 0 2 1) (mkRect 0 1 0 1) (mkRect 0 2 0 1) = Some s' /\
    hasFlag (m_paintFlags (widget s')) MainAreaFlag = false /\
    length (surface s') = 1%nat /\
    (Z.to_nat (rw (mkRect 0 0 2 1)) * Z.to_nat (rh (mkRect 0 0 2 1)))%nat
      = 2%nat.
Proof.
  split; [reflexivity|].
  split.
  { intros H. specialize (H 2%nat 3%nat ltac:(lia) eq_refl). discriminate. }
  split; [exact sample_base_paint|].
  eexists. split; [reflexivity|].
  split; [reflexivity|]. split; reflexivity.
Qed.

(** C9 at work on a 3 x 2 main area and a 3 x 1 bottom bar.  A stop flag
    raised at its fourth read interrupts the main loop after two pixels:
    the function returns with every flag still dirty.  A stop flag that is
    never raised lets both loops run to their end, and both flags of the
    wheel are cleared. *)
Lemma onPaintSurfaceInBgThread_flags_witness :
  stop_monotone (Sample.stopAt 3) /\
  stop_monotone (fun _ => false) /\
  base_paint_leaves_wheel_flags Sample.services /\
  (exists s',
     onPaintSurfaceInBgThread Sample.services (Sample.stopAt 3)
       (mkPaintState (Sample.wheel 200 STANDARD false Harmony.NONE) [] 0)
       (mkRect 0 0 3 2) (mkRect 0 2 3 1) (mkRect 0 3 3 1) = Some s' /\
     length (surface s') = 2%nat /\
     m_paintFlags (widget s') = AllAreasFlag) /\
  (exists s',
     onPaintSurfaceInBgThread Sample.services (fun _ => false)
       (mkPaintState (Sample.wheel 200 STANDARD false Harmony.NONE) [] 0)
       (mkRect 0 0 3 2) (mkRect 0 2 3 1) (mkRect 0 3 3 1) = Some s' /\
     hasFlag (m_paintFlags (widget s')) MainAreaFlag = false /\
     hasFlag (m_paintFlags (widget s')) BottomBarFlag = false).
Proof.
  assert (Hnever : stop_monotone (fun _ : nat => false)).
  { intros i j _ H. discriminate. }
  split; [apply stopAt_monotone|].
  split; [exact Hnever|].
  split; [exact sample_base_paint|].
  split.
  - destruct (onPaintSurfaceInBgThread_flags Sample.services
                (Sample.stopAt 3)
                (mkPaintState (Sample.wheel 200 STANDARD false Harmony.NONE)
                   [] 0)
                (mkRect 0 0 3 2) (mkRect 0 2 3 1) (mkRect 0 3 3 1)
                (stopAt_monotone 3) sample_base_paint)
      as (s' & Hrun & _ & _ & Hmain & _).
    exists s'. split; [exact Hrun|].
    destruct (Hmain eq_refl) as (sm & Hsm & Hstop & _).
    assert (Hc : option_map clock
                   (mainPass Sample.services (Sample.stopAt 3)
                      (mkRect 0 0 3 2)
                      (mkPaintState
                         (Sample.wheel 200 STANDARD false Harmony.NONE)
                         [] 0))
                 = Some 5%nat) by reflexivity.
    assert (Hl : option_map (fun s => length (surface s))
                   (mainPass Sample.services (Sample.stopAt 3)
                      (mkRect 0 0 3 2)
                      (mkPaintState
                         (Sample.wheel 200 STANDARD false Harmony.NONE)
                         [] 0))
                 = Some 2%nat) by reflexivity.
    rewrite Hsm in Hc, Hl. simpl in Hc, Hl.
    injection Hc as Hc. injection Hl as Hl.
    assert (Hs : Sample.stopAt 3 (clock sm) = true) by (now rewrite Hc).
    destruct (Hstop Hs) as [-> Hf].
    split; [exact Hl|exact Hf].
  - destruct (onPaintSurfaceInBgThread_flags Sample.services
                (fun _ => false)
                (mkPaintState (Sample.wheel 200 STANDARD false Harmony.NONE)
                   [] 0)
                (mkRect 0 0 3 2) (mkRect 0 2 3 1) (mkRect 0 3 3 1)
                Hnever sample_base_paint)
      as (s' & Hrun & _ & _ & Hmain & _ & Hbottom).
    exists s'. split; [exact Hrun|].
    destruct (Hmain eq_refl) as (sm & Hsm & _ & Hclear & _).
    split; [exact (Hclear eq_refl)|].
    assert (Hblock :
      paintMainBlock Sample.services (fun _ => false) (mkRect 0 0 3 2)
        (mkPaintState (Sample.wheel 200 STANDARD false Harmony.NONE) [] 0)
      = Some (Next (toggleFlag
                      (tick (fun _ => false) sm) MainAreaFlag))).
    { unfold paintMainBlock. rewrite Hsm. reflexivity. }
    destruct (Hbottom _ Hblock eq_refl) as [_ Hb].
    exact (Hb eq_refl).
Defined.

(** ** The further properties on concrete inputs *)

Lemma sample_outside :
  m_wheelRadius (Sample.wheel 200 STANDARD false Harmony.NONE)
  < sqrt (IZR ((0 - 199 ÷ 2) * (0 - 199 ÷ 2)
               + (0 - 199 ÷ 2) * (0 - 199 ÷ 2))).
Proof.
  change (IZR ((0 - 199 ÷ 2) * (0 - 199 ÷ 2)
               + (0 - 199 ÷ 2) * (0 - 199 ÷ 2))) with (IZR 19602).
  simpl m_wheelRadius.
  apply Rlt_trans with 100; [lra|].
  rewrite <- (sqrt_square 100) at 1 by lra.
  apply sqrt_lt_1_alt. lra.
Qed.

Lemma sample_distance (model : ColorModel) (discrete : bool) :
  wheelDistance (Sample.wheel 200 model discrete Harmony.NONE) 50 0 = 50.
Proof.
  unfold wheelDistance. simpl andb. cbv iota.
  change (IZR (50 * 50 + 0 * 0)) with (IZR 2500). apply sqrt_2500.
Qed.

(** The second swatch of the COMPLEMENTARY pattern, at (185,185) of a
    200 x 200 area. *)
Lemma getMainAreaColor_swatch_witness :
  (0 < Color.getAlpha
         (m_color (Sample.wheel 200 STANDARD false Harmony.COMPLEMENTARY)))%Z /\
  getHarmonies (Sample.wheel 200 STANDARD false Harmony.COMPLEMENTARY)
    = Some 2%Z /\
  (0 <= 1 < 2)%Z /\
  Rect_contains (swatchRect 199 199 2 (Z.min (199 ÷ 10) (199 ÷ 10)) 1)
    (185, 185)%Z = true /\
  exists c,
    getColorInHarmony Sample.services
      (Sample.wheel 200 STANDARD false Harmony.COMPLEMENTARY) 1 = Some c /\
    getMainAreaColor Sample.services
      (Sample.wheel 200 STANDARD false Harmony.COMPLEMENTARY) 185 199 185 199
    = Some (HsvColor (getHsvHue Sample.services c)
              (getHsvSaturation Sample.services c)
              (getHsvValue Sample.services c) 255,
            set_harmonyPicked
              (Sample.wheel 200 STANDARD false Harmony.COMPLEMENTARY) true).
Proof.
  split; [reflexivity|]. split; [reflexivity|]. split; [lia|].
  split; [reflexivity|].
  destruct (getMainAreaColor_swatch Sample.services
              (Sample.wheel 200 STANDARD false Harmony.COMPLEMENTARY)
              185 199 185 199 2 1 eq_refl eq_refl ltac:(lia) eq_refl)
    as (c & Hc & Hget & _).
  exists c. split; [exact Hc|].
  rewrite Hget. simpl m_colorModel.
  rewrite convertHueAngle_identity by discriminate.
  reflexivity.
Defined.

(** The corner (0,0) of a 200 x 200 area is outside the wheel: without
    the mouse capture the pick is the mask colour. *)
Lemma getMainAreaColor_outside_witness :
  m_colorModel (Sample.wheel 200 STANDARD false Harmony.NONE) <> NORMAL_MAP /\
  0 < m_wheelRadius (Sample.wheel 200 STANDARD false Harmony.NONE) /\
  getMainAreaColor Sample.services
    (Sample.wheel 200 STANDARD false Harmony.NONE) 0 199 0 199
  = Some (wheelColor Sample.services
            (Sample.wheel 200 STANDARD false Harmony.NONE) (-99) (-99),
          Sample.wheel 200 STANDARD false Harmony.NONE) /\
  m_harmonyPicked (Sample.wheel 200 STANDARD false Harmony.NONE) = false /\
  m_wheelRadius (Sample.wheel 200 STANDARD false Harmony.NONE)
  < sqrt (IZR ((0 - 199 ÷ 2) * (0 - 199 ÷ 2)
               + (0 - 199 ÷ 2) * (0 - 199 ÷ 2))) /\
  wheelColor Sample.services
    (Sample.wheel 200 STANDARD false Harmony.NONE) (-99) (-99)
  = Color.fromMask.
Proof.
  split; [discriminate|]. split; [simpl; lra|].
  split; [reflexivity|]. split; [reflexivity|].
  split; [exact sample_outside|].
  exact (proj1 (getMainAreaColor_outside Sample.services
                  (Sample.wheel 200 STANDARD false Harmony.NONE) 0 199 0 199
                  _ _ ltac:(discriminate) ltac:(simpl; lra)
                  eq_refl eq_refl sample_outside) eq_refl).
Defined.

(** A pick 50 pixels right of the centre, inside the wheel. *)
Lemma getMainAreaColor_wheel_valid_witness :
  m_colorModel (Sample.wheel 200 RYB false Harmony.NONE) <> NORMAL_MAP /\
  0 < m_wheelRadius (Sample.wheel 200 RYB false Harmony.NONE) /\
  getMainAreaColor Sample.services
    (Sample.wheel 200 RYB false Harmony.NONE) 149 199 99 199
  = Some (wheelColor Sample.services
            (Sample.wheel 200 RYB false Harmony.NONE) 50 0,
          Sample.wheel 200 RYB false Harmony.NONE) /\
  m_harmonyPicked (Sample.wheel 200 RYB false Harmony.NONE) = false /\
  wheelDistance (Sample.wheel 200 RYB false Harmony.NONE)
    (149 - 199 ÷ 2) (99 - 199 ÷ 2)
  <= m_wheelRadius (Sample.wheel 200 RYB false Harmony.NONE) /\
  valid_hsv Sample.services
    (wheelColor Sample.services
       (Sample.wheel 200 RYB false Harmony.NONE) 50 0).
Proof.
  assert (Hd : wheelDistance (Sample.wheel 200 RYB false Harmony.NONE)
                 (149 - 199 ÷ 2) (99 - 199 ÷ 2)
               <= m_wheelRadius (Sample.wheel 200 RYB false Harmony.NONE)).
  { change (149 - 199 ÷ 2)%Z with 50%Z. change (99 - 199 ÷ 2)%Z with 0%Z.
    rewrite sample_distance. simpl; lra. }
  split; [discriminate|]. split; [simpl; lra|].
  split; [apply sample_pick_on_wheel|]. split; [reflexivity|].
  split; [exact Hd|].
  destruct (getMainAreaColor_wheel_valid Sample.services
              (Sample.wheel 200 RYB false Harmony.NONE) 149 199 99 199
              _ _ ltac:(discriminate) ltac:(simpl; lra)
              (sample_pick_on_wheel RYB false) eq_refl Hd)
    as (H & S & _ & _ & _ & Hvalid).
  exact Hvalid.
Defined.

(** Twice as far from the centre in the same direction. *)
Lemma wheelHue_along_ray_witness :
  (0 < 2)%Z /\
  wheelHue (Sample.wheel 200 RYB true Harmony.NONE) (2 * 30) (2 * (-7))
  = wheelHue (Sample.wheel 200 RYB true Harmony.NONE) 30 (-7).
Proof.
  split; [lia|].
  exact (proj1 (proj2 (wheelHue_along_ray Sample.services
                         (Sample.wheel 200 RYB true Harmony.NONE) 2 30 (-7)
                         ltac:(lia)))).
Defined.

(** The discrete normal-map wheel 50 pixels right of the centre: the
    third of the five bands of a wheel of radius 99.9. *)
Lemma normal_map_discrete_levels_witness :
  m_colorModel (Sample.wheel 200 NORMAL_MAP true Harmony.NONE) = NORMAL_MAP /\
  m_discrete (Sample.wheel 200 NORMAL_MAP true Harmony.NONE) = true /\
  0 < m_wheelRadius (Sample.wheel 200 NORMAL_MAP true Harmony.NONE) /\
  wheelDistance (Sample.wheel 200 NORMAL_MAP true Harmony.NONE) 50 0
  <= m_wheelRadius (Sample.wheel 200 NORMAL_MAP true Harmony.NONE) /\
  exists r g,
    wheelColor Sample.services
      (Sample.wheel 200 NORMAL_MAP true Harmony.NONE) 50 0
    = RgbColor r g 191 255 /\
    (0 <= r <= 255)%Z /\ (0 <= g <= 255)%Z.
Proof.
  assert (Hd : wheelDistance (Sample.wheel 200 NORMAL_MAP true Harmony.NONE)
                 50 0
               <= m_wheelRadius
                    (Sample.wheel 200 NORMAL_MAP true Harmony.NONE)).
  { rewrite sample_distance. simpl; lra. }
  split; [reflexivity|]. split; [reflexivity|]. split; [simpl; lra|].
  split; [exact Hd|].
  destruct (normal_map_discrete_levels Sample.services
              (Sample.wheel 200 NORMAL_MAP true Harmony.NONE) 50 0
              eq_refl eq_refl ltac:(simpl; lra) Hd)
    as (_ & r & g & Hc & Hr & Hg & _).
  exists r, g. split; [|split; assumption].
  rewrite Hc. rewrite sample_distance. simpl m_wheelRadius.
  replace (Zfloor (4 * 50 / (IZR 200 / 2 - 1 / 10))) with 2%Z;
    [reflexivity|].
  symmetry. apply Zfloor_eq. simpl IZR. lra.
Defined.

(** A complete pass over a 2 x 2 main area and a 2 x 1 bottom bar, with a
    stop flag that is raised only at its thousandth read. *)
Lemma complete_pass_writes_witness :
  stop_monotone (Sample.stopAt 1000) /\
  surface
    (bottomPass Sample.services (Sample.stopAt 1000) (mkRect 0 2 2 1)
       (mkPaintState (Sample.wheel 200 STANDARD false Harmony.NONE) [] 0))
  = [ bottomColumn Sample.services
        (Sample.wheel 200 STANDARD false Harmony.NONE) (mkRect 0 2 2 1) 1
    ; bottomColumn Sample.services
        (Sample.wheel 200 STANDARD false Harmony.NONE) (mkRect 0 2 2 1) 0 ].
Proof.
  split; [apply stopAt_monotone|].
  exact (proj2 (complete_pass_writes Sample.services (Sample.stopAt 1000)
                  (mkRect 0 0 2 2) (mkRect 0 2 2 1)
                  (mkPaintState
                     (Sample.wheel 200 STANDARD false Harmony.NONE) [] 0)
                  (stopAt_monotone 1000))
           eq_refl).
Defined.


(** The normal-map wheel 50 pixels right of the centre. *)
Lemma getMainAreaColor_normal_map_witness :
  m_colorModel (Sample.wheel 200 NORMAL_MAP false Harmony.NONE) = NORMAL_MAP /\
  0 < m_wheelRadius (Sample.wheel 200 NORMAL_MAP false Harmony.NONE) /\
  getMainAreaColor Sample.services
    (Sample.wheel 200 NORMAL_MAP false Harmony.NONE) 149 199 99 199
  = Some (wheelColor Sample.services
            (Sample.wheel 200 NORMAL_MAP false Harmony.NONE) 50 0,
          Sample.wheel 200 NORMAL_MAP false Harmony.NONE) /\
  m_harmonyPicked (Sample.wheel 200 NORMAL_MAP false Harmony.NONE) = false /\
  exists r g b,
    wheelColor Sample.services
      (Sample.wheel 200 NORMAL_MAP false Harmony.NONE) 50 0
    = RgbColor r g b 255 /\
    (0 <= r <= 255)%Z /\ (0 <= g <= 255)%Z /\ (128 <= b <= 255)%Z.
Proof.
  split; [reflexivity|]. split; [simpl; lra|].
  split; [apply sample_pick_on_wheel|].
  split; [reflexivity|].
  exact (proj1 (getMainAreaColor_normal_map Sample.services
                  (Sample.wheel 200 NORMAL_MAP false Harmony.NONE)
                  149 199 99 199 _ _ eq_refl ltac:(simpl; lra)
                  (sample_pick_on_wheel NORMAL_MAP false) eq_refl)).
Defined.

(** Two passes in a row over a 3 x 2 main area, with no stop request. *)
Lemma second_pass_idle_witness :
  (forall t : nat, (fun _ : nat => false) t = false) /\
  base_paint_leaves_wheel_flags Sample.services /\
  exists s1,
    onPaintSurfaceInBgThread Sample.services (fun _ => false)
      (mkPaintState (Sample.wheel 200 STANDARD false Harmony.NONE) [] 0)
      (mkRect 0 0 3 2) (mkRect 0 2 3 1) (mkRect 0 3 3 1) = Some s1 /\
    hasFlag (m_paintFlags (widget s1)) MainAreaFlag = false /\
    hasFlag (m_paintFlags (widget s1)) BottomBarFlag = false /\
    onPaintSurfaceInBgThread Sample.services (fun _ => false) s1
      (mkRect 0 0 3 2) (mkRect 0 2 3 1) (mkRect 0 3 3 1) = Some s1.
Proof.
  split; [reflexivity|]. split; [exact sample_base_paint|].
  exact (second_pass_idle Sample.services (fun _ => false)
           (mkPaintState (Sample.wheel 200 STANDARD false Harmony.NONE) [] 0)
           (mkRect 0 0 3 2) (mkRect 0 2 3 1) (mkRect 0 3 3 1)
           (fun _ => eq_refl) sample_base_paint).
Defined.

(** The last column of a bar 200 pixels wide: painted with a value below
    1, picked with the value 1. *)
Lemma bottom_bar_paint_vs_pick_witness :
  (0 < 199 < rw (mkRect 0 200 200 10))%Z /\ (0 <= 199 <= 199)%Z /\
  exists painted,
    bottomColumn Sample.services
      (Sample.wheel 200 STANDARD false Harmony.NONE) (mkRect 0 200 200 10) 199
    = DrawRect (mkRect 199 200 1 10) (Sample.color_for_ui painted) /\
    getHsvValue Sample.services painted < 1 /\
    getHsvValue Sample.services
      (getBottomBarColor Sample.services
         (Sample.wheel 200 STANDARD false Harmony.NONE) 199 199) = 1.
Proof.
  split; [simpl; lia|]. split; [lia|].
  destruct (bottom_bar_paint_vs_pick Sample.services
              (Sample.wheel 200 STANDARD false Harmony.NONE)
              (mkRect 0 200 200 10) 199 199
              ltac:(simpl; lia) ltac:(lia))
    as (painted & Hcol & _ & _ & _ & Hlt & _ & Hone).
  exists painted. split; [exact Hcol|].
  split; [exact (proj2 Hlt)|exact (Hone eq_refl)].
Defined.

(** The value picked a quarter of the way along a bar with [umax = 200]. *)
Lemma getBottomBarColor_spec_witness :
  (200 <> 0)%Z /\
  getBottomBarColor Sample.services
    (Sample.wheel 200 STANDARD false Harmony.NONE) 50 200
  = HsvColor 0 1 (IZR 50 / IZR 200) 255.
Proof.
  split; [lia|].
  destruct (getBottomBarColor_spec Sample.services
              (Sample.wheel 200 STANDARD false Harmony.NONE) 50 200
              ltac:(lia))
    as (val & Hc & _ & Hpos).
  rewrite Hc.
  destruct (Hpos ltac:(lia)) as (Hin & _).
  rewrite (Hin ltac:(lia)). reflexivity.
Defined.
